(** * agentops.helpers: safe serialization and the instance registry

    A shallow embedding of [agentops/helpers.py]:
    - [is_jsonable], [filter_unjsonable] (the sanitizer),
    - [safe_serialize] with its two local functions [default] and
      [remove_unwanted_items] (the serializer),
    - [singleton], [conditional_singleton], [clear_singletons] over the
      module-level dictionary [ao_instances] (the instance registry),
    - [check_call_stack_for_agent_id], on the stack it is given.

    Left out: [get_ISO_time] (the clock), [get_agentops_version] (the
    installed packages) and [debug_print_function_params] (logging).

    Python values are an inductive type [value]:
    - an [int] is unbounded ([Z]); writing it in decimal raises
      [ValueError] when it has more digits than the interpreter allows
      ([sys.get_int_max_str_digits()]: 4300 unless set otherwise, to 0
      for no limit or to 640 at least; interpreters before 3.11 have no
      limit): the functions that encode take this limit as their first
      argument, [max_digits];
    - a [float] is not-a-number, an infinity, or a finite float, given
      by the decimal literal [float.__repr__] writes for it;
    - a [str] is a sequence of code points below 256 (a Rocq [string]);
    - a [dict] is the list of its items in insertion order, with [str]
      keys as in the data model of the specification;
    - a [tuple] is kept apart from a [list]: the encoder writes both as
      arrays, the [isinstance] tests of the module know lists only;
    - any other object is given by the qualified name of its class and
      by what calling each of its attributes yields;
    - values are finite trees: a cyclic object graph has no counterpart,
      and the encoder is given fuel for the whole height of a value: the
      depth of the interpreter's stack is not modelled.

    Code that can raise returns a [result]; code that reads or writes
    [ao_instances] is a function of the [state].

    The standard library functions the module calls ([json.dumps],
    [str] of a [UUID], [hasattr], [type(o).__qualname__]) are modelled
    next to the code that uses them. *)

From Stdlib Require Import ZArith NArith List String Ascii Bool Lia.
From Stdlib Require Import DecimalString DecimalZ DecimalPos DecimalFacts.
From stdpp Require Import gmap strings list.

Import ListNotations.
Local Open Scope string_scope.
Local Open Scope list_scope.

#[local] Set Warnings "-register-all".

(** ** Exceptions and fallible computations *)

(** The exceptions that matter to the module: the two [is_jsonable]
    catches, the one an int beyond the digit limit raises when it is
    written, the one raised when a recursion does not end, and, as one
    constructor, whatever a user-supplied method or constructor raises. *)
Inductive exn : Type :=
| TypeError
| ValueError
| OverflowError
| RecursionError
| AttributeError
| KeyError
| UserException.

Inductive result (A : Type) : Type :=
| Ok (a : A)
| Raise (e : exn).
Arguments Ok {A} a.
Arguments Raise {A} e.

Definition bind {A B} (m : result A) (k : A -> result B) : result B :=
  match m with
  | Ok a => k a
  | Raise e => Raise e
  end.

Notation "x <- m ;; k" := (bind m (fun x => k))
  (at level 100, m at next level, right associativity).

Definition returns {A} (m : result A) : Prop := exists a, m = Ok a.

Section Traverse.
Context {A B : Type}.
Variable f : A -> result B.

(** A comprehension whose body may raise: elements are evaluated in
    order and the first exception ends the evaluation. *)
Fixpoint traverse (l : list A) : result (list B) :=
  match l with
  | [] => Ok []
  | x :: l' => y <- f x ;; ys <- traverse l' ;; Ok (y :: ys)
  end.
End Traverse.

(** ** Values *)

(** A [uuid.UUID]: its 128-bit integer. *)
Record UUID : Type := { uuid_int : N }.

(** The literal [float.__repr__] writes for a finite float: a sign, the
    digits before the point, the digits after it when there is a point,
    and a signed exponent when there is one ([1.5], [-0.0], [1e+16],
    [2.5e-07]). *)
Record float_literal : Type := {
  fl_negative : bool;
  fl_integer : Decimal.uint;
  fl_fraction : option Decimal.uint;
  fl_exponent : option Decimal.int
}.

Inductive pyfloat : Type :=
| FFinite (lit : float_literal)
| FNan
| FInfinity
| FNegInfinity.

Inductive value : Type :=
| VNone
| VEllipsis
| VBool (b : bool)
| VInt (n : Z)
| VFloat (x : pyfloat)
| VStr (s : string)
| VUuid (u : UUID)
| VList (xs : list value)
| VTuple (xs : list value)
| VDict (items : list (string * value))
  (** Any other object: the qualified name of its class and its
      attributes; an attribute is given by what calling it yields. *)
| VObj (qualname : string) (attrs : list (string * result value)).

Definition attr_values (attrs : list (string * result value)) : list value :=
  flat_map (fun a => match snd a with Ok v => [v] | Raise _ => [] end) attrs.

(** Induction over values, with the hypotheses for the values held in a
    list, a tuple, a dict or returned by an attribute. *)
Section ValueInd.
Variable P : value -> Prop.
Hypothesis HNone : P VNone.
Hypothesis HEllipsis : P VEllipsis.
Hypothesis HBool : forall b, P (VBool b).
Hypothesis HInt : forall n, P (VInt n).
Hypothesis HFloat : forall x, P (VFloat x).
Hypothesis HStr : forall s, P (VStr s).
Hypothesis HUuid : forall u, P (VUuid u).
Hypothesis HList : forall xs, Forall P xs -> P (VList xs).
Hypothesis HTuple : forall xs, Forall P xs -> P (VTuple xs).
Hypothesis HDict : forall items, Forall (fun kv => P (snd kv)) items -> P (VDict items).
Hypothesis HObj : forall q attrs, Forall P (attr_values attrs) -> P (VObj q attrs).

Fixpoint value_nested_ind (v : value) : P v :=
  match v with
  | VNone => HNone
  | VEllipsis => HEllipsis
  | VBool b => HBool b
  | VInt n => HInt n
  | VFloat x => HFloat x
  | VStr s => HStr s
  | VUuid u => HUuid u
  | VList xs =>
      HList xs ((fix go (l : list value) : Forall P l :=
                   match l with
                   | [] => List.Forall_nil _
                   | x :: l' => List.Forall_cons _ _ _ (value_nested_ind x) (go l')
                   end) xs)
  | VTuple xs =>
      HTuple xs ((fix go (l : list value) : Forall P l :=
                    match l with
                    | [] => List.Forall_nil _
                    | x :: l' => List.Forall_cons _ _ _ (value_nested_ind x) (go l')
                    end) xs)
  | VDict items =>
      HDict items ((fix go (l : list (string * value)) : Forall (fun kv => P (snd kv)) l :=
                      match l with
                      | [] => List.Forall_nil _
                      | (k, x) :: l' => List.Forall_cons (fun kv => P (snd kv)) (k, x) l' (value_nested_ind x) (go l')
                      end) items)
  | VObj q attrs =>
      HObj q attrs ((fix go (l : list (string * result value)) : Forall P (attr_values l) :=
                       match l with
                       | [] => List.Forall_nil _
                       | (k, Ok x) :: l' => List.Forall_cons _ _ _ (value_nested_ind x) (go l')
                       | (k, Raise _) :: l' => go l'
                       end) attrs)
  end.
End ValueInd.

(** [isinstance(v, dict)], [isinstance(v, list)], [isinstance(v, UUID)]. *)
Definition isinstance_dict (v : value) : bool :=
  match v with VDict _ => true | _ => false end.
Definition isinstance_list (v : value) : bool :=
  match v with VList _ => true | _ => false end.
Definition isinstance_UUID (v : value) : bool :=
  match v with VUuid _ => true | _ => false end.

(** [type(o).__qualname__]. *)
Definition type_qualname (o : value) : string :=
  match o with
  | VNone => "NoneType"
  | VEllipsis => "ellipsis"
  | VBool _ => "bool"
  | VInt _ => "int"
  | VFloat _ => "float"
  | VStr _ => "str"
  | VUuid _ => "UUID"
  | VList _ => "list"
  | VTuple _ => "tuple"
  | VDict _ => "dict"
  | VObj q _ => q
  end.

(** The depth of nesting of a value: through containers, through what
    the attributes of an object return, and one level for a value that is
    written as something else (a string, for a UUID or [Ellipsis]). *)
Fixpoint height (v : value) : nat :=
  match v with
  | VNone | VBool _ | VInt _ | VFloat _ | VStr _ => 0
  | VEllipsis | VUuid _ => 1
  | VList xs | VTuple xs => S (list_max (map height xs))
  | VDict items => S (list_max (map (fun kv => height (snd kv)) items))
  | VObj _ attrs =>
      S (list_max (map (fun a => match snd a with Ok x => height x | Raise _ => 0 end) attrs))
  end.

(** ** [str(u)] for a [UUID] *)

Definition hexdigits : list ascii := list_ascii_of_string "0123456789abcdef".

(** The hexadecimal digit of the low four bits of [n]. *)
Definition hex_digit (n : N) : ascii :=
  nth (N.to_nat (N.land n 15)) hexdigits "0"%char.

(** ['%032x' % n]: the 32 hexadecimal digits of a 128-bit integer. *)
Definition hex32 (n : N) : list ascii :=
  map (fun i => hex_digit (N.shiftr n (4 * N.of_nat i))) (rev (seq 0 32)).

(** [l[a:b]] *)
Definition slice {A} (a b : nat) (l : list A) : list A := firstn (b - a) (skipn a l).

(** [UUID.__str__]: the digits in groups of 8, 4, 4, 4 and 12. *)
Definition str_UUID (u : UUID) : string :=
  let hex := hex32 (uuid_int u) in
  string_of_list_ascii
    (slice 0 8 hex ++ "-"%char :: slice 8 12 hex ++ "-"%char :: slice 12 16 hex
       ++ "-"%char :: slice 16 20 hex ++ "-"%char :: skipn 20 hex).

(** ** [json.dumps] *)

(** What the encoder writes: a JSON document. *)
Inductive json : Type :=
| JNull
| JBool (b : bool)
| JNum (n : Z)
| JFloat (x : pyfloat)
| JStr (s : string)
| JArr (elements : list json)
| JObj (members : list (string * json)).

Section JsonInd.
Variable P : json -> Prop.
Hypothesis HNull : P JNull.
Hypothesis HBool : forall b, P (JBool b).
Hypothesis HNum : forall n, P (JNum n).
Hypothesis HFloat : forall x, P (JFloat x).
Hypothesis HStr : forall s, P (JStr s).
Hypothesis HArr : forall l, Forall P l -> P (JArr l).
Hypothesis HObj : forall l, Forall (fun kv => P (snd kv)) l -> P (JObj l).

Fixpoint json_nested_ind (j : json) : P j :=
  match j with
  | JNull => HNull
  | JBool b => HBool b
  | JNum n => HNum n
  | JFloat x => HFloat x
  | JStr s => HStr s
  | JArr l =>
      HArr l ((fix go (l : list json) : Forall P l :=
                 match l with
                 | [] => List.Forall_nil _
                 | x :: l' => List.Forall_cons _ _ _ (json_nested_ind x) (go l')
                 end) l)
  | JObj l =>
      HObj l ((fix go (l : list (string * json)) : Forall (fun kv => P (snd kv)) l :=
                 match l with
                 | [] => List.Forall_nil _
                 | (k, x) :: l' =>
                     List.Forall_cons (fun kv => P (snd kv)) (k, x) l' (json_nested_ind x) (go l')
                 end) l)
  end.
End JsonInd.

(** The number of decimal digits of an int. *)
Definition num_digits (n : Z) : nat :=
  match Z.to_int n with
  | Decimal.Pos u | Decimal.Neg u => Decimal.nb_digits u
  end.

(** Whether [int.__repr__] refuses [n]: the limit is on and [n] has more
    digits, its sign not counted, than it allows. *)
Definition exceeds_digit_limit (max_digits : N) (n : Z) : bool :=
  ((0 <? max_digits) && (max_digits <? N.of_nat (num_digits n)))%N.

(** [sys.int_info.default_max_str_digits], the limit of an interpreter
    that is not told otherwise. *)
Definition default_max_str_digits : N := 4300.

(** The encoder proper ([json.encoder._make_iterencode]): [str], [None],
    [bool], [int] and [float] are written as they are, a [list] or
    [tuple] as an array, a [dict] as an object, and any other value is
    handed to the [default] hook, whose answer is encoded in its place.
    Writing an int beyond the digit limit is a [ValueError]; a float that
    is not finite is written all the same ([allow_nan] is left true).
    [fuel] bounds the depth of the recursion; running out of it is a
    [RecursionError]. *)
Fixpoint iterencode (max_digits : N) (default : value -> result value)
    (fuel : nat) (o : value) : result json :=
  match fuel with
  | 0 => Raise RecursionError
  | S fuel' =>
      match o with
      | VStr s => Ok (JStr s)
      | VNone => Ok JNull
      | VBool b => Ok (JBool b)
      | VInt n => if exceeds_digit_limit max_digits n then Raise ValueError else Ok (JNum n)
      | VFloat x => Ok (JFloat x)
      | VList xs | VTuple xs =>
          js <- traverse (iterencode max_digits default fuel') xs ;; Ok (JArr js)
      | VDict items =>
          ms <- traverse (fun kv => j <- iterencode max_digits default fuel' (snd kv) ;;
                                    Ok (fst kv, j)) items ;;
          Ok (JObj ms)
      | _ => o' <- default o ;; iterencode max_digits default fuel' o'
      end
  end.

(** [json.encoder.py_encode_basestring_ascii] on one character: the
    short escapes, the printable ASCII characters as they are and
    [\u00xx] for the rest. *)
Definition quote : ascii := ascii_of_N 34.
Definition backslash : ascii := ascii_of_N 92.

Definition escape_char (c : ascii) : list ascii :=
  let n := N_of_ascii c in
  if (n =? 34)%N then [backslash; quote]
  else if (n =? 92)%N then list_ascii_of_string "\\"
  else if (n =? 8)%N then list_ascii_of_string "\b"
  else if (n =? 12)%N then list_ascii_of_string "\f"
  else if (n =? 10)%N then list_ascii_of_string "\n"
  else if (n =? 13)%N then list_ascii_of_string "\r"
  else if (n =? 9)%N then list_ascii_of_string "\t"
  else if ((32 <=? n) && (n <=? 126))%N then [c]
  else list_ascii_of_string "\u00" ++ [hex_digit (N.shiftr n 4); hex_digit n].

Definition render_string (s : string) : list ascii :=
  quote :: flat_map escape_char (list_ascii_of_string s) ++ [quote].

(** [int.__repr__], for an int within the digit limit. *)
Definition render_int (n : Z) : list ascii :=
  list_ascii_of_string (NilZero.string_of_int (Z.to_int n)).

(** The digits of an unsigned decimal number, as characters. *)
Definition uint_chars (u : Decimal.uint) : list ascii :=
  list_ascii_of_string (NilEmpty.string_of_uint u).

Definition render_fraction (f : option Decimal.uint) : list ascii :=
  match f with
  | Some d => "."%char :: uint_chars d
  | None => []
  end.

Definition render_exponent (e : option Decimal.int) : list ascii :=
  match e with
  | Some (Decimal.Pos d) => "e"%char :: "+"%char :: uint_chars d
  | Some (Decimal.Neg d) => "e"%char :: "-"%char :: uint_chars d
  | None => []
  end.

(** The literal of a finite float, as [float.__repr__] writes it. *)
Definition render_literal (lit : float_literal) : list ascii :=
  (if fl_negative lit then ["-"%char] else [])
    ++ uint_chars (fl_integer lit)
    ++ render_fraction (fl_fraction lit)
    ++ render_exponent (fl_exponent lit).

(** [json.encoder.floatstr]: [float.__repr__] for a finite float, and
    the three names that are not JSON for the others. *)
Definition render_float (x : pyfloat) : list ascii :=
  match x with
  | FFinite lit => render_literal lit
  | FNan => list_ascii_of_string "NaN"
  | FInfinity => list_ascii_of_string "Infinity"
  | FNegInfinity => list_ascii_of_string "-Infinity"
  end.

Fixpoint join {A} (sep : list A) (parts : list (list A)) : list A :=
  match parts with
  | [] => []
  | [p] => p
  | p :: ps => p ++ sep ++ join sep ps
  end.

(** The text of a document, with the separators [", "] and [": "] that
    [json.dumps] uses when none are given. *)
Fixpoint render (j : json) : list ascii :=
  match j with
  | JNull => list_ascii_of_string "null"
  | JBool true => list_ascii_of_string "true"
  | JBool false => list_ascii_of_string "false"
  | JNum n => render_int n
  | JFloat x => render_float x
  | JStr s => render_string s
  | JArr l =>
      list_ascii_of_string "[" ++ join (list_ascii_of_string ", ") (map render l)
        ++ list_ascii_of_string "]"
  | JObj l =>
      list_ascii_of_string "{"
        ++ join (list_ascii_of_string ", ")
             (map (fun kv => render_string (fst kv) ++ list_ascii_of_string ": " ++ render (snd kv)) l)
        ++ list_ascii_of_string "}"
  end.

(** [json.dumps(obj, default=default)].  The recursion is given the
    height of [obj] as its bound, which is enough for a hook that answers
    with a string or with what an attribute of its argument returns, as
    the two hooks of this module do. *)
Definition json_dumps (max_digits : N) (default : value -> result value)
    (obj : value) : result string :=
  j <- iterencode max_digits default (S (height obj)) obj ;;
  Ok (string_of_list_ascii (render j)).

(** [json.JSONEncoder.default], the hook of [json.dumps(x)]. *)
Definition JSONEncoder_default (o : value) : result value := Raise TypeError.

(** ** The sanitizer *)

Definition is_jsonable (max_digits : N) (x : value) : result bool :=
  match json_dumps max_digits JSONEncoder_default x with
  | Ok _ => Ok true
  | Raise TypeError | Raise OverflowError => Ok false
  | Raise e => Raise e
  end.

(** [filter_dict], the local function of [filter_unjsonable].  In the
    two comprehensions the choice between [str(v)] for a [UUID] and the
    empty string is the
    match on [VUuid]. *)
Fixpoint filter_dict (max_digits : N) (obj : value) : result value :=
  match obj with
  | VDict items =>
      items' <- traverse
                  (fun kv =>
                     let v := snd kv in
                     keep <- (if isinstance_dict v || isinstance_list v then Ok true
                              else is_jsonable max_digits v) ;;
                     v' <- (if (keep : bool) then filter_dict max_digits v
                            else Ok (match v with
                                     | VUuid u => VStr (str_UUID u)
                                     | _ => VStr EmptyString
                                     end)) ;;
                     Ok (fst kv, v'))
                  items ;;
      Ok (VDict items')
  | VList xs =>
      xs' <- traverse
               (fun x =>
                  keep <- (if isinstance_dict x || isinstance_list x then Ok true
                           else is_jsonable max_digits x) ;;
                  if (keep : bool) then filter_dict max_digits x
                  else Ok (match x with
                           | VUuid u => VStr (str_UUID u)
                           | _ => VStr EmptyString
                           end))
               xs ;;
      Ok (VList xs')
  | _ =>
      jsonable <- is_jsonable max_digits obj ;;
      Ok (if (jsonable : bool) || isinstance_UUID obj then obj else VStr EmptyString)
  end.

Definition filter_unjsonable (max_digits : N) (d : value) : result value :=
  filter_dict max_digits d.

(** ** The serializer *)

(** The entry of an attribute in the table of an object. *)
Fixpoint lookup_attr {A} (name : string) (attrs : list (string * A)) : option A :=
  match attrs with
  | [] => None
  | (k, r) :: attrs' => if String.eqb k name then Some r else lookup_attr name attrs'
  end.

(** [hasattr(o, name)]: none of the built-in types of [value] has an
    attribute of the five names [default] asks for. *)
Definition hasattr (o : value) (name : string) : bool :=
  match o with
  | VObj _ attrs => match lookup_attr name attrs with Some _ => true | None => false end
  | _ => false
  end.

(** [getattr(o, name)()] *)
Definition call_method (o : value) (name : string) : result value :=
  match o with
  | VObj _ attrs =>
      match lookup_attr name attrs with Some r => r | None => Raise AttributeError end
  | _ => Raise AttributeError
  end.

(** [default], the first local function of [safe_serialize]. *)
Definition default (o : value) : result value :=
  match o with
  | VUuid u => Ok (VStr (str_UUID u))
  | _ =>
      if hasattr o "model_dump_json" then call_method o "model_dump_json"
      else if hasattr o "to_json" then call_method o "to_json"
      else if hasattr o "json" then call_method o "json"
      else if hasattr o "to_dict" then call_method o "to_dict"
      else if hasattr o "dict" then call_method o "dict"
      else Ok (VStr ("<<non-serializable: " ++ type_qualname o ++ ">>")%string)
  end.

(** [v is not None and v is not ... and k != "self"] *)
Definition wanted (kv : string * value) : bool :=
  match snd kv with
  | VNone => false
  | VEllipsis => false
  | _ => negb (String.eqb (fst kv) "self")
  end.

(** [[body(x) for x in l if cond(x)]] *)
Definition comprehension {A B} (cond : A -> bool) (body : A -> B) (l : list A) : list B :=
  flat_map (fun x => if cond x then [body x] else []) l.

(** [remove_unwanted_items], the second local function. *)
Fixpoint remove_unwanted_items (value_ : value) : value :=
  match value_ with
  | VDict items =>
      VDict (comprehension wanted (fun kv => (fst kv, remove_unwanted_items (snd kv))) items)
  | VList xs => VList (map remove_unwanted_items xs)
  | _ => value_
  end.

Definition safe_serialize (max_digits : N) (obj : value) : result string :=
  let cleaned_obj := remove_unwanted_items obj in
  json_dumps max_digits default cleaned_obj.

(** ** Decoding JSON text

    A recursive-descent decoder for the JSON grammar (RFC 8259), for
    texts whose characters and [\u] escapes denote code points below
    256.  A number without fraction and exponent is read as an int, any
    other as the float of that literal.  The decoder keeps to the
    grammar: the words [NaN], [Infinity] and [-Infinity], which Python's
    own [json.loads] reads as well, are not JSON and are refused.  It is
    the yardstick for what the serializer returns: a text is valid JSON
    when [json_loads] accepts it, and it decodes to the document
    [json_loads] returns. *)

Definition is_ws (c : ascii) : bool :=
  let n := N_of_ascii c in
  ((n =? 32) || (n =? 9) || (n =? 10) || (n =? 13))%N.

Fixpoint skip_ws (s : list ascii) : list ascii :=
  match s with
  | c :: s' => if is_ws c then skip_ws s' else s
  | [] => []
  end.

Definition digit_of_ascii (c : ascii) : option (Decimal.uint -> Decimal.uint) :=
  match N_of_ascii c with
  | 48%N => Some Decimal.D0 | 49%N => Some Decimal.D1 | 50%N => Some Decimal.D2
  | 51%N => Some Decimal.D3 | 52%N => Some Decimal.D4 | 53%N => Some Decimal.D5
  | 54%N => Some Decimal.D6 | 55%N => Some Decimal.D7 | 56%N => Some Decimal.D8
  | 57%N => Some Decimal.D9
  | _ => None
  end.

Definition is_digit (c : ascii) : bool :=
  match digit_of_ascii c with Some _ => true | None => false end.

(** The longest run of decimal digits at the start of [s]. *)
Fixpoint parse_uint (s : list ascii) : Decimal.uint * list ascii :=
  match s with
  | [] => (Decimal.Nil, [])
  | c :: s' =>
      match digit_of_ascii c with
      | Some d => let (u, rest) := parse_uint s' in (d u, rest)
      | None => (Decimal.Nil, s)
      end
  end.

(** [int = zero / ( digit1-9 *DIGIT )]: at least one digit, and no zero
    before another digit. *)
Definition parse_nat (s : list ascii) : option (Decimal.uint * list ascii) :=
  match parse_uint s with
  | (Decimal.Nil, _) => None
  | (Decimal.D0 Decimal.Nil, rest) => Some (Decimal.D0 Decimal.Nil, rest)
  | (Decimal.D0 _, _) => None
  | (u, rest) => Some (u, rest)
  end.

(** [frac = decimal-point 1*DIGIT], when there is one. *)
Definition parse_fraction (s : list ascii) : option (option Decimal.uint * list ascii) :=
  match s with
  | c :: s' =>
      if Ascii.eqb c "." then
        match parse_uint s' with
        | (Decimal.Nil, _) => None
        | (f, rest) => Some (Some f, rest)
        end
      else Some (None, s)
  | [] => Some (None, [])
  end.

Definition parse_exponent_digits (negative : bool) (s : list ascii)
  : option (option Decimal.int * list ascii) :=
  match parse_uint s with
  | (Decimal.Nil, _) => None
  | (u, rest) => Some (Some (if negative then Decimal.Neg u else Decimal.Pos u), rest)
  end.

(** [exp = e [ minus / plus ] 1*DIGIT], when there is one. *)
Definition parse_exponent (s : list ascii) : option (option Decimal.int * list ascii) :=
  match s with
  | c :: s' =>
      if Ascii.eqb c "e" || Ascii.eqb c "E" then
        match s' with
        | d :: s'' =>
            if Ascii.eqb d "-" then parse_exponent_digits true s''
            else if Ascii.eqb d "+" then parse_exponent_digits false s''
            else parse_exponent_digits false s'
        | [] => None
        end
      else Some (None, s)
  | [] => Some (None, [])
  end.

(** [number = [ minus ] int [ frac ] [ exp ]], after the sign. *)
Definition parse_number (negative : bool) (s : list ascii) : option (json * list ascii) :=
  '(u, rest) ← parse_nat s;
  '(frac, rest1) ← parse_fraction rest;
  '(exp, rest2) ← parse_exponent rest1;
  match frac, exp with
  | None, None =>
      Some (JNum (Z.of_int (if negative then Decimal.Neg u else Decimal.Pos u)), rest2)
  | _, _ =>
      Some (JFloat (FFinite {| fl_negative := negative; fl_integer := u;
                               fl_fraction := frac; fl_exponent := exp |}), rest2)
  end.

Definition hex_value (c : ascii) : option N :=
  let n := N_of_ascii c in
  if ((48 <=? n) && (n <=? 57))%N then Some (n - 48)%N
  else if ((97 <=? n) && (n <=? 102))%N then Some (n - 87)%N
  else if ((65 <=? n) && (n <=? 70))%N then Some (n - 55)%N
  else None.

Definition hex4 (h1 h2 h3 h4 : ascii) : option N :=
  a ← hex_value h1; b ← hex_value h2; c ← hex_value h3; d ← hex_value h4;
  Some (((a * 16 + b) * 16 + c) * 16 + d)%N.

(** The character a two-character escape stands for. *)
Definition unescape (e : ascii) : option ascii :=
  match N_of_ascii e with
  | 34%N => Some quote
  | 92%N => Some backslash
  | 47%N => Some (ascii_of_N 47)
  | 98%N => Some (ascii_of_N 8)
  | 102%N => Some (ascii_of_N 12)
  | 110%N => Some (ascii_of_N 10)
  | 114%N => Some (ascii_of_N 13)
  | 116%N => Some (ascii_of_N 9)
  | _ => None
  end.

(** The characters of a string up to its closing quotation mark. *)
Fixpoint parse_chars (s : list ascii) : option (list ascii * list ascii) :=
  match s with
  | [] => None
  | c :: s' =>
      if Ascii.eqb c quote then Some ([], s')
      else if Ascii.eqb c backslash then
        match s' with
        | [] => None
        | e :: s'' =>
            if Ascii.eqb e "u" then
              match s'' with
              | h1 :: h2 :: h3 :: h4 :: s3 =>
                  n ← hex4 h1 h2 h3 h4;
                  if (n <? 256)%N
                  then '(cs, rest) ← parse_chars s3; Some (ascii_of_N n :: cs, rest)
                  else None
              | _ => None
              end
            else
              c' ← unescape e;
              '(cs, rest) ← parse_chars s''; Some (c' :: cs, rest)
        end
      else if (N_of_ascii c <? 32)%N then None
      else '(cs, rest) ← parse_chars s'; Some (c :: cs, rest)
  end.

Fixpoint strip_prefix (p s : list ascii) : option (list ascii) :=
  match p with
  | [] => Some s
  | c :: p' =>
      match s with
      | d :: s' => if Ascii.eqb c d then strip_prefix p' s' else None
      | [] => None
      end
  end.

Definition parse_literal (lit : string) (j : json) (s : list ascii)
  : option (json * list ascii) :=
  rest ← strip_prefix (list_ascii_of_string lit) s; Some (j, rest).

Fixpoint parse_value (fuel : nat) (s : list ascii) : option (json * list ascii) :=
  match fuel with
  | 0 => None
  | S fuel' =>
      match skip_ws s with
      | [] => None
      | c :: s' =>
          if Ascii.eqb c "n" then parse_literal "ull" JNull s'
          else if Ascii.eqb c "t" then parse_literal "rue" (JBool true) s'
          else if Ascii.eqb c "f" then parse_literal "alse" (JBool false) s'
          else if Ascii.eqb c quote then
            '(cs, rest) ← parse_chars s'; Some (JStr (string_of_list_ascii cs), rest)
          else if Ascii.eqb c "-" then parse_number true s'
          else if is_digit c then parse_number false (c :: s')
          else if Ascii.eqb c "[" then
            match skip_ws s' with
            | c' :: rest =>
                if Ascii.eqb c' "]" then Some (JArr [], rest)
                else '(js, rest') ← parse_elements fuel' s'; Some (JArr js, rest')
            | [] => None
            end
          else if Ascii.eqb c "{" then
            match skip_ws s' with
            | c' :: rest =>
                if Ascii.eqb c' "}" then Some (JObj [], rest)
                else '(ms, rest') ← parse_members fuel' s'; Some (JObj ms, rest')
            | [] => None
            end
          else None
      end
  end
with parse_elements (fuel : nat) (s : list ascii) : option (list json * list ascii) :=
  match fuel with
  | 0 => None
  | S fuel' =>
      '(j, rest) ← parse_value fuel' s;
      match skip_ws rest with
      | c :: rest' =>
          if Ascii.eqb c "," then
            '(js, rest'') ← parse_elements fuel' rest'; Some (j :: js, rest'')
          else if Ascii.eqb c "]" then Some ([j], rest')
          else None
      | [] => None
      end
  end
with parse_members (fuel : nat) (s : list ascii)
  : option (list (string * json) * list ascii) :=
  match fuel with
  | 0 => None
  | S fuel' =>
      match skip_ws s with
      | c :: s' =>
          if Ascii.eqb c quote then
            '(cs, rest) ← parse_chars s';
            match skip_ws rest with
            | c' :: rest' =>
                if Ascii.eqb c' ":" then
                  '(j, rest'') ← parse_value fuel' rest';
                  let m := (string_of_list_ascii cs, j) in
                  match skip_ws rest'' with
                  | c'' :: rest3 =>
                      if Ascii.eqb c'' "," then
                        '(ms, rest4) ← parse_members fuel' rest3; Some (m :: ms, rest4)
                      else if Ascii.eqb c'' "}" then Some ([m], rest3)
                      else None
                  | [] => None
                  end
                else None
            | [] => None
            end
          else None
      | [] => None
      end
  end.

(** [json.loads]: one value, with nothing but white space after it. *)
Definition json_loads (text : string) : option json :=
  let s := list_ascii_of_string text in
  '(j, rest) ← parse_value (S (length s)) s;
  match skip_ws rest with
  | [] => Some j
  | _ :: _ => None
  end.

Definition valid_json (text : string) : Prop := exists j, json_loads text = Some j.

(** ** The instance registry *)

(** A class is known by its identity. *)
Definition class : Type := positive.

(** An object made by calling a class: the address it was allocated at
    (its identity), its class and the arguments it was constructed with. *)
Record instance : Type := {
  inst_addr : nat;
  inst_class : class;
  inst_args : list value;
  inst_kwargs : list (string * value)
}.

(** The state of the process: the module-level dictionary [ao_instances]
    and the allocator, which hands out each address once. *)
Record state : Type := {
  ao_instances : gmap class instance;
  next_addr : nat
}.

Definition initial_state : state := {| ao_instances := ∅; next_addr := 0 |}.

(** Code that reads and writes the state and may raise. *)
Definition M (A : Type) : Type := state -> result A * state.

Definition ret {A} (a : A) : M A := fun st => (Ok a, st).
Definition raise {A} (e : exn) : M A := fun st => (Raise e, st).
Definition mbind_M {A B} (m : M A) (k : A -> M B) : M B :=
  fun st =>
    match m st with
    | (Ok a, st') => k a st'
    | (Raise e, st') => (Raise e, st')
    end.

Notation "x <~ m ;; k" := (mbind_M m (fun x => k))
  (at level 100, m at next level, right associativity).
Notation "m ;;; k" := (mbind_M m (fun _ => k))
  (at level 100, right associativity).

(** Whether all the digits are zeros. *)
Definition all_zeros (u : Decimal.uint) : bool :=
  match Decimal.nzhead u with Decimal.Nil => true | _ => false end.

(** [x != 0.0] *)
Definition float_nonzero (x : pyfloat) : bool :=
  match x with
  | FFinite lit =>
      negb (all_zeros (fl_integer lit)
            && match fl_fraction lit with Some f => all_zeros f | None => true end)
  | _ => true
  end.

(** [bool(v)]; an object of a user class is taken to be true. *)
Definition truthy (v : value) : bool :=
  match v with
  | VNone => false
  | VBool b => b
  | VInt n => negb (n =? 0)%Z
  | VFloat x => float_nonzero x
  | VStr s => negb (String.eqb s EmptyString)
  | VList xs | VTuple xs => match xs with [] => false | _ => true end
  | VDict items => match items with [] => false | _ => true end
  | _ => true
  end.

(** [kwargs.pop(key, default)]: the value and the remaining items. *)
Fixpoint dict_pop (key : string) (dflt : value) (kwargs : list (string * value))
  : value * list (string * value) :=
  match kwargs with
  | [] => (dflt, [])
  | (k, v) :: kwargs' =>
      if String.eqb k key then (v, kwargs')
      else let (r, rest) := dict_pop key dflt kwargs' in (r, (k, v) :: rest)
  end.

Section Registry.
(** What the constructor of each class does with its arguments:
    return or raise. *)
Variable init : class -> list value -> list (string * value) -> result unit.

(** The call of [class_] with the arguments it was given. *)
Definition construct (class_ : class) (args : list value)
    (kwargs : list (string * value)) : M instance :=
  fun st =>
    match init class_ args kwargs with
    | Ok _ =>
        (Ok {| inst_addr := next_addr st; inst_class := class_;
               inst_args := args; inst_kwargs := kwargs |},
         {| ao_instances := ao_instances st; next_addr := S (next_addr st) |})
    | Raise e => (Raise e, st)
    end.

(** [class_ in ao_instances] *)
Definition contains (class_ : class) : M bool :=
  fun st => (Ok (bool_decide (is_Some (ao_instances st !! class_))), st).

(** [ao_instances[class_] = inst] *)
Definition setitem (class_ : class) (inst : instance) : M unit :=
  fun st =>
    (Ok tt, {| ao_instances := <[class_ := inst]> (ao_instances st);
               next_addr := next_addr st |}).

(** [ao_instances[class_]] *)
Definition getitem (class_ : class) : M instance :=
  fun st =>
    match ao_instances st !! class_ with
    | Some inst => (Ok inst, st)
    | None => (Raise KeyError, st)
    end.

(** [getinstance], the function [singleton(class_)] returns. *)
Definition singleton (class_ : class) (args : list value)
    (kwargs : list (string * value)) : M instance :=
  present <~ contains class_ ;;
  (if negb present
   then inst <~ construct class_ args kwargs ;; setitem class_ inst
   else ret tt) ;;;
  getitem class_.

(** [getinstance], the function [conditional_singleton(class_)] returns. *)
Definition conditional_singleton (class_ : class) (args : list value)
    (kwargs : list (string * value)) : M instance :=
  let (use_singleton, kwargs) := dict_pop "use_singleton" (VBool true) kwargs in
  if truthy use_singleton then
    present <~ contains class_ ;;
    (if negb present
     then inst <~ construct class_ args kwargs ;; setitem class_ inst
     else ret tt) ;;;
    getitem class_
  else construct class_ args kwargs.

(** [clear_singletons]: the global name is bound to a new, empty dict. *)
Definition clear_singletons : M unit :=
  fun st => (Ok tt, {| ao_instances := ∅; next_addr := next_addr st |}).

(** The calls a program can make on the registry, and the state a
    sequence of them leaves. *)
Inductive call : Type :=
| CallSingleton (class_ : class) (args : list value) (kwargs : list (string * value))
| CallConditional (class_ : class) (args : list value) (kwargs : list (string * value))
| CallClear.

Definition exec (c : call) (st : state) : state :=
  match c with
  | CallSingleton class_ args kwargs => snd (singleton class_ args kwargs st)
  | CallConditional class_ args kwargs => snd (conditional_singleton class_ args kwargs st)
  | CallClear => snd (clear_singletons st)
  end.

Definition exec_all (cs : list call) (st : state) : state :=
  fold_left (fun st c => exec c st) cs st.

Definition is_clear (c : call) : bool :=
  match c with CallClear => true | _ => false end.
End Registry.

(** * Predicates of the specification *)

(** The Sanitized Value of the specification: [None], booleans,
    numbers, strings, and sequences and mappings of such values. *)
Fixpoint sanitized (v : value) : bool :=
  match v with
  | VNone | VBool _ | VInt _ | VFloat _ | VStr _ => true
  | VList xs | VTuple xs => forallb sanitized xs
  | VDict items => forallb (fun kv => sanitized (snd kv)) items
  | VEllipsis | VUuid _ | VObj _ _ => false
  end.



(** ** The scan of the call stack *)

(** [getattr(o, name)] for an attribute that is read: for the two
    attributes the scan reads, the entry of an object holds what reading
    the attribute yields.  The built-in types of [value] have neither. *)
Definition getattr (o : value) (name : string) : result value :=
  match o with
  | VObj _ attrs =>
      match lookup_attr name attrs with Some r => r | None => Raise AttributeError end
  | _ => Raise AttributeError
  end.

(** [hasattr(o, name)] as Python defines it: [getattr] is tried, and an
    [AttributeError] means no. *)
Definition hasattr_read (o : value) (name : string) : result bool :=
  match getattr o name with
  | Ok _ => Ok true
  | Raise AttributeError => Ok false
  | Raise e => Raise e
  end.

(** [var == s] for a string [s]: true of the equal [str] only. *)
Definition eq_str (var : value) (s : string) : bool :=
  match var with
  | VStr s' => String.eqb s' s
  | _ => false
  end.

(** The inner loop of [check_call_stack_for_agent_id], over the local
    variables of one frame: [Some r] when the function returns [r] there,
    [None] when the loop ends.  The argument of [logger.debug] is
    evaluated before the call; what is logged is not modelled. *)
Fixpoint scan_locals (local_vars : list value) : result (option value) :=
  match local_vars with
  | [] => Ok None
  | var :: local_vars' =>
      if eq_str var "__main__" then Ok (Some VNone)
      else
        has <- hasattr_read var "agent_ops_agent_id" ;;
        found <- (if (has : bool)
                  then id <- getattr var "agent_ops_agent_id" ;; Ok (truthy id)
                  else Ok false) ;;
        if (found : bool) then
          _ <- getattr var "agent_ops_agent_name" ;;
          id <- getattr var "agent_ops_agent_id" ;;
          Ok (Some id)
        else scan_locals local_vars'
  end.

(** The outer loop, over the frames. *)
Fixpoint scan_frames (frames : list (list value)) : result (option value) :=
  match frames with
  | [] => Ok None
  | local_vars :: frames' =>
      r <- scan_locals local_vars ;;
      match r with
      | Some v => Ok (Some v)
      | None => scan_frames frames'
      end
  end.

(** [check_call_stack_for_agent_id], on the stack [inspect.stack()]
    returns: for each frame, innermost first, the values of its local
    variables. *)
Definition check_call_stack_for_agent_id (stack : list (list value)) : result value :=
  r <- scan_frames stack ;;
  Ok (match r with Some v => v | None => VNone end).

(** The body of the two comprehensions of [filter_dict], on one value. *)
Definition filter_item (max_digits : N) (v : value) : result value :=
  keep <- (if isinstance_dict v || isinstance_list v then Ok true
           else is_jsonable max_digits v) ;;
  if (keep : bool) then filter_dict max_digits v
  else Ok (match v with
           | VUuid u => VStr (str_UUID u)
           | _ => VStr EmptyString
           end).

(** A UUID for the examples. *)
Definition uuid_example : UUID :=
  {| uuid_int := 0x5fda42fe809b4179bad2321d1a6090c7 |}.

(** No int that [json.dumps] comes to write for [v] --- [v] itself, an
    element of its lists and tuples or a value of its dicts, at any
    depth --- has more digits than the limit allows. *)
Fixpoint ints_within (max_digits : N) (v : value) : bool :=
  match v with
  | VInt n => negb (exceeds_digit_limit max_digits n)
  | VList xs | VTuple xs => forallb (ints_within max_digits) xs
  | VDict items => forallb (fun kv => ints_within max_digits (snd kv)) items
  | _ => true
  end.

(** The value [json.dumps] encodes on its own: a Sanitized Value whose
    ints are within the digit limit. *)
Definition encodable (max_digits : N) (v : value) : bool :=
  sanitized v && ints_within max_digits v.

(** An outcome of the sanitizer on [v]: what it returns for a value
    other than a UUID is encoded by [json.dumps], and it raises nothing
    but the [ValueError] of an int beyond the digit limit. *)
Definition filter_outcome (max_digits : N) (v : value) (r : result value) : Prop :=
  match r with
  | Ok r' => isinstance_UUID v = false -> encodable max_digits r' = true
  | Raise e => e = ValueError /\ ints_within max_digits v = false
  end.

(** The int [10 ** 4300], by its decimal digits: a one and 4300 zeros,
    one digit more than the default limit allows. *)
Definition big_int_example : Z :=
  Z.of_int (Decimal.Pos (Decimal.D1 (Nat.iter 4300 Decimal.D0 Decimal.Nil))).

(** The values the encoder writes by itself, without asking [default]. *)
Definition natively_encoded (o : value) : bool :=
  match o with
  | VStr _ | VNone | VBool _ | VInt _ | VFloat _ | VList _ | VTuple _ | VDict _ => true
  | VEllipsis | VUuid _ | VObj _ _ => false
  end.

(** The five capabilities of the specification, in their priority order,
    and the fallback written from its words: the string form of a UUID,
    else the first capability the value has, else the placeholder. *)
Definition capability_order : list string :=
  ["model_dump_json"; "to_json"; "json"; "to_dict"; "dict"].

Definition placeholder (type_name : string) : string :=
  ("<<non-serializable: " ++ type_name ++ ">>")%string.

Definition fallback_spec (o : value) : result value :=
  match o with
  | VUuid u => Ok (VStr (str_UUID u))
  | _ =>
      match List.find (hasattr o) capability_order with
      | Some name => call_method o name
      | None => Ok (VStr (placeholder (type_qualname o)))
      end
  end.

(** The entries the strip phase is to remove, in the words of the
    specification: the value is the null sentinel or the placeholder
    sentinel, or the key is ["self"]. *)
Definition stripped_entry (kv : string * value) : bool :=
  match snd kv with VNone => true | _ => false end
  || match snd kv with VEllipsis => true | _ => false end
  || String.eqb (fst kv) "self".

(** No mapping of [v], at any depth of nesting through mappings and
    sequences (lists and tuples), holds an entry to be stripped. *)
Fixpoint strip_free (v : value) : bool :=
  match v with
  | VDict items =>
      forallb (fun kv => negb (stripped_entry kv) && strip_free (snd kv)) items
  | VList xs | VTuple xs => forallb strip_free xs
  | _ => true
  end.

(** The same of the mappings reached through mappings and lists only:
    what is inside a tuple is not looked at. *)
Fixpoint strip_free_in_lists (v : value) : bool :=
  match v with
  | VDict items =>
      forallb (fun kv => negb (stripped_entry kv) && strip_free_in_lists (snd kv)) items
  | VList xs => forallb strip_free_in_lists xs
  | _ => true
  end.

(** What the fallback calls on an object with the attributes [attrs]:
    the entry of the first capability it has, in the order of the
    probes. *)
Definition chosen_capability {A} (attrs : list (string * A)) : option A :=
  match List.find (fun name => match lookup_attr name attrs with
                               | Some _ => true
                               | None => false
                               end) capability_order with
  | Some name => lookup_attr name attrs
  | None => None
  end.

(** The capability methods that are probed behave: every capability the
    fallback comes to call, on an object the encoder meets in [v] or in
    what such a call has returned, returns; and every int the encoder
    comes to write is within the digit limit.  The attributes the
    fallback does not call do not matter. *)
Fixpoint behaves (max_digits : N) (v : value) : bool :=
  match v with
  | VInt n => negb (exceeds_digit_limit max_digits n)
  | VList xs | VTuple xs => forallb (behaves max_digits) xs
  | VDict items => forallb (fun kv => behaves max_digits (snd kv)) items
  | VObj _ attrs =>
      match chosen_capability
              (map (fun a => (fst a, match snd a with
                                     | Ok x => behaves max_digits x
                                     | Raise _ => false
                                     end)) attrs) with
      | Some b => b
      | None => true
      end
  | _ => true
  end.

(** A decimal number without a zero in front of another digit. *)
Definition is_normal (u : Decimal.uint) : bool :=
  match u with
  | Decimal.Nil => false
  | Decimal.D0 Decimal.Nil => true
  | Decimal.D0 _ => false
  | _ => true
  end.

Definition has_digits (u : Decimal.uint) : bool :=
  match u with Decimal.Nil => false | _ => true end.

(** The literals [float.__repr__] writes: an integer part without a
    needless zero, a fraction or an exponent or both, each with a digit
    at least. *)
Definition repr_literal (lit : float_literal) : bool :=
  is_normal (fl_integer lit)
  && match fl_fraction lit with Some f => has_digits f | None => true end
  && match fl_exponent lit with
     | Some (Decimal.Pos d) | Some (Decimal.Neg d) => has_digits d
     | None => true
     end
  && match fl_fraction lit, fl_exponent lit with None, None => false | _, _ => true end.

(** A finite float, with a literal as [float.__repr__] writes them. *)
Definition finite_float (x : pyfloat) : bool :=
  match x with
  | FFinite lit => repr_literal lit
  | FNan | FInfinity | FNegInfinity => false
  end.

(** Every float the encoder comes to write for [v], in [v] or in what
    the capability called on an object of [v] returns, is finite. *)
Fixpoint floats_finite (v : value) : bool :=
  match v with
  | VFloat x => finite_float x
  | VList xs | VTuple xs => forallb floats_finite xs
  | VDict items => forallb (fun kv => floats_finite (snd kv)) items
  | VObj _ attrs =>
      match chosen_capability
              (map (fun a => (fst a, match snd a with
                                     | Ok x => floats_finite x
                                     | Raise _ => true
                                     end)) attrs) with
      | Some b => b
      | None => true
      end
  | _ => true
  end.

(** Every number of a document is finite. *)
Fixpoint finite_json (j : json) : bool :=
  match j with
  | JFloat x => finite_float x
  | JArr l => forallb finite_json l
  | JObj l => forallb (fun kv => finite_json (snd kv)) l
  | _ => true
  end.

(** Values composed only of primitives, sequences, mappings and UUIDs. *)
Fixpoint plain (v : value) : bool :=
  match v with
  | VNone | VBool _ | VInt _ | VFloat _ | VStr _ | VUuid _ => true
  | VList xs | VTuple xs => forallb plain xs
  | VDict items => forallb (fun kv => plain (snd kv)) items
  | VEllipsis | VObj _ _ => false
  end.

(** The text [json.dumps] writes for a document. *)
Definition text_of (j : json) : string := string_of_list_ascii (render j).

(** A character with which a number goes on: a digit, the decimal
    point or the letter of the exponent. *)
Definition continues_number (c : ascii) : bool :=
  is_digit c || Ascii.eqb c "." || Ascii.eqb c "e" || Ascii.eqb c "E".

(** A text that may follow a number: it does not go on with it. *)
Definition ends_number (rest : list ascii) : Prop :=
  match rest with
  | [] => True
  | c :: _ => continues_number c = false
  end.

(** A text that may follow a run of digits. *)
Definition ends_digits (rest : list ascii) : Prop :=
  match rest with
  | [] => True
  | c :: _ => is_digit c = false
  end.

(** The fuel that decoding the text of a document takes. *)
Fixpoint weight (j : json) : nat :=
  match j with
  | JArr l => S (fold_right (fun x n => S (Nat.max (weight x) n)) 0 l)
  | JObj l => S (fold_right (fun kv n => S (Nat.max (weight (snd kv)) n)) 0 l)
  | _ => 1
  end.

(** A document is decoded from its text, whatever follows the text,
    by every amount of fuel from its weight on. *)
Definition decodes (j : json) : Prop :=
  forall fuel rest,
    weight j <= fuel -> ends_number rest ->
    parse_value fuel (render j ++ rest) = Some (j, rest).

(** The text of one member of an object. *)
Definition render_member (kv : string * json) : list ascii :=
  render_string (fst kv) ++ list_ascii_of_string ": " ++ render (snd kv).

(** The allocator is ahead of every instance in the registry. *)
Definition registry_fresh (st : state) : Prop :=
  forall c i, ao_instances st !! c = Some i -> inst_addr i < next_addr st.

(** The states a program can be in: those a sequence of calls leads to
    from the state the module is loaded in. *)
Definition reachable (init : class -> list value -> list (string * value) -> result unit)
    (st : state) : Prop :=
  exists calls, st = exec_all init calls initial_state.

Definition no_clear (calls : list call) : bool :=
  forallb (fun c => negb (is_clear c)) calls.

(** A constructor that accepts every call. *)
Definition init_any (c : class) (args : list value) (kwargs : list (string * value))
  : result unit := Ok tt.

(** Two outcomes of a call that differ at most in the address of the
    instance returned. *)
Definition same_up_to_address (r1 r2 : result instance) : Prop :=
  match r1, r2 with
  | Ok i1, Ok i2 =>
      inst_class i1 = inst_class i2 /\ inst_args i1 = inst_args i2 /\
      inst_kwargs i1 = inst_kwargs i2
  | Raise e1, Raise e2 => e1 = e2
  | _, _ => False
  end.

(** A class for the examples. *)
Definition class_example : class := 1%positive.

(** A decimal number without a zero in front of another digit. *)
Definition normal (u : Decimal.uint) : Prop :=
  match u with
  | Decimal.Nil => False
  | Decimal.D0 Decimal.Nil => True
  | Decimal.D0 _ => False
  | _ => True
  end.

(** The first character of a value: not white space and not a closing
    bracket or brace. *)
Definition starts_value (c : ascii) : bool :=
  negb (is_ws c) && negb (Ascii.eqb c "]") && negb (Ascii.eqb c "}").

(** The mapping of the specification's example, with any object under
    the key ["self"]. *)
Definition stripped_keys_example (obj : value) : value :=
  VDict [("self", obj); ("a", VNone); ("b", VInt 1); ("c", VEllipsis)].

(** A local variable the scan of the call stack passes over: it is not
    the string ["__main__"], and it has no agent id or a false one. *)
Definition passed_over (var : value) : bool :=
  negb (eq_str var "__main__")
  && match hasattr_read var "agent_ops_agent_id" with
     | Ok false => true
     | Ok true =>
         match getattr var "agent_ops_agent_id" with
         | Ok id => negb (truthy id)
         | Raise _ => false
         end
     | Raise _ => false
     end.

(** No tuple in a value. *)
Fixpoint tuple_free (v : value) : bool :=
  match v with
  | VTuple _ => false
  | VList xs => forallb tuple_free xs
  | VDict items => forallb (fun kv => tuple_free (snd kv)) items
  | _ => true
  end.

(** The value [json.loads] builds for a document: an array is a list, an
    object a dict. *)
Fixpoint value_of_json (j : json) : value :=
  match j with
  | JNull => VNone
  | JBool b => VBool b
  | JNum n => VInt n
  | JFloat x => VFloat x
  | JStr s => VStr s
  | JArr l => VList (map value_of_json l)
  | JObj l => VDict (map (fun kv => (fst kv, value_of_json (snd kv))) l)
  end.

(** The keys of the items of a dict, in order. *)
Definition keys {A} (items : list (string * A)) : list string := map fst items.

(** A value with every UUID in it replaced by its string form, also in
    what the attributes of its objects return. *)
Fixpoint stringify_uuids (v : value) : value :=
  match v with
  | VUuid u => VStr (str_UUID u)
  | VList xs => VList (map stringify_uuids xs)
  | VTuple xs => VTuple (map stringify_uuids xs)
  | VDict items => VDict (map (fun kv => (fst kv, stringify_uuids (snd kv))) items)
  | VObj q attrs =>
      VObj q (map (fun a => (fst a, match snd a with
                                    | Ok x => Ok (stringify_uuids x)
                                    | Raise e => Raise e
                                    end)) attrs)
  | _ => v
  end.

(** A registry in order: each instance is filed under its own class, was
    allocated before now, and shares its address with no other entry. *)
Definition registry_ok (st : state) : Prop :=
  (forall c i, ao_instances st !! c = Some i ->
               inst_class i = c /\ inst_addr i < next_addr st) /\
  (forall c1 c2 i1 i2,
      ao_instances st !! c1 = Some i1 -> ao_instances st !! c2 = Some i2 ->
      inst_addr i1 = inst_addr i2 -> c1 = c2).

(** The keyword arguments other than [use_singleton]. *)
Definition without_use_singleton (kwargs : list (string * value)) : list (string * value) :=
  List.filter (fun kv => negb (String.eqb (fst kv) "use_singleton")) kwargs.

(** A constructor that accepts no argument but the empty list. *)
Definition init_no_args (c : class) (args : list value) (kwargs : list (string * value))
  : result unit :=
  match args with
  | [] => Ok tt
  | _ :: _ => Raise TypeError
  end.

(** Objects for the examples of the scan: an agent with an id and a
    name, and one without a name. *)
Definition agent_example (id : value) : value :=
  VObj "Agent" [("agent_ops_agent_id", Ok id); ("agent_ops_agent_name", Ok (VStr "planner"))].

Definition nameless_agent_example (id : value) : value :=
  VObj "Agent" [("agent_ops_agent_id", Ok id)].

(** A printable ASCII character: from the space to the tilde. *)
Definition printable_ascii (c : ascii) : bool :=
  ((32 <=? N_of_ascii c) && (N_of_ascii c <=? 126))%N.

(** * Properties *)

(** ** Fallible comprehensions *)

Lemma bind_Ok {A B} (m : result A) (k : A -> result B) (b : B) :
  bind m k = Ok b -> exists a, m = Ok a /\ k a = Ok b.
Proof. destruct m as [a|e]; simpl; [eauto | discriminate]. Qed.

Lemma traverse_Ok_Forall2 {A B} (f : A -> result B) (l : list A) (ys : list B) :
  traverse f l = Ok ys <-> Forall2 (fun x y => f x = Ok y) l ys.
Proof.
  revert ys. induction l as [|x l IH]; intros ys; simpl.
  - split.
    + intros [= <-]. constructor.
    + intros H. inversion H. reflexivity.
  - split.
    + intros H. apply bind_Ok in H as (y & Hy & H).
      apply bind_Ok in H as (ys' & Hys & [= <-]).
      constructor; [exact Hy | apply IH, Hys].
    + intros H. inversion H as [|? y ? ys' Hy Hys]; subst.
      rewrite Hy. simpl. apply IH in Hys. rewrite Hys. reflexivity.
Qed.

Lemma traverse_returns {A B} (f : A -> result B) (l : list A) :
  Forall (fun x => returns (f x)) l -> returns (traverse f l).
Proof.
  induction 1 as [|x l [y Hy] _ [ys Hys]]; simpl.
  - exists []. reflexivity.
  - exists (y :: ys). rewrite Hy, Hys. reflexivity.
Qed.

Lemma traverse_fixed {A} (f : A -> result A) (l : list A) :
  Forall (fun x => f x = Ok x) l -> traverse f l = Ok l.
Proof.
  induction 1 as [|x l Hx _ IH]; simpl; [reflexivity|].
  rewrite Hx, IH. reflexivity.
Qed.

Lemma traverse_length {A B} (f : A -> result B) (l : list A) (ys : list B) :
  traverse f l = Ok ys -> length ys = length l.
Proof.
  intros H. apply traverse_Ok_Forall2 in H.
  symmetry. eapply Forall2_length, H.
Qed.

(** When each element either is encoded and satisfies [p] and [q], or
    raises [e1] and fails [p], or raises [e2] and fails [q], so does the
    whole comprehension. *)
Lemma traverse_decides {A B} (f : A -> result B) (p q : A -> bool) (e1 e2 : exn)
    (l : list A) :
  Forall (fun x => match f x with
                   | Ok _ => p x = true /\ q x = true
                   | Raise e => (e = e1 /\ p x = false) \/ (e = e2 /\ q x = false)
                   end) l ->
  match traverse f l with
  | Ok _ => forallb p l = true /\ forallb q l = true
  | Raise e => (e = e1 /\ forallb p l = false) \/ (e = e2 /\ forallb q l = false)
  end.
Proof.
  induction 1 as [|x l Hx _ IH]; simpl; [split; reflexivity|].
  destruct (f x) as [y|e]; simpl.
  - destruct Hx as [-> ->]. simpl. destruct (traverse f l); simpl; exact IH.
  - destruct Hx as [[-> ->] | [-> ->]]; [left | right]; split; reflexivity.
Qed.

(** When each element either returns something that satisfies [p], or
    raises [e0] and fails [q], so does the whole comprehension. *)
Lemma traverse_result {A B} (f : A -> result B) (p : B -> bool) (q : A -> bool)
    (e0 : exn) (l : list A) :
  Forall (fun x => match f x with
                   | Ok y => p y = true
                   | Raise e => e = e0 /\ q x = false
                   end) l ->
  match traverse f l with
  | Ok ys => forallb p ys = true
  | Raise e => e = e0 /\ forallb q l = false
  end.
Proof.
  induction 1 as [|x l Hx _ IH]; simpl; [reflexivity|].
  destruct (f x) as [y|e]; simpl.
  - destruct (traverse f l) as [ys|e]; simpl.
    + rewrite Hx, IH. reflexivity.
    + destruct IH as [-> ->]. rewrite andb_false_r. split; reflexivity.
  - destruct Hx as [-> ->]. split; reflexivity.
Qed.

Lemma list_max_map_ge {A} (f : A -> nat) (l : list A) (x : A) :
  In x l -> f x <= list_max (map f l).
Proof.
  induction l as [|y l IH]; simpl; [tauto|].
  intros [-> | H]; [lia | specialize (IH H); lia].
Qed.

Lemma forallb_andb {A} (p q : A -> bool) (l : list A) :
  forallb (fun x => p x && q x) l = forallb p l && forallb q l.
Proof.
  induction l as [|x l IH]; simpl; [reflexivity|].
  rewrite IH. destruct (p x), (q x), (forallb p l); reflexivity.
Qed.

Lemma forallb_ext_in {A} (p q : A -> bool) (l : list A) :
  (forall x, In x l -> p x = q x) -> forallb p l = forallb q l.
Proof.
  induction l as [|x l IH]; intros H; simpl; [reflexivity|].
  rewrite (H x (or_introl eq_refl)), IH; [reflexivity|].
  intros y Hy. apply H. right. exact Hy.
Qed.

(** ** The digit limit *)

(** Without a limit every int is written. *)
Lemma exceeds_digit_limit_unlimited (n : Z) : exceeds_digit_limit 0 n = false.
Proof. reflexivity. Qed.

Lemma ints_within_unlimited (v : value) : ints_within 0 v = true.
Proof.
  induction v as [| |b|n|x|s|u|xs IH|xs IH|items IH|q attrs IH] using value_nested_ind;
    try reflexivity; simpl; apply forallb_forall; rewrite List.Forall_forall in IH;
    intros y Hy; apply IH, Hy.
Qed.

(** An int of one digit is within every limit. *)
Lemma one_digit_within (max_digits : N) (n : Z) :
  num_digits n = 1 -> exceeds_digit_limit max_digits n = false.
Proof.
  intros Hn. unfold exceeds_digit_limit. rewrite Hn.
  destruct max_digits as [|p]; [reflexivity|]. destruct p; reflexivity.
Qed.

(** The number of digits of an int given by its decimal digits. *)
Lemma num_digits_D1 (u : Decimal.uint) :
  num_digits (Z.of_int (Decimal.Pos (Decimal.D1 u))) = S (Decimal.nb_digits u).
Proof.
  unfold num_digits. rewrite DecimalZ.to_of. reflexivity.
Qed.

Lemma nb_digits_zeros (k : nat) : Decimal.nb_digits (Nat.iter k Decimal.D0 Decimal.Nil) = k.
Proof.
  induction k as [|k IH]; [reflexivity|]. simpl. rewrite IH. reflexivity.
Qed.

(** The example int is written with 4301 digits. *)
Example big_int_example_digits :
  Z.to_int big_int_example
  = Decimal.Pos (Decimal.D1 (Nat.iter 4300 Decimal.D0 Decimal.Nil)) /\
  num_digits big_int_example = 4301.
Proof.
  unfold big_int_example. split.
  - rewrite DecimalZ.to_of. reflexivity.
  - rewrite num_digits_D1, nb_digits_zeros. reflexivity.
Qed.

Lemma big_int_example_exceeds :
  exceeds_digit_limit default_max_str_digits big_int_example = true.
Proof.
  unfold exceeds_digit_limit, big_int_example.
  rewrite num_digits_D1, nb_digits_zeros. reflexivity.
Qed.

(** ** [json.dumps(x)] succeeds exactly on sanitized values within the limit *)

Lemma encodable_VList (max_digits : N) (xs : list value) :
  encodable max_digits (VList xs) = forallb (encodable max_digits) xs.
Proof. unfold encodable. simpl. symmetry. apply forallb_andb. Qed.

Lemma encodable_VTuple (max_digits : N) (xs : list value) :
  encodable max_digits (VTuple xs) = forallb (encodable max_digits) xs.
Proof. unfold encodable. simpl. symmetry. apply forallb_andb. Qed.

Lemma encodable_VDict (max_digits : N) (items : list (string * value)) :
  encodable max_digits (VDict items)
  = forallb (fun kv => encodable max_digits (snd kv)) items.
Proof.
  unfold encodable. simpl. symmetry.
  apply (forallb_andb (fun kv => sanitized (snd kv))
           (fun kv => ints_within max_digits (snd kv))).
Qed.

Lemma iterencode_native (max_digits : N) (v : value) :
  forall fuel, height v < fuel ->
  match iterencode max_digits JSONEncoder_default fuel v with
  | Ok _ => sanitized v = true /\ ints_within max_digits v = true
  | Raise e => (e = TypeError /\ sanitized v = false)
               \/ (e = ValueError /\ ints_within max_digits v = false)
  end.
Proof.
  induction v as [| |b|n|x|s|u|xs IH|xs IH|items IH|q attrs IH] using value_nested_ind;
    intros [|fuel] Hfuel; try lia; cbn [iterencode JSONEncoder_default bind];
    try (split; reflexivity); try (left; split; reflexivity).
  - cbn [ints_within sanitized].
    destruct (exceeds_digit_limit max_digits n); [right | idtac]; split; reflexivity.
  - pose proof (traverse_decides (iterencode max_digits JSONEncoder_default fuel)
                  sanitized (ints_within max_digits) TypeError ValueError xs) as H.
    cbn [sanitized ints_within].
    destruct (traverse _ xs); cbn [bind]; apply H;
      (apply List.Forall_forall; intros y Hy;
       rewrite List.Forall_forall in IH; apply (IH y Hy);
       pose proof (list_max_map_ge height xs y Hy); simpl in Hfuel; lia).
  - pose proof (traverse_decides (iterencode max_digits JSONEncoder_default fuel)
                  sanitized (ints_within max_digits) TypeError ValueError xs) as H.
    cbn [sanitized ints_within].
    destruct (traverse _ xs); cbn [bind]; apply H;
      (apply List.Forall_forall; intros y Hy;
       rewrite List.Forall_forall in IH; apply (IH y Hy);
       pose proof (list_max_map_ge height xs y Hy); simpl in Hfuel; lia).
  - pose proof (traverse_decides
                  (fun kv => j <- iterencode max_digits JSONEncoder_default fuel (snd kv) ;;
                             Ok (fst kv, j))
                  (fun kv => sanitized (snd kv)) (fun kv => ints_within max_digits (snd kv))
                  TypeError ValueError items) as H.
    cbn [sanitized ints_within].
    destruct (traverse _ items); cbn [bind]; apply H;
      (apply List.Forall_forall; intros kv Hkv;
       rewrite List.Forall_forall in IH; specialize (IH kv Hkv fuel);
       pose proof (list_max_map_ge (fun kv => height (snd kv)) items kv Hkv);
       simpl in Hfuel;
       destruct (iterencode max_digits JSONEncoder_default fuel (snd kv)); cbn [bind];
       apply IH; lia).
Qed.

(** The probe says yes exactly of the values [json.dumps] encodes, says
    no when the encoder meets a value it does not know, and lets through
    the [ValueError] of an int beyond the digit limit. *)
Lemma is_jsonable_cases (max_digits : N) (x : value) :
  match is_jsonable max_digits x with
  | Ok true => encodable max_digits x = true
  | Ok false => sanitized x = false
  | Raise e => e = ValueError /\ ints_within max_digits x = false
  end.
Proof.
  unfold is_jsonable, json_dumps, encodable.
  pose proof (iterencode_native max_digits x (S (height x)) (Nat.lt_succ_diag_r _)) as H.
  destruct (iterencode max_digits JSONEncoder_default (S (height x)) x) as [j|e];
    cbn [bind].
  - destruct H as [-> ->]. reflexivity.
  - destruct H as [[-> H] | [-> H]]; [exact H | split; [reflexivity | exact H]].
Qed.

Lemma is_jsonable_encodable (max_digits : N) (x : value) :
  encodable max_digits x = true -> is_jsonable max_digits x = Ok true.
Proof.
  intros Hx. pose proof (is_jsonable_cases max_digits x) as H.
  unfold encodable in Hx. apply andb_prop in Hx as [Hs Hi].
  destruct (is_jsonable max_digits x) as [[|]|e]; [reflexivity | congruence |].
  destruct H as [_ H]. congruence.
Qed.

(** When no int is beyond the limit, the probe does not raise, and says
    whether its argument is sanitized. *)
Lemma is_jsonable_sanitized (max_digits : N) (x : value) :
  ints_within max_digits x = true -> is_jsonable max_digits x = Ok (sanitized x).
Proof.
  intros Hi. pose proof (is_jsonable_cases max_digits x) as H.
  destruct (is_jsonable max_digits x) as [[|]|e].
  - unfold encodable in H. apply andb_prop in H as [-> _]. reflexivity.
  - rewrite H. reflexivity.
  - destruct H as [_ H]. congruence.
Qed.

Lemma json_dumps_encodable (max_digits : N) (v : value) :
  encodable max_digits v = true -> returns (json_dumps max_digits JSONEncoder_default v).
Proof.
  intros Hv. pose proof (is_jsonable_encodable max_digits v Hv) as H.
  unfold is_jsonable in H.
  destruct (json_dumps max_digits JSONEncoder_default v) as [t|e]; [exists t; reflexivity|].
  destruct e; discriminate H.
Qed.

Lemma json_dumps_returns_encodable (max_digits : N) (v : value) :
  returns (json_dumps max_digits JSONEncoder_default v) -> encodable max_digits v = true.
Proof.
  intros [text Htext]. pose proof (is_jsonable_cases max_digits v) as H.
  unfold is_jsonable in H. rewrite Htext in H. exact H.
Qed.

(** An int beyond the limit makes the probe raise, alone or after
    values that are encoded. *)
Lemma is_jsonable_exceeds (max_digits : N) (n : Z) :
  exceeds_digit_limit max_digits n = true ->
  is_jsonable max_digits (VInt n) = Raise ValueError.
Proof.
  intros Hn. unfold is_jsonable, json_dumps. cbn [height iterencode]. rewrite Hn. reflexivity.
Qed.

(** ** The sanitizer *)

Lemma filter_dict_VList (max_digits : N) (xs : list value) :
  filter_dict max_digits (VList xs)
  = (xs' <- traverse (filter_item max_digits) xs ;; Ok (VList xs')).
Proof. reflexivity. Qed.

Lemma filter_dict_VDict (max_digits : N) (items : list (string * value)) :
  filter_dict max_digits (VDict items) =
  (items' <- traverse (fun kv => v' <- filter_item max_digits (snd kv) ;; Ok (fst kv, v'))
               items ;;
   Ok (VDict items')).
Proof.
  simpl. f_equal.
  induction items as [|[k v] items IH]; simpl; [reflexivity|].
  rewrite IH. unfold filter_item.
  destruct (if isinstance_dict v || isinstance_list v then Ok true
            else is_jsonable max_digits v)
    as [[|]|e]; reflexivity.
Qed.

Lemma filter_dict_leaf (max_digits : N) (v : value) :
  isinstance_dict v || isinstance_list v = false ->
  filter_dict max_digits v =
  (jsonable <- is_jsonable max_digits v ;;
   Ok (if (jsonable : bool) || isinstance_UUID v then v else VStr EmptyString)).
Proof.
  intros Hleaf. destruct v; try discriminate Hleaf; reflexivity.
Qed.

Lemma filter_dict_UUID (max_digits : N) (u : UUID) :
  filter_dict max_digits (VUuid u) = Ok (VUuid u).
Proof. reflexivity. Qed.

(** A value [json.dumps] encodes goes through the sanitizer unchanged. *)
Lemma filter_dict_fixed (max_digits : N) (v : value) :
  encodable max_digits v = true -> filter_dict max_digits v = Ok v.
Proof.
  induction v as [| |b|n|x|s|u|xs IH|xs IH|items IH|q attrs IH] using value_nested_ind;
    intros Hv;
    try (rewrite filter_dict_leaf by reflexivity;
         rewrite (is_jsonable_encodable _ _ Hv); reflexivity).
  - rewrite filter_dict_VList. rewrite traverse_fixed; [reflexivity|].
    rewrite encodable_VList, forallb_forall in Hv.
    rewrite List.Forall_forall in IH |- *. intros y Hy.
    unfold filter_item. rewrite (is_jsonable_encodable _ _ (Hv y Hy)).
    destruct (isinstance_dict y || isinstance_list y); cbn [bind]; apply (IH y Hy), Hv, Hy.
  - rewrite filter_dict_VDict. rewrite traverse_fixed; [reflexivity|].
    rewrite encodable_VDict, forallb_forall in Hv.
    rewrite List.Forall_forall in IH |- *. intros [k y] Hy.
    specialize (Hv _ Hy). specialize (IH _ Hy). cbn [fst snd] in *.
    unfold filter_item. rewrite (is_jsonable_encodable _ _ Hv).
    destruct (isinstance_dict y || isinstance_list y); cbn [bind]; rewrite (IH Hv);
      reflexivity.
Qed.

Lemma filter_dict_leaf_outcome (max_digits : N) (v : value) :
  isinstance_dict v || isinstance_list v = false ->
  filter_outcome max_digits v (filter_dict max_digits v).
Proof.
  intros Hleaf. rewrite (filter_dict_leaf _ _ Hleaf).
  pose proof (is_jsonable_cases max_digits v) as H.
  destruct (is_jsonable max_digits v) as [[|]|e]; cbn [bind filter_outcome orb].
  - intros _. exact H.
  - intros ->. reflexivity.
  - exact H.
Qed.

(** What the sanitizer puts in place of a value held in a list or dict
    is encoded by [json.dumps]. *)
Lemma filter_item_outcome (max_digits : N) (v : value) :
  filter_outcome max_digits v (filter_dict max_digits v) ->
  match filter_item max_digits v with
  | Ok r => encodable max_digits r = true
  | Raise e => e = ValueError /\ ints_within max_digits v = false
  end.
Proof.
  intros Hv. unfold filter_item.
  destruct (isinstance_dict v || isinstance_list v) eqn:Hc; cbn [bind].
  - destruct (filter_dict max_digits v) as [r|e]; [|exact Hv].
    apply Hv. destruct v; try discriminate Hc; reflexivity.
  - pose proof (is_jsonable_cases max_digits v) as H.
    destruct (is_jsonable max_digits v) as [[|]|e]; cbn [bind].
    + rewrite (filter_dict_fixed _ _ H). exact H.
    + destruct v; reflexivity.
    + exact H.
Qed.

Lemma filter_dict_outcome (max_digits : N) (v : value) :
  filter_outcome max_digits v (filter_dict max_digits v).
Proof.
  induction v as [| |b|n|x|s|u|xs IH|xs IH|items IH|q attrs IH] using value_nested_ind;
    try (apply filter_dict_leaf_outcome; reflexivity).
  - rewrite filter_dict_VList.
    pose proof (traverse_result (filter_item max_digits) (encodable max_digits)
                  (ints_within max_digits) ValueError xs) as H.
    destruct (traverse (filter_item max_digits) xs) as [xs'|e]; cbn [bind filter_outcome].
    + intros _. rewrite encodable_VList. apply H.
      eapply Forall_impl; [exact IH|]. intros y Hy. apply filter_item_outcome, Hy.
    + apply H. eapply Forall_impl; [exact IH|]. intros y Hy. apply filter_item_outcome, Hy.
  - rewrite filter_dict_VDict.
    pose proof (traverse_result
                  (fun kv => v' <- filter_item max_digits (snd kv) ;; Ok (fst kv, v'))
                  (fun kv => encodable max_digits (snd kv))
                  (fun kv => ints_within max_digits (snd kv)) ValueError items) as H.
    assert (Hall : Forall (fun kv =>
                             match (v' <- filter_item max_digits (snd kv) ;; Ok (fst kv, v')) with
                             | Ok y => encodable max_digits (snd y) = true
                             | Raise e => e = ValueError
                                          /\ ints_within max_digits (snd kv) = false
                             end) items).
    { eapply Forall_impl; [exact IH|]. intros [k y] Hy. cbn [fst snd] in *.
      apply filter_item_outcome in Hy.
      destruct (filter_item max_digits y); cbn [bind snd]; exact Hy. }
    destruct (traverse _ items) as [items'|e]; cbn [bind filter_outcome].
    + intros _. rewrite encodable_VDict. apply H, Hall.
    + apply H, Hall.
Qed.

(** When no int of the input is beyond the limit the sanitizer returns. *)
Lemma filter_dict_returns (max_digits : N) (v : value) :
  ints_within max_digits v = true -> returns (filter_dict max_digits v).
Proof.
  intros Hv. pose proof (filter_dict_outcome max_digits v) as H.
  destruct (filter_dict max_digits v) as [r|e]; [exists r; reflexivity|].
  destruct H as [_ H]. congruence.
Qed.

(** What the sanitizer has returned it returns unchanged. *)
Lemma filter_dict_again (max_digits : N) (v r : value) :
  filter_dict max_digits v = Ok r -> filter_dict max_digits r = Ok r.
Proof.
  intros Hr. pose proof (filter_dict_outcome max_digits v) as H. rewrite Hr in H.
  destruct (isinstance_UUID v) eqn:Hu.
  - destruct v; try discriminate Hu. rewrite filter_dict_UUID in Hr.
    injection Hr as <-. reflexivity.
  - apply filter_dict_fixed, H. exact Hu.
Qed.

Example str_UUID_example :
  str_UUID uuid_example = "5fda42fe-809b-4179-bad2-321d1a6090c7".
Proof. reflexivity. Qed.

Example filter_unjsonable_primitives :
  map (filter_unjsonable default_max_str_digits)
    [VNone; VBool true; VInt (-3); VStr "text";
     VFloat (FFinite {| fl_negative := false; fl_integer := Decimal.D1 Decimal.Nil;
                        fl_fraction := Some (Decimal.D5 Decimal.Nil);
                        fl_exponent := None |});
     VFloat FNan]
  = [Ok VNone; Ok (VBool true); Ok (VInt (-3)); Ok (VStr "text");
     Ok (VFloat (FFinite {| fl_negative := false; fl_integer := Decimal.D1 Decimal.Nil;
                            fl_fraction := Some (Decimal.D5 Decimal.Nil);
                            fl_exponent := None |}));
     Ok (VFloat FNan)].
Proof. reflexivity. Qed.

Example filter_unjsonable_nested :
  filter_unjsonable default_max_str_digits
    (VDict [("id", VUuid uuid_example);
            ("client", VObj "Client" []);
            ("tags", VList [VStr "a"; VEllipsis; VTuple [VInt 1; VNone];
                            VTuple [VUuid uuid_example]])])
  = Ok (VDict [("id", VStr "5fda42fe-809b-4179-bad2-321d1a6090c7");
               ("client", VStr EmptyString);
               ("tags", VList [VStr "a"; VStr EmptyString; VTuple [VInt 1; VNone];
                               VStr EmptyString])]).
Proof. reflexivity. Qed.

(** An int beyond the digit limit in a list, after an element that is
    encoded, makes the sanitizer raise. *)
Lemma filter_dict_exceeds (max_digits : N) (n : Z) :
  exceeds_digit_limit max_digits n = true ->
  filter_dict max_digits (VInt n) = Raise ValueError /\
  filter_dict max_digits (VList [VInt 1; VInt n]) = Raise ValueError.
Proof.
  intros Hn. split.
  - rewrite filter_dict_leaf by reflexivity. rewrite (is_jsonable_exceeds _ _ Hn).
    reflexivity.
  - rewrite filter_dict_VList. cbn [traverse]. unfold filter_item at 1.
    cbn [isinstance_dict isinstance_list orb].
    assert (H1 : encodable max_digits (VInt 1) = true).
    { unfold encodable. cbn [sanitized ints_within andb].
      rewrite one_digit_within; reflexivity. }
    rewrite (is_jsonable_encodable _ _ H1). cbn [bind].
    rewrite (filter_dict_fixed _ _ H1). cbn [bind].
    unfold filter_item. cbn [isinstance_dict isinstance_list orb].
    rewrite (is_jsonable_exceeds _ _ Hn). reflexivity.
Qed.

(** C1, as the specification states it, fails twice.  A UUID given as
    the whole input comes back as the UUID, which is not a Sanitized
    Value and which [json.dumps] rejects.  And the function raises: on
    the list of the ints 1 and [10 ** 4300], under the default limit of
    4300 digits, the [ValueError] of [json.dumps], which [is_jsonable]
    does not catch. *)
Lemma filter_unjsonable_uuid_not_sanitized :
  filter_unjsonable default_max_str_digits (VUuid uuid_example) = Ok (VUuid uuid_example) /\
  sanitized (VUuid uuid_example) = false /\
  json_dumps default_max_str_digits JSONEncoder_default (VUuid uuid_example)
  = Raise TypeError /\
  ~ (forall v, exists r, filter_unjsonable default_max_str_digits v = Ok r
                         /\ sanitized r = true) /\
  filter_unjsonable default_max_str_digits (VList [VInt 1; VInt big_int_example])
  = Raise ValueError /\
  filter_unjsonable default_max_str_digits (VInt big_int_example) = Raise ValueError.
Proof.
  split; [reflexivity|]. split; [reflexivity|]. split; [reflexivity|]. split.
  - intros H. destruct (H (VUuid uuid_example)) as (r & Hr & Hs).
    unfold filter_unjsonable in Hr. rewrite filter_dict_UUID in Hr.
    injection Hr as <-. discriminate Hs.
  - unfold filter_unjsonable.
    destruct (filter_dict_exceeds _ _ big_int_example_exceeds) as [H1 H2].
    split; assumption.
Qed.

(** C1 (amended): on every input other than a UUID given as the whole
    input, what [filter_unjsonable] returns is a Sanitized Value, which
    [json.dumps] encodes without error; such a UUID is returned as it is.
    The function returns whenever no int of the input (in its lists,
    tuples and dicts, at any depth) has more digits than the
    interpreter's limit on the conversion of ints to strings; the one
    exception it can raise is the [ValueError] of [json.dumps] for such
    an int. *)
Theorem filter_unjsonable_contract (max_digits : N) (v : value) :
  (ints_within max_digits v = true -> returns (filter_unjsonable max_digits v)) /\
  (forall r, filter_unjsonable max_digits v = Ok r ->
     match v with
     | VUuid _ => r = v
     | _ => sanitized r = true /\ ints_within max_digits r = true /\
            returns (json_dumps max_digits JSONEncoder_default r)
     end) /\
  (forall e, filter_unjsonable max_digits v = Raise e ->
     e = ValueError /\ ints_within max_digits v = false).
Proof.
  unfold filter_unjsonable. split; [apply filter_dict_returns|].
  pose proof (filter_dict_outcome max_digits v) as H. split.
  - intros r Hr. rewrite Hr in H. cbn [filter_outcome] in H.
    assert (Henc : isinstance_UUID v = false ->
                   sanitized r = true /\ ints_within max_digits r = true /\
                   returns (json_dumps max_digits JSONEncoder_default r)).
    { intros Hu. specialize (H Hu). pose proof (json_dumps_encodable _ _ H) as Hret.
      unfold encodable in H. apply andb_prop in H as [Hs Hi]. auto. }
    destruct v; try (apply Henc; reflexivity).
    rewrite filter_dict_UUID in Hr. congruence.
  - intros e He. rewrite He in H. exact H.
Qed.

Lemma filter_unjsonable_contract_witness :
  returns (filter_unjsonable default_max_str_digits
             (VList [VInt 12; VEllipsis; VUuid uuid_example])) /\
  (sanitized (VList [VInt 12; VStr EmptyString; VStr (str_UUID uuid_example)]) = true /\
   ints_within default_max_str_digits
     (VList [VInt 12; VStr EmptyString; VStr (str_UUID uuid_example)]) = true /\
   returns (json_dumps default_max_str_digits JSONEncoder_default
              (VList [VInt 12; VStr EmptyString; VStr (str_UUID uuid_example)]))).
Proof.
  destruct (filter_unjsonable_contract default_max_str_digits
              (VList [VInt 12; VEllipsis; VUuid uuid_example])) as (Hret & Hok & _).
  split.
  - apply Hret. reflexivity.
  - apply (Hok (VList [VInt 12; VStr EmptyString; VStr (str_UUID uuid_example)])).
    reflexivity.
Defined.

(** C6: [filter_unjsonable] is idempotent: applying it to what it has
    returned returns the same, so that the outcome of applying it twice
    is the outcome of applying it once, also when that is an exception;
    and it returns whenever no int of the input is beyond the digit
    limit, so on every input when there is no limit. *)
Theorem filter_unjsonable_idempotent (max_digits : N) (s : value) :
  (r <- filter_unjsonable max_digits s ;; filter_unjsonable max_digits r)
  = filter_unjsonable max_digits s /\
  (ints_within max_digits s = true ->
   exists r, filter_unjsonable max_digits s = Ok r /\ filter_unjsonable max_digits r = Ok r) /\
  (exists r, filter_unjsonable 0 s = Ok r /\ filter_unjsonable 0 r = Ok r).
Proof.
  unfold filter_unjsonable.
  assert (Hret : forall m, ints_within m s = true ->
                           exists r, filter_dict m s = Ok r /\ filter_dict m r = Ok r).
  { intros m Hs. destruct (filter_dict_returns m s Hs) as [r Hr].
    exists r. split; [exact Hr | eapply filter_dict_again, Hr]. }
  split; [|split].
  - destruct (filter_dict max_digits s) as [r|e] eqn:Hr; cbn [bind]; [|reflexivity].
    eapply filter_dict_again, Hr.
  - apply Hret.
  - apply Hret, ints_within_unlimited.
Qed.

Lemma filter_unjsonable_idempotent_witness :
  exists r,
    filter_unjsonable default_max_str_digits (VList [VUuid uuid_example; VObj "Lock" []])
    = Ok r /\
    filter_unjsonable default_max_str_digits r = Ok r.
Proof.
  destruct (filter_unjsonable_idempotent default_max_str_digits
              (VList [VUuid uuid_example; VObj "Lock" []])) as (_ & H & _).
  apply H. reflexivity.
Defined.

Lemma traverse_app {A B} (f : A -> result B) (l1 l2 : list A) :
  traverse f (l1 ++ l2) =
  (ys1 <- traverse f l1 ;; ys2 <- traverse f l2 ;; Ok (ys1 ++ ys2)).
Proof.
  induction l1 as [|x l1 IH]; simpl.
  - destruct (traverse f l2); reflexivity.
  - destruct (f x) as [y|e]; simpl; [|reflexivity].
    rewrite IH. destruct (traverse f l1) as [ys1|e]; simpl; [|reflexivity].
    destruct (traverse f l2); reflexivity.
Qed.







(** ** The serializer: the fallback *)

Lemma default_fallback (o : value) : default o = fallback_spec o.
Proof.
  unfold default, fallback_spec. destruct o; try reflexivity.
  simpl.
  destruct (lookup_attr "model_dump_json" attrs) eqn:E1; simpl; [rewrite E1; reflexivity|].
  destruct (lookup_attr "to_json" attrs) eqn:E2; simpl; [rewrite E2; reflexivity|].
  destruct (lookup_attr "json" attrs) eqn:E3; simpl; [rewrite E3; reflexivity|].
  destruct (lookup_attr "to_dict" attrs) eqn:E4; simpl; [rewrite E4; reflexivity|].
  destruct (lookup_attr "dict" attrs) eqn:E5; simpl; [rewrite E5; reflexivity|].
  reflexivity.
Qed.

(** The fallback answers for an object with what the chosen capability
    yields. *)
Lemma default_chosen (q : string) (attrs : list (string * result value)) :
  default (VObj q attrs)
  = match chosen_capability attrs with
    | Some r => r
    | None => Ok (VStr (placeholder q))
    end.
Proof.
  unfold default, hasattr, call_method, chosen_capability, capability_order.
  cbn [List.find].
  destruct (lookup_attr "model_dump_json" attrs) eqn:E1; [rewrite E1; reflexivity|].
  destruct (lookup_attr "to_json" attrs) eqn:E2; [rewrite E2; reflexivity|].
  destruct (lookup_attr "json" attrs) eqn:E3; [rewrite E3; reflexivity|].
  destruct (lookup_attr "to_dict" attrs) eqn:E4; [rewrite E4; reflexivity|].
  destruct (lookup_attr "dict" attrs) eqn:E5; [rewrite E5; reflexivity|].
  reflexivity.
Qed.

Lemma lookup_attr_map {A B} (g : A -> B) (name : string) (attrs : list (string * A)) :
  lookup_attr name (map (fun a => (fst a, g (snd a))) attrs)
  = option_map g (lookup_attr name attrs).
Proof.
  induction attrs as [|[k r] attrs IH]; [reflexivity|].
  simpl. destruct (String.eqb k name); [reflexivity | exact IH].
Qed.

Lemma chosen_capability_map {A B} (g : A -> B) (attrs : list (string * A)) :
  chosen_capability (map (fun a => (fst a, g (snd a))) attrs)
  = option_map g (chosen_capability attrs).
Proof.
  unfold chosen_capability, capability_order. cbn [List.find].
  rewrite !lookup_attr_map.
  destruct (lookup_attr "model_dump_json" attrs) eqn:E1; cbn [option_map];
    [rewrite lookup_attr_map, E1; reflexivity|].
  destruct (lookup_attr "to_json" attrs) eqn:E2; cbn [option_map];
    [rewrite lookup_attr_map, E2; reflexivity|].
  destruct (lookup_attr "json" attrs) eqn:E3; cbn [option_map];
    [rewrite lookup_attr_map, E3; reflexivity|].
  destruct (lookup_attr "to_dict" attrs) eqn:E4; cbn [option_map];
    [rewrite lookup_attr_map, E4; reflexivity|].
  destruct (lookup_attr "dict" attrs) eqn:E5; cbn [option_map];
    [rewrite lookup_attr_map, E5; reflexivity|].
  reflexivity.
Qed.

(** C4: the fallback of [safe_serialize] is the one the specification
    describes, the encoder hands it every value it does not write itself
    and encodes its answer, an object with both [to_dict] and [dict] (and
    none of the three capabilities before them) is answered by [to_dict],
    and an object without any of the five by the placeholder naming its
    type. *)
Theorem default_probe_order (o : value) :
  default o = fallback_spec o /\
  (forall max_digits fuel, natively_encoded o = false ->
     iterencode max_digits default (S fuel) o
     = (o' <- default o ;; iterencode max_digits default fuel o')) /\
  (forall u, default (VUuid u) = Ok (VStr (str_UUID u))) /\
  (forall q attrs r,
     lookup_attr "model_dump_json" attrs = None ->
     lookup_attr "to_json" attrs = None ->
     lookup_attr "json" attrs = None ->
     lookup_attr "to_dict" attrs = Some r ->
     default (VObj q attrs) = r) /\
  (forall q attrs,
     Forall (fun name => lookup_attr name attrs = None) capability_order ->
     default (VObj q attrs) = Ok (VStr (placeholder q))).
Proof.
  split; [apply default_fallback|]. repeat split.
  - intros max_digits fuel Hn. destruct o; try discriminate Hn; reflexivity.
  - intros q attrs r H1 H2 H3 H4. unfold default, hasattr, call_method.
    rewrite H1, H2, H3, H4. reflexivity.
  - intros q attrs H. unfold default, hasattr, call_method.
    repeat (apply Forall_cons_1 in H as [-> H]). reflexivity.
Qed.

Example safe_serialize_to_dict_before_dict :
  safe_serialize default_max_str_digits
    (VObj "Point" [("dict", Ok (VDict [("via", VStr "dict")]));
                   ("to_dict", Ok (VDict [("via", VStr "to_dict")]))])
  = Ok (text_of (JObj [("via", JStr "to_dict")])).
Proof. reflexivity. Qed.

Example safe_serialize_placeholder :
  safe_serialize default_max_str_digits (VList [VObj "MyClassName" []])
  = Ok (text_of (JArr [JStr "<<non-serializable: MyClassName>>"])).
Proof. reflexivity. Qed.

Lemma default_probe_order_witness :
  default (VObj "Point" [("dict", Ok (VInt 2)); ("to_dict", Ok (VInt 1))]) = Ok (VInt 1) /\
  default (VObj "Outer.Inner" []) = Ok (VStr "<<non-serializable: Outer.Inner>>") /\
  iterencode default_max_str_digits default 2 VEllipsis
  = Ok (JStr "<<non-serializable: ellipsis>>").
Proof.
  pose proof (default_probe_order VEllipsis) as (_ & Henc & _ & Hto & Hnone).
  split; [|split].
  - apply Hto; reflexivity.
  - apply Hnone. repeat constructor.
  - rewrite Henc; reflexivity.
Defined.

(** ** The serializer: the strip phase *)

Lemma wanted_stripped (kv : string * value) : wanted kv = negb (stripped_entry kv).
Proof.
  destruct kv as [k v]. unfold wanted, stripped_entry. simpl.
  destruct v; reflexivity.
Qed.

Lemma comprehension_filter_map {A B} (cond : A -> bool) (body : A -> B) (l : list A) :
  comprehension cond body l = map body (List.filter cond l).
Proof.
  unfold comprehension. induction l as [|x l IH]; simpl; [reflexivity|].
  rewrite IH. destruct (cond x); reflexivity.
Qed.

Lemma remove_unwanted_items_VDict (items : list (string * value)) :
  remove_unwanted_items (VDict items) =
  VDict (map (fun kv => (fst kv, remove_unwanted_items (snd kv)))
           (List.filter (fun kv => negb (stripped_entry kv)) items)).
Proof.
  simpl. rewrite comprehension_filter_map. do 2 f_equal.
  apply List.filter_ext. intros kv. apply wanted_stripped.
Qed.

Lemma remove_unwanted_items_strip_free (v : value) :
  strip_free_in_lists (remove_unwanted_items v) = true.
Proof.
  induction v as [| |b|n|x|s|u|xs IH|xs IH|items IH|q attrs IH] using value_nested_ind;
    try reflexivity.
  - simpl. rewrite forallb_forall. intros y Hy.
    apply List.in_map_iff in Hy as (x & <- & Hx).
    rewrite List.Forall_forall in IH. apply IH, Hx.
  - rewrite remove_unwanted_items_VDict. simpl. rewrite forallb_forall. intros y Hy.
    apply List.in_map_iff in Hy as ([k x] & <- & Hx).
    apply List.filter_In in Hx as [Hx Hw].
    rewrite List.Forall_forall in IH. specialize (IH _ Hx). simpl in *.
    rewrite IH, andb_true_r.
    unfold stripped_entry in *. simpl in *.
    destruct x; simpl in *; try discriminate Hw; try exact Hw.
Qed.

(** On a value without tuples the two readings of "no entry to be
    stripped" agree. *)
Lemma strip_free_tuple_free (v : value) :
  tuple_free v = true -> strip_free v = strip_free_in_lists v.
Proof.
  induction v as [| |b|n|x|s|u|xs IH|xs IH|items IH|q attrs IH] using value_nested_ind;
    intros Ht; try reflexivity; try discriminate Ht.
  - simpl in *. rewrite forallb_forall in Ht. rewrite List.Forall_forall in IH.
    apply forallb_ext_in. intros y Hy. apply (IH y Hy), Ht, Hy.
  - simpl in *. rewrite forallb_forall in Ht. rewrite List.Forall_forall in IH.
    apply forallb_ext_in. intros kv Hkv. rewrite (IH kv Hkv (Ht kv Hkv)). reflexivity.
Qed.

Lemma remove_unwanted_items_tuple_free (v : value) :
  tuple_free v = true -> tuple_free (remove_unwanted_items v) = true.
Proof.
  induction v as [| |b|n|x|s|u|xs IH|xs IH|items IH|q attrs IH] using value_nested_ind;
    intros Ht; try exact Ht.
  - simpl in *. rewrite forallb_forall in *. intros y Hy.
    apply List.in_map_iff in Hy as (x & <- & Hx).
    rewrite List.Forall_forall in IH. apply IH; [exact Hx | apply Ht, Hx].
  - rewrite remove_unwanted_items_VDict. simpl in *. rewrite forallb_forall in *.
    intros y Hy. apply List.in_map_iff in Hy as (kv & <- & Hkv).
    apply List.filter_In in Hkv as [Hkv _].
    rewrite List.Forall_forall in IH. apply (IH kv Hkv), Ht, Hkv.
Qed.

Lemma remove_unwanted_items_fixed (v : value) :
  strip_free_in_lists v = true -> remove_unwanted_items v = v.
Proof.
  induction v as [| |b|n|x|s|u|xs IH|xs IH|items IH|q attrs IH] using value_nested_ind;
    intros Hv; try reflexivity.
  - simpl in *. f_equal. rewrite forallb_forall in Hv.
    rewrite <- (map_id xs) at 2. apply map_ext_in. intros x Hx.
    rewrite List.Forall_forall in IH. apply IH; [exact Hx | apply Hv, Hx].
  - rewrite remove_unwanted_items_VDict. f_equal. simpl in Hv.
    induction items as [|[k x] items IHitems]; [reflexivity|].
    simpl in Hv. apply andb_prop in Hv as [Hkx Hrest].
    apply andb_prop in Hkx as [Hk Hx].
    apply Forall_cons_1 in IH as [IHx IH]. simpl in *.
    rewrite Hk. simpl. rewrite (IHx Hx), (IHitems IH Hrest). reflexivity.
Qed.

Example text_of_stripped_keys_example :
  list_ascii_of_string (text_of (JObj [("b", JNum 1)]))
  = ["{"; quote; "b"; quote; ":"; " "; "1"; "}"]%char.
Proof. reflexivity. Qed.

Example safe_serialize_nested_strip :
  safe_serialize default_max_str_digits
    (VList [VDict [("self", VInt 0); ("keep", VDict [("drop", VNone); ("n", VInt 2)])];
            VNone])
  = Ok (text_of (JArr [JObj [("keep", JObj [("n", JNum 2)])]; JNull])).
Proof. reflexivity. Qed.

(** The example of the specification, under every digit limit. *)
Lemma safe_serialize_stripped_keys_example (max_digits : N) (obj : value) :
  safe_serialize max_digits (stripped_keys_example obj)
  = Ok (text_of (JObj [("b", JNum 1)])).
Proof.
  unfold safe_serialize, json_dumps.
  assert (Hstrip : remove_unwanted_items (stripped_keys_example obj)
                   = VDict [("b", VInt 1)]).
  { destruct obj; reflexivity. }
  rewrite Hstrip. cbn [height map snd list_max Nat.max iterencode traverse bind fst].
  rewrite (one_digit_within max_digits 1 eq_refl). reflexivity.
Qed.

(** C3, as the specification states it, fails for a mapping inside a
    tuple: the strip phase does not go into tuples, so that the entries
    with [None] and under ["self"] of a dict held in a tuple stay and are
    serialized. *)
Lemma remove_unwanted_items_keeps_tuple :
  remove_unwanted_items (VTuple [VDict [("a", VNone); ("self", VInt 1); ("b", VInt 2)]])
  = VTuple [VDict [("a", VNone); ("self", VInt 1); ("b", VInt 2)]] /\
  strip_free
    (remove_unwanted_items (VTuple [VDict [("a", VNone); ("self", VInt 1); ("b", VInt 2)]]))
  = false /\
  safe_serialize default_max_str_digits
    (VTuple [VDict [("a", VNone); ("self", VInt 1); ("b", VInt 2)]])
  = Ok (text_of (JArr [JObj [("a", JNull); ("self", JNum 1); ("b", JNum 2)]])) /\
  ~ (forall v, strip_free (remove_unwanted_items v) = true).
Proof.
  split; [reflexivity|]. split; [reflexivity|]. split; [reflexivity|].
  intros H.
  specialize (H (VTuple [VDict [("a", VNone); ("self", VInt 1); ("b", VInt 2)]])).
  discriminate H.
Qed.

(** C3 (amended): the strip phase keeps, of every mapping it reaches
    through mappings and lists, exactly the entries whose value is
    neither [None] nor [Ellipsis] and whose key is not ["self"], in their
    order and with their values stripped in turn; it goes through the
    elements of lists and returns every other value, a tuple among them,
    as it is.  Its result holds no such entry in the mappings reached
    through mappings and lists, and none at any depth when the input has
    no tuple; a value that holds none is left unchanged.  The example of
    the specification is serialized to a text that decodes to the
    document with the one member ["b"], of value 1. *)
Theorem remove_unwanted_items_strips :
  (forall items,
     remove_unwanted_items (VDict items) =
     VDict (map (fun kv => (fst kv, remove_unwanted_items (snd kv)))
              (List.filter (fun kv => negb (stripped_entry kv)) items))) /\
  (forall xs, remove_unwanted_items (VList xs) = VList (map remove_unwanted_items xs)) /\
  (forall v, isinstance_dict v || isinstance_list v = false ->
             remove_unwanted_items v = v) /\
  (forall v, strip_free_in_lists (remove_unwanted_items v) = true) /\
  (forall v, tuple_free v = true -> strip_free (remove_unwanted_items v) = true) /\
  (forall v, strip_free_in_lists v = true -> remove_unwanted_items v = v) /\
  (forall max_digits obj, exists text,
     safe_serialize max_digits (stripped_keys_example obj) = Ok text /\
     json_loads text = Some (JObj [("b", JNum 1)])).
Proof.
  split; [exact remove_unwanted_items_VDict|].
  split; [reflexivity|].
  split; [intros v Hv; destruct v; try discriminate Hv; reflexivity|].
  split; [exact remove_unwanted_items_strip_free|].
  split.
  { intros v Ht. rewrite strip_free_tuple_free.
    - apply remove_unwanted_items_strip_free.
    - apply remove_unwanted_items_tuple_free, Ht. }
  split; [exact remove_unwanted_items_fixed|].
  intros max_digits obj. exists (text_of (JObj [("b", JNum 1)])).
  split; [apply safe_serialize_stripped_keys_example | reflexivity].
Qed.

Lemma remove_unwanted_items_strips_witness :
  remove_unwanted_items (VTuple [VDict [("a", VNone)]]) = VTuple [VDict [("a", VNone)]] /\
  remove_unwanted_items (VDict [("k", VList [VNone; VInt 3])])
  = VDict [("k", VList [VNone; VInt 3])] /\
  strip_free (remove_unwanted_items (VList [VDict [("a", VNone); ("b", VInt 1)]])) = true.
Proof.
  pose proof remove_unwanted_items_strips as (_ & _ & Hleaf & _ & Hdeep & Hfix & _).
  split; [|split].
  - apply Hleaf. reflexivity.
  - apply Hfix. reflexivity.
  - apply Hdeep. reflexivity.
Defined.

(** ** The serializer: when the encoder returns *)

Lemma lookup_attr_In {A} (name : string) (attrs : list (string * A)) (r : A) :
  lookup_attr name attrs = Some r -> exists k, In (k, r) attrs.
Proof.
  induction attrs as [|[k r'] attrs IH]; simpl; [discriminate|].
  destruct (String.eqb k name).
  - intros [= ->]. exists k. left. reflexivity.
  - intros H. destruct (IH H) as [k' Hk']. exists k'. right. exact Hk'.
Qed.

Lemma chosen_capability_In {A} (attrs : list (string * A)) (r : A) :
  chosen_capability attrs = Some r -> exists k, In (k, r) attrs.
Proof.
  unfold chosen_capability.
  destruct (List.find _ capability_order) as [name|]; [|discriminate].
  apply lookup_attr_In.
Qed.

(** What the fallback answers for an object is less deep than the
    object. *)
Lemma default_height (q : string) (attrs : list (string * result value)) (d : value) :
  default (VObj q attrs) = Ok d -> height d < height (VObj q attrs).
Proof.
  rewrite default_chosen.
  destruct (chosen_capability attrs) as [r|] eqn:Hc.
  - intros ->. apply chosen_capability_In in Hc as [k Hk].
    pose proof (list_max_map_ge
                  (fun a => match snd a with Ok x => height x | Raise _ => 0 end)
                  attrs (k, Ok d) Hk) as Hle.
    simpl in *. lia.
  - intros [= <-]. simpl. lia.
Qed.

(** An object behaves when the capability the fallback calls on it
    returns a value that behaves. *)
Lemma behaves_VObj (max_digits : N) (q : string) (attrs : list (string * result value)) :
  behaves max_digits (VObj q attrs)
  = match default (VObj q attrs) with
    | Ok x => behaves max_digits x
    | Raise _ => false
    end.
Proof.
  cbn [behaves].
  rewrite (chosen_capability_map
             (fun r => match r with Ok x => behaves max_digits x | Raise _ => false end)).
  rewrite default_chosen.
  destruct (chosen_capability attrs) as [[x|e]|]; reflexivity.
Qed.

Lemma floats_finite_VObj (q : string) (attrs : list (string * result value)) :
  floats_finite (VObj q attrs)
  = match default (VObj q attrs) with
    | Ok x => floats_finite x
    | Raise _ => true
    end.
Proof.
  cbn [floats_finite].
  rewrite (chosen_capability_map
             (fun r => match r with Ok x => floats_finite x | Raise _ => true end)).
  rewrite default_chosen.
  destruct (chosen_capability attrs) as [[x|e]|]; reflexivity.
Qed.

Lemma traverse_decides_any {A B} (f : A -> result B) (p : A -> bool) (l : list A) :
  Forall (fun x => match f x with
                   | Ok _ => p x = true
                   | Raise _ => p x = false
                   end) l ->
  match traverse f l with
  | Ok _ => forallb p l = true
  | Raise _ => forallb p l = false
  end.
Proof.
  induction 1 as [|x l Hx _ IH]; simpl; [reflexivity|].
  destruct (f x) as [y|e]; simpl.
  - rewrite Hx. simpl. destruct (traverse f l); simpl; exact IH.
  - rewrite Hx. reflexivity.
Qed.

(** With the fallback of [safe_serialize] the encoder, given more fuel
    than the value is deep, returns a document exactly for the values
    whose probed capabilities behave. *)
Lemma iterencode_default_behaves (max_digits : N) (fuel : nat) :
  forall v, height v < fuel ->
  match iterencode max_digits default fuel v with
  | Ok _ => behaves max_digits v = true
  | Raise _ => behaves max_digits v = false
  end.
Proof.
  induction fuel as [|fuel IH]; intros v Hh; [lia|].
  destruct v as [| |b|n|x|s|u|xs|xs|items|q attrs]; try reflexivity.
  - simpl in Hh. destruct fuel; [lia | reflexivity].
  - cbn [iterencode behaves]. destruct (exceeds_digit_limit max_digits n); reflexivity.
  - simpl in Hh. destruct fuel; [lia | reflexivity].
  - pose proof (traverse_decides_any (iterencode max_digits default fuel)
                  (behaves max_digits) xs) as H.
    cbn [iterencode behaves].
    destruct (traverse _ xs); cbn [bind]; apply H;
      (apply List.Forall_forall; intros y Hy; apply IH;
       pose proof (list_max_map_ge height xs y Hy); simpl in Hh; lia).
  - pose proof (traverse_decides_any (iterencode max_digits default fuel)
                  (behaves max_digits) xs) as H.
    cbn [iterencode behaves].
    destruct (traverse _ xs); cbn [bind]; apply H;
      (apply List.Forall_forall; intros y Hy; apply IH;
       pose proof (list_max_map_ge height xs y Hy); simpl in Hh; lia).
  - pose proof (traverse_decides_any
                  (fun kv => j <- iterencode max_digits default fuel (snd kv) ;; Ok (fst kv, j))
                  (fun kv => behaves max_digits (snd kv)) items) as H.
    cbn [iterencode behaves].
    destruct (traverse _ items); cbn [bind]; apply H;
      (apply List.Forall_forall; intros kv Hkv;
       pose proof (list_max_map_ge (fun kv => height (snd kv)) items kv Hkv);
       simpl in Hh; specialize (IH (snd kv) ltac:(simpl in *; lia));
       destruct (iterencode max_digits default fuel (snd kv)); cbn [bind]; exact IH).
  - rewrite behaves_VObj.
    change (iterencode max_digits default (S fuel) (VObj q attrs))
      with (o' <- default (VObj q attrs) ;; iterencode max_digits default fuel o').
    destruct (default (VObj q attrs)) as [d|e] eqn:Hd; cbn [bind]; [|reflexivity].
    apply IH. pose proof (default_height q attrs d Hd). lia.
Qed.

Lemma iterencode_default_returns (max_digits : N) (fuel : nat) (v : value) :
  behaves max_digits v = true -> height v < fuel ->
  returns (iterencode max_digits default fuel v).
Proof.
  intros Hb Hh. pose proof (iterencode_default_behaves max_digits fuel v Hh) as H.
  destruct (iterencode max_digits default fuel v) as [j|e]; [exists j; reflexivity|].
  congruence.
Qed.

(** More fuel does not change a document the encoder has returned,
    whatever the hook. *)
Lemma iterencode_fuel_mono (max_digits : N) (dflt : value -> result value) (fuel : nat) :
  forall v j, iterencode max_digits dflt fuel v = Ok j ->
  forall fuel', fuel <= fuel' -> iterencode max_digits dflt fuel' v = Ok j.
Proof.
  induction fuel as [|fuel IH]; intros v j H [|fuel'] Hle; try discriminate H; [lia|].
  assert (Hle' : fuel <= fuel') by lia.
  assert (Hlist : forall xs js, traverse (iterencode max_digits dflt fuel) xs = Ok js ->
                                traverse (iterencode max_digits dflt fuel') xs = Ok js).
  { intros xs js Hjs. apply traverse_Ok_Forall2. apply traverse_Ok_Forall2 in Hjs.
    eapply Forall2_impl; [exact Hjs|]. intros x y Hxy. simpl in Hxy. eapply IH; eauto. }
  destruct v as [| |b|n|x|s|u|xs|xs|items|q attrs]; cbn [iterencode] in *;
    try exact H;
    try (apply bind_Ok in H as (o' & Ho' & H); rewrite Ho'; cbn [bind]; eapply IH; eauto).
  - apply bind_Ok in H as (js & Hjs & H). rewrite (Hlist _ _ Hjs). exact H.
  - apply bind_Ok in H as (js & Hjs & H). rewrite (Hlist _ _ Hjs). exact H.
  - apply bind_Ok in H as (ms & Hms & H).
    assert (Hms' : traverse (fun kv => j <- iterencode max_digits dflt fuel' (snd kv) ;;
                                       Ok (fst kv, j)) items
                   = Ok ms).
    { apply traverse_Ok_Forall2. apply traverse_Ok_Forall2 in Hms.
      eapply Forall2_impl; [exact Hms|]. intros kv m Hm. simpl in Hm.
      apply bind_Ok in Hm as (j' & Hj' & Hm). rewrite (IH _ _ Hj' _ Hle'). exact Hm. }
    rewrite Hms'. exact H.
Qed.

Lemma remove_unwanted_items_behaves (max_digits : N) (v : value) :
  behaves max_digits v = true -> behaves max_digits (remove_unwanted_items v) = true.
Proof.
  induction v as [| |b|n|x|s|u|xs IH|xs IH|items IH|q attrs IH] using value_nested_ind;
    intros Hb; try exact Hb.
  - simpl in *. rewrite forallb_forall in *. intros y Hy.
    apply List.in_map_iff in Hy as (x & <- & Hx).
    rewrite List.Forall_forall in IH. apply IH; [exact Hx | apply Hb, Hx].
  - rewrite remove_unwanted_items_VDict. simpl in *. rewrite forallb_forall in *.
    intros y Hy. apply List.in_map_iff in Hy as (kv & <- & Hkv).
    apply List.filter_In in Hkv as [Hkv _].
    rewrite List.Forall_forall in IH. apply (IH kv Hkv), Hb, Hkv.
Qed.

(** [safe_serialize] returns exactly when the probed capabilities of
    the stripped value behave. *)
Lemma safe_serialize_returns_iff (max_digits : N) (v : value) :
  returns (safe_serialize max_digits v)
  <-> behaves max_digits (remove_unwanted_items v) = true.
Proof.
  unfold safe_serialize, json_dumps.
  pose proof (iterencode_default_behaves max_digits
                (S (height (remove_unwanted_items v))) (remove_unwanted_items v)
                (Nat.lt_succ_diag_r _)) as H.
  destruct (iterencode max_digits default _ (remove_unwanted_items v)) as [j|e];
    cbn [bind].
  - split; [intros _; exact H | intros _; eexists; reflexivity].
  - split; [intros [t Ht]; discriminate Ht | congruence].
Qed.

(** [safe_serialize] returns the text of a document for every value
    whose probed capabilities behave. *)
Lemma safe_serialize_returns (max_digits : N) (v : value) :
  behaves max_digits v = true ->
  exists j, iterencode max_digits default (S (height (remove_unwanted_items v)))
              (remove_unwanted_items v) = Ok j /\
            safe_serialize max_digits v = Ok (text_of j).
Proof.
  intros Hb. unfold safe_serialize, json_dumps.
  destruct (iterencode_default_returns max_digits (S (height (remove_unwanted_items v)))
              (remove_unwanted_items v)) as [j Hj];
    [apply remove_unwanted_items_behaves, Hb | lia |].
  exists j. rewrite Hj. split; reflexivity.
Qed.

Lemma Forall2_nth_error {A B} (R : A -> B -> Prop) (l : list A) (l' : list B) :
  Forall2 R l l' ->
  forall i x, nth_error l i = Some x -> exists y, nth_error l' i = Some y /\ R x y.
Proof.
  induction 1 as [|a b l l' Hab _ IH]; intros [|i] x Hx; simpl in *; try discriminate Hx.
  - injection Hx as <-. exists b. split; [reflexivity | exact Hab].
  - apply IH, Hx.
Qed.

(** C10: the strip phase leaves the elements of a list in place, [None]
    and [Ellipsis] among them; a list whose elements behave (the
    capabilities the fallback calls return, and no int that is written is
    beyond the digit limit) is serialized, and in the array that is
    written an element [None] is [null] and an element [Ellipsis], which
    the encoder hands to the fallback, is the placeholder string naming
    its type. *)
Theorem list_sentinels_are_kept (max_digits : N) (xs : list value) :
  remove_unwanted_items (VList xs) = VList (map remove_unwanted_items xs) /\
  length (map remove_unwanted_items xs) = length xs /\
  (forall i, nth_error xs i = Some VNone ->
             nth_error (map remove_unwanted_items xs) i = Some VNone) /\
  (forall i, nth_error xs i = Some VEllipsis ->
             nth_error (map remove_unwanted_items xs) i = Some VEllipsis) /\
  default VEllipsis = Ok (VStr (placeholder "ellipsis")) /\
  (forallb (behaves max_digits) xs = true ->
   returns (safe_serialize max_digits (VList xs))) /\
  (forall text, safe_serialize max_digits (VList xs) = Ok text ->
     exists js, text = text_of (JArr js) /\ length js = length xs /\
       forall i,
         (nth_error xs i = Some VNone -> nth_error js i = Some JNull) /\
         (nth_error xs i = Some VEllipsis ->
          nth_error js i = Some (JStr (placeholder "ellipsis")))).
Proof.
  assert (Hnone : forall i, nth_error xs i = Some VNone ->
                            nth_error (map remove_unwanted_items xs) i = Some VNone).
  { intros i Hi. rewrite nth_error_map, Hi. reflexivity. }
  assert (Hell : forall i, nth_error xs i = Some VEllipsis ->
                           nth_error (map remove_unwanted_items xs) i = Some VEllipsis).
  { intros i Hi. rewrite nth_error_map, Hi. reflexivity. }
  split; [reflexivity|].
  split; [apply length_map|].
  split; [exact Hnone|].
  split; [exact Hell|].
  split; [reflexivity|].
  split.
  - intros Hb. destruct (safe_serialize_returns max_digits (VList xs) Hb) as (j & _ & Hj).
    eexists. exact Hj.
  - intros text H. unfold safe_serialize, json_dumps in H.
    apply bind_Ok in H as (j & Hj & [= <-]).
    cbn [remove_unwanted_items iterencode] in Hj.
    apply bind_Ok in Hj as (js & Hjs & [= <-]).
    exists js. split; [reflexivity|].
    pose proof (traverse_length _ _ _ Hjs) as Hlen. rewrite length_map in Hlen.
    split; [exact Hlen|].
    apply traverse_Ok_Forall2 in Hjs.
    set (h := height (VList (map remove_unwanted_items xs))) in *. clearbody h.
    intros i. split; intros Hi.
    + destruct (Forall2_nth_error _ _ _ Hjs i _ (Hnone i Hi)) as (j & Hj & Henc).
      destruct h; [discriminate Henc|]. injection Henc as <-. exact Hj.
    + destruct (Forall2_nth_error _ _ _ Hjs i _ (Hell i Hi)) as (j & Hj & Henc).
      destruct h as [|[|h]]; try discriminate Henc. injection Henc as <-. exact Hj.
Qed.

Lemma list_sentinels_are_kept_witness :
  returns (safe_serialize default_max_str_digits (VList [VNone; VEllipsis])) /\
  exists js,
    safe_serialize default_max_str_digits (VList [VNone; VEllipsis])
    = Ok (text_of (JArr js)) /\
    nth_error js 0 = Some JNull /\
    nth_error js 1 = Some (JStr (placeholder "ellipsis")).
Proof.
  pose proof (list_sentinels_are_kept default_max_str_digits [VNone; VEllipsis])
    as (_ & _ & _ & _ & _ & Hret & Henc).
  split; [apply Hret; reflexivity|].
  destruct (Henc (text_of (JArr [JNull; JStr (placeholder "ellipsis")])) eq_refl)
    as (js & Htext & _ & Hi).
  exists js. split; [|split].
  - transitivity (Ok (A := string) (text_of (JArr [JNull; JStr (placeholder "ellipsis")])));
      [reflexivity | f_equal; exact Htext].
  - apply (Hi 0%nat). reflexivity.
  - apply (Hi 1%nat). reflexivity.
Defined.

(** ** What [json.dumps] writes is valid JSON and decodes to the document *)

Lemma parse_chars_escape (a : ascii) (tail : list ascii) :
  parse_chars (escape_char a ++ tail) =
  '(cs, rest) ← parse_chars tail; Some (a :: cs, rest).
Proof.
  destruct a as [[|] [|] [|] [|] [|] [|] [|] [|]]; reflexivity.
Qed.

Lemma parse_chars_render (cs rest : list ascii) :
  parse_chars (flat_map escape_char cs ++ quote :: rest) = Some (cs, rest).
Proof.
  induction cs as [|a cs IH]; [reflexivity|].
  cbn [flat_map]. rewrite <- List.app_assoc, parse_chars_escape, IH. reflexivity.
Qed.

Lemma render_string_app (s : string) (rest : list ascii) :
  render_string s ++ rest =
  quote :: flat_map escape_char (list_ascii_of_string s) ++ quote :: rest.
Proof.
  unfold render_string. cbn [app]. rewrite <- List.app_assoc. reflexivity.
Qed.

Lemma ends_number_digits (rest : list ascii) : ends_number rest -> ends_digits rest.
Proof.
  destruct rest as [|c rest]; [trivial|]. unfold ends_number, ends_digits, continues_number.
  destruct (is_digit c); [discriminate | reflexivity].
Qed.

Lemma parse_uint_chars (u : Decimal.uint) (rest : list ascii) :
  ends_digits rest -> parse_uint (uint_chars u ++ rest) = (u, rest).
Proof.
  intros Hrest. unfold uint_chars.
  induction u as [|u IH|u IH|u IH|u IH|u IH|u IH|u IH|u IH|u IH|u IH];
    try (cbn [NilEmpty.string_of_uint list_ascii_of_string app parse_uint];
         change (digit_of_ascii _) with (Some Decimal.D0) ||
         change (digit_of_ascii _) with (Some Decimal.D1) ||
         change (digit_of_ascii _) with (Some Decimal.D2) ||
         change (digit_of_ascii _) with (Some Decimal.D3) ||
         change (digit_of_ascii _) with (Some Decimal.D4) ||
         change (digit_of_ascii _) with (Some Decimal.D5) ||
         change (digit_of_ascii _) with (Some Decimal.D6) ||
         change (digit_of_ascii _) with (Some Decimal.D7) ||
         change (digit_of_ascii _) with (Some Decimal.D8) ||
         change (digit_of_ascii _) with (Some Decimal.D9);
         cbv iota beta; rewrite IH; reflexivity).
  simpl. destruct rest as [|c rest]; [reflexivity|].
  simpl in *. unfold is_digit in Hrest.
  destruct (digit_of_ascii c); [discriminate Hrest | reflexivity].
Qed.

Lemma parse_nat_chars (u : Decimal.uint) (rest : list ascii) :
  normal u -> ends_digits rest -> parse_nat (uint_chars u ++ rest) = Some (u, rest).
Proof.
  intros Hu Hrest. unfold parse_nat. rewrite parse_uint_chars by exact Hrest.
  destruct u as [|u|u|u|u|u|u|u|u|u|u]; try reflexivity; simpl in Hu; [contradiction|].
  destruct u; try contradiction; reflexivity.
Qed.

Lemma nzhead_no_zero (u u' : Decimal.uint) : Decimal.nzhead u <> Decimal.D0 u'.
Proof.
  induction u; simpl; try discriminate. exact IHu.
Qed.

Lemma to_uint_normal (p : positive) : normal (Pos.to_uint p).
Proof.
  assert (Hnorm : Decimal.unorm (Pos.to_uint p) = Pos.to_uint p).
  { rewrite <- (DecimalPos.Unsigned.to_of (Pos.to_uint p)).
    rewrite DecimalPos.Unsigned.of_to. reflexivity. }
  pose proof (DecimalPos.Unsigned.to_uint_nonnil p) as Hnil.
  destruct (Pos.to_uint p) as [|u|u|u|u|u|u|u|u|u|u] eqn:E; simpl; try exact I;
    [contradiction|].
  destruct u; try exact I; exfalso.
  - unfold Decimal.unorm in Hnorm. simpl in Hnorm.
    destruct (Decimal.nzhead u) eqn:En; try discriminate Hnorm.
    eapply nzhead_no_zero. exact En.
  - unfold Decimal.unorm in Hnorm. simpl in Hnorm. discriminate Hnorm.
  - unfold Decimal.unorm in Hnorm. simpl in Hnorm. discriminate Hnorm.
  - unfold Decimal.unorm in Hnorm. simpl in Hnorm. discriminate Hnorm.
  - unfold Decimal.unorm in Hnorm. simpl in Hnorm. discriminate Hnorm.
  - unfold Decimal.unorm in Hnorm. simpl in Hnorm. discriminate Hnorm.
  - unfold Decimal.unorm in Hnorm. simpl in Hnorm. discriminate Hnorm.
  - unfold Decimal.unorm in Hnorm. simpl in Hnorm. discriminate Hnorm.
  - unfold Decimal.unorm in Hnorm. simpl in Hnorm. discriminate Hnorm.
  - unfold Decimal.unorm in Hnorm. simpl in Hnorm. discriminate Hnorm.
Qed.

Lemma parse_value_space (fuel : nat) (s : list ascii) :
  parse_value fuel (" "%char :: s) = parse_value fuel s.
Proof. destruct fuel; reflexivity. Qed.

Lemma parse_elements_space (fuel : nat) (s : list ascii) :
  parse_elements fuel (" "%char :: s) = parse_elements fuel s.
Proof.
  destruct fuel as [|fuel]; [reflexivity|].
  cbn [parse_elements]. rewrite parse_value_space. reflexivity.
Qed.

Lemma parse_members_space (fuel : nat) (s : list ascii) :
  parse_members fuel (" "%char :: s) = parse_members fuel s.
Proof. destruct fuel; reflexivity. Qed.

Lemma parse_value_digit (fuel : nat) (c : ascii) (tl : list ascii) :
  is_digit c = true ->
  parse_value (S fuel) (c :: tl) = parse_number false (c :: tl).
Proof.
  destruct c as [[|] [|] [|] [|] [|] [|] [|] [|]]; intros H;
    try discriminate H; reflexivity.
Qed.

Lemma parse_value_minus (fuel : nat) (tl : list ascii) :
  parse_value (S fuel) ("-"%char :: tl) = parse_number true tl.
Proof. reflexivity. Qed.

(** After a number that has ended there is neither a fraction nor an
    exponent. *)
Lemma parse_fraction_none (tail : list ascii) :
  match tail with [] => True | c :: _ => Ascii.eqb c "." = false end ->
  parse_fraction tail = Some (None, tail).
Proof.
  destruct tail as [|c tail]; [reflexivity|]. intros Hc. unfold parse_fraction.
  rewrite Hc. reflexivity.
Qed.

Lemma parse_exponent_none (rest : list ascii) :
  ends_number rest -> parse_exponent rest = Some (None, rest).
Proof.
  destruct rest as [|c rest]; [reflexivity|]. unfold ends_number, continues_number.
  intros Hc. apply orb_false_elim in Hc as [Hc HE]. apply orb_false_elim in Hc as [Hc He].
  unfold parse_exponent. rewrite He, HE. reflexivity.
Qed.

Lemma ends_number_no_point (rest : list ascii) :
  ends_number rest -> match rest with [] => True | c :: _ => Ascii.eqb c "." = false end.
Proof.
  destruct rest as [|c rest]; [trivial|]. unfold ends_number, continues_number.
  intros Hc. apply orb_false_elim in Hc as [Hc _]. apply orb_false_elim in Hc as [Hc _].
  apply orb_false_elim in Hc as [_ Hc]. exact Hc.
Qed.

Lemma parse_number_int (negative : bool) (u : Decimal.uint) (rest : list ascii) :
  normal u -> ends_number rest ->
  parse_number negative (uint_chars u ++ rest)
  = Some (JNum (Z.of_int (if negative then Decimal.Neg u else Decimal.Pos u)), rest).
Proof.
  intros Hu Hrest. unfold parse_number.
  rewrite (parse_nat_chars u rest Hu (ends_number_digits rest Hrest)).
  cbn [mbind option_bind].
  rewrite (parse_fraction_none rest (ends_number_no_point rest Hrest)).
  cbn [mbind option_bind].
  rewrite (parse_exponent_none rest Hrest). reflexivity.
Qed.

Lemma has_digits_not_nil (u : Decimal.uint) : has_digits u = true -> u <> Decimal.Nil.
Proof. intros H ->. discriminate H. Qed.

Lemma is_normal_normal (u : Decimal.uint) : is_normal u = true -> normal u.
Proof.
  destruct u as [|u|u|u|u|u|u|u|u|u|u]; simpl; try (intros; exact I); try discriminate.
  destruct u; simpl; try discriminate; intros; exact I.
Qed.

Lemma parse_fraction_render (f : option Decimal.uint) (tail : list ascii) :
  match f with Some d => has_digits d = true | None => True end ->
  ends_digits tail ->
  match tail with [] => True | c :: _ => Ascii.eqb c "." = false end ->
  parse_fraction (render_fraction f ++ tail) = Some (f, tail).
Proof.
  intros Hf Hd Hp. destruct f as [d|]; [|apply parse_fraction_none, Hp].
  cbn [render_fraction app parse_fraction].
  change (Ascii.eqb "."%char "."%char) with true. cbv iota.
  rewrite (parse_uint_chars d tail Hd). destruct d; [discriminate Hf | reflexivity ..].
Qed.

Lemma parse_exponent_digits_render (negative : bool) (d : Decimal.uint) (rest : list ascii) :
  has_digits d = true -> ends_digits rest ->
  parse_exponent_digits negative (uint_chars d ++ rest)
  = Some (Some (if negative then Decimal.Neg d else Decimal.Pos d), rest).
Proof.
  intros Hd Hrest. unfold parse_exponent_digits.
  rewrite (parse_uint_chars d rest Hrest). destruct d; [discriminate Hd | reflexivity ..].
Qed.

Lemma parse_exponent_render (e : option Decimal.int) (rest : list ascii) :
  match e with
  | Some (Decimal.Pos d) | Some (Decimal.Neg d) => has_digits d = true
  | None => True
  end ->
  ends_number rest ->
  parse_exponent (render_exponent e ++ rest) = Some (e, rest).
Proof.
  intros He Hrest. destruct e as [[d|d]|]; [| |apply parse_exponent_none, Hrest].
  - cbn [render_exponent app parse_exponent].
    change (Ascii.eqb "e"%char "e"%char) with true. cbn [orb]. cbv iota.
    change (Ascii.eqb "+"%char "-"%char) with false. cbv iota.
    change (Ascii.eqb "+"%char "+"%char) with true. cbv iota.
    apply (parse_exponent_digits_render false d rest He (ends_number_digits rest Hrest)).
  - cbn [render_exponent app parse_exponent].
    change (Ascii.eqb "e"%char "e"%char) with true. cbn [orb]. cbv iota.
    change (Ascii.eqb "-"%char "-"%char) with true. cbv iota.
    apply (parse_exponent_digits_render true d rest He (ends_number_digits rest Hrest)).
Qed.

(** What follows the integer part of a number: the fraction, the
    exponent or the end of the number. *)
Lemma exponent_tail (e : option Decimal.int) (rest : list ascii) :
  ends_number rest ->
  ends_digits (render_exponent e ++ rest) /\
  match render_exponent e ++ rest with [] => True | c :: _ => Ascii.eqb c "." = false end.
Proof.
  intros Hrest. destruct e as [[d|d]|]; try (split; reflexivity).
  split; [apply ends_number_digits, Hrest | apply ends_number_no_point, Hrest].
Qed.

Lemma parse_number_float (lit : float_literal) (rest : list ascii) :
  repr_literal lit = true -> ends_number rest ->
  parse_number (fl_negative lit)
    (uint_chars (fl_integer lit) ++ render_fraction (fl_fraction lit)
       ++ render_exponent (fl_exponent lit) ++ rest)
  = Some (JFloat (FFinite lit), rest).
Proof.
  destruct lit as [negative u f e]. unfold repr_literal. cbn [fl_negative fl_integer
    fl_fraction fl_exponent]. intros Hlit Hrest.
  apply andb_prop in Hlit as [Hlit Hboth]. apply andb_prop in Hlit as [Hlit He].
  apply andb_prop in Hlit as [Hu Hf].
  destruct (exponent_tail e rest Hrest) as [Hd Hp].
  assert (Hfd : ends_digits (render_fraction f ++ render_exponent e ++ rest)).
  { destruct f as [d|]; [reflexivity | exact Hd]. }
  unfold parse_number.
  rewrite (parse_nat_chars u _ (is_normal_normal u Hu) Hfd). cbn [mbind option_bind].
  rewrite (parse_fraction_render f (render_exponent e ++ rest)); [| | exact Hd | exact Hp].
  2: { destruct f; [exact Hf | exact I]. }
  cbn [mbind option_bind].
  rewrite (parse_exponent_render e rest); [| | exact Hrest].
  2: { destruct e as [[d|d]|]; [exact He | exact He | exact I]. }
  cbn [mbind option_bind].
  destruct f as [d|], e as [e'|]; try reflexivity. discriminate Hboth.
Qed.

Lemma parse_value_quote (fuel : nat) (tl : list ascii) :
  parse_value (S fuel) (quote :: tl) =
  '(cs, rest) ← parse_chars tl; Some (JStr (string_of_list_ascii cs), rest).
Proof. reflexivity. Qed.

Lemma parse_value_array (fuel : nat) (c : ascii) (tl : list ascii) :
  starts_value c = true ->
  parse_value (S fuel) ("["%char :: c :: tl) =
  '(js, rest) ← parse_elements fuel (c :: tl); Some (JArr js, rest).
Proof.
  unfold starts_value. intros H.
  apply andb_prop in H as [H H3]. apply andb_prop in H as [H1 H2].
  apply negb_true_iff in H1, H2.
  change (parse_value (S fuel) ("["%char :: c :: tl)) with
    (match skip_ws (c :: tl) with
     | c' :: rest =>
         if Ascii.eqb c' "]" then Some (JArr [], rest)
         else '(js, rest') ← parse_elements fuel (c :: tl); Some (JArr js, rest')
     | [] => None
     end).
  cbn [skip_ws]. rewrite H1, H2. reflexivity.
Qed.

Lemma parse_value_object (fuel : nat) (tl : list ascii) :
  parse_value (S fuel) ("{"%char :: quote :: tl) =
  '(ms, rest) ← parse_members fuel (quote :: tl); Some (JObj ms, rest).
Proof. reflexivity. Qed.

Lemma uint_chars_head (u : Decimal.uint) :
  u <> Decimal.Nil ->
  exists c tl, uint_chars u = c :: tl /\ is_digit c = true.
Proof.
  intros Hu. destruct u; try contradiction; eexists _, _; split; reflexivity.
Qed.

Lemma render_int_cases (n : Z) :
  exists u, normal u /\ Z.of_int (Z.to_int n) = n /\
    ((Z.to_int n = Decimal.Pos u /\ render_int n = uint_chars u) \/
     (Z.to_int n = Decimal.Neg u /\ render_int n = "-"%char :: uint_chars u)).
Proof.
  destruct n as [|p|p].
  - exists (Decimal.D0 Decimal.Nil). repeat split. left. split; reflexivity.
  - exists (Pos.to_uint p). split; [apply to_uint_normal|].
    split; [apply DecimalZ.of_to|]. left. split; [reflexivity|].
    unfold render_int, uint_chars. simpl.
    pose proof (DecimalPos.Unsigned.to_uint_nonnil p).
    destruct (Pos.to_uint p); [contradiction|reflexivity..].
  - exists (Pos.to_uint p). split; [apply to_uint_normal|].
    split; [apply DecimalZ.of_to|]. right. split; [reflexivity|].
    unfold render_int, uint_chars. simpl.
    pose proof (DecimalPos.Unsigned.to_uint_nonnil p).
    destruct (Pos.to_uint p); [contradiction|reflexivity..].
Qed.

Lemma normal_not_nil (u : Decimal.uint) : normal u -> u <> Decimal.Nil.
Proof. intros H ->. exact H. Qed.

Lemma is_digit_starts_value (c : ascii) : is_digit c = true -> starts_value c = true.
Proof.
  destruct c as [[|] [|] [|] [|] [|] [|] [|] [|]]; intros H;
    try discriminate H; reflexivity.
Qed.

Lemma render_literal_head (lit : float_literal) :
  repr_literal lit = true ->
  exists c tl, render_literal lit = c :: tl /\ starts_value c = true.
Proof.
  destruct lit as [negative u f e]. unfold repr_literal, render_literal.
  cbn [fl_negative fl_integer fl_fraction fl_exponent]. intros Hlit.
  apply andb_prop in Hlit as [Hlit _]. apply andb_prop in Hlit as [Hlit _].
  apply andb_prop in Hlit as [Hu _].
  destruct negative; [eexists _, _; split; reflexivity|].
  destruct (uint_chars_head u (normal_not_nil u (is_normal_normal u Hu)))
    as (c & tl & -> & Hc).
  eexists _, _. split; [reflexivity | apply is_digit_starts_value, Hc].
Qed.

(** The text of a document starts with the first character of a value. *)
Lemma render_head (j : json) :
  finite_json j = true ->
  exists c tl, render j = c :: tl /\ starts_value c = true.
Proof.
  intros Hj.
  destruct j as [|[|]|n|x|s|l|l]; try (eexists _, _; split; reflexivity).
  - cbn [render].
    destruct (render_int_cases n) as (u & Hu & _ & [[_ ->] | [_ ->]]).
    + destruct (uint_chars_head u (normal_not_nil u Hu)) as (c & tl & -> & Hc).
      exists c, tl. split; [reflexivity | apply is_digit_starts_value, Hc].
    + eexists _, _. split; reflexivity.
  - destruct x as [lit| | |]; try discriminate Hj.
    apply render_literal_head, Hj.
Qed.

Lemma parse_value_number (fuel : nat) (n : Z) (rest : list ascii) :
  ends_number rest ->
  parse_value (S fuel) (render_int n ++ rest) = Some (JNum n, rest).
Proof.
  intros Hrest.
  destruct (render_int_cases n) as (u & Hu & Hn & [[Hi ->] | [Hi ->]]).
  - destruct (uint_chars_head u (normal_not_nil u Hu)) as (c & tl & Hc & Hd).
    pose proof (parse_number_int false u rest Hu Hrest) as Hp.
    rewrite Hc in *. cbn [app] in *.
    rewrite (parse_value_digit _ _ _ Hd), Hp.
    rewrite <- Hn, Hi. reflexivity.
  - cbn [app]. rewrite parse_value_minus, (parse_number_int true u rest Hu Hrest).
    rewrite <- Hn, Hi. reflexivity.
Qed.

Lemma parse_value_float (fuel : nat) (lit : float_literal) (rest : list ascii) :
  repr_literal lit = true -> ends_number rest ->
  parse_value (S fuel) (render_literal lit ++ rest) = Some (JFloat (FFinite lit), rest).
Proof.
  intros Hlit Hrest. pose proof (parse_number_float lit rest Hlit Hrest) as Hp.
  unfold render_literal. rewrite <- !List.app_assoc.
  destruct (fl_negative lit) eqn:Hneg; cbn [app].
  - rewrite parse_value_minus. exact Hp.
  - assert (Hu : is_normal (fl_integer lit) = true).
    { unfold repr_literal in Hlit. apply andb_prop in Hlit as [Hlit _].
      apply andb_prop in Hlit as [Hlit _]. apply andb_prop in Hlit as [Hu _]. exact Hu. }
    destruct (uint_chars_head _ (normal_not_nil _ (is_normal_normal _ Hu)))
      as (c & tl & Hc & Hd).
    rewrite Hc in *. cbn [app] in *.
    rewrite (parse_value_digit _ _ _ Hd). exact Hp.
Qed.

Lemma join_cons2 {A} (sep p q : list A) (ps : list (list A)) :
  join sep (p :: q :: ps) = p ++ sep ++ join sep (q :: ps).
Proof. reflexivity. Qed.

Lemma parse_elements_render (xs : list json) :
  Forall decodes xs ->
  forall x fuel rest,
    decodes x ->
    S (Nat.max (weight x) (fold_right (fun x n => S (Nat.max (weight x) n)) 0 xs)) <= fuel ->
    parse_elements fuel
      (join (list_ascii_of_string ", ") (map render (x :: xs)) ++ "]"%char :: rest)
    = Some (x :: xs, rest).
Proof.
  induction 1 as [|y ys Hy _ IH]; intros x [|fuel] rest Hx Hfuel; try lia.
  - cbn [map join parse_elements fold_right] in *.
    rewrite (Hx fuel ("]"%char :: rest)); [reflexivity | lia | reflexivity].
  - change (map render (x :: y :: ys)) with (render x :: render y :: map render ys).
    rewrite join_cons2.
    change (render y :: map render ys) with (map render (y :: ys)).
    rewrite <- !List.app_assoc.
    cbn [parse_elements fold_right] in *.
    rewrite (Hx fuel); [| lia | reflexivity].
    cbn [list_ascii_of_string app].
    change (parse_elements (S fuel) ?s) with (parse_elements (S fuel) s).
    cbn [mbind option_bind skip_ws].
    change (is_ws ","%char) with false. cbv iota.
    change (Ascii.eqb ","%char ","%char) with true. cbv iota.
    rewrite parse_elements_space.
    pose proof (IH y fuel rest Hy) as IH'. cbn [list_ascii_of_string] in IH'.
    rewrite IH'; [reflexivity | lia].
Qed.

Lemma parse_members_step (fuel : nat) (k : string) (v : json) (tail : list ascii) :
  decodes v -> weight v <= fuel -> ends_number tail ->
  parse_members (S fuel)
    (render_string k ++ list_ascii_of_string ": " ++ render v ++ tail) =
  match skip_ws tail with
  | c :: rest =>
      if Ascii.eqb c "," then
        '(ms, rest') ← parse_members fuel rest; Some ((k, v) :: ms, rest')
      else if Ascii.eqb c "}" then Some ([(k, v)], rest)
      else None
  | [] => None
  end.
Proof.
  intros Hv Hfuel Htail. rewrite render_string_app.
  cbn [parse_members skip_ws].
  change (is_ws quote) with false. cbv iota.
  change (Ascii.eqb quote quote) with true. cbv iota.
  rewrite parse_chars_render.
  cbn [mbind option_bind list_ascii_of_string app skip_ws].
  change (is_ws ":"%char) with false. cbv iota.
  change (Ascii.eqb ":"%char ":"%char) with true. cbv iota.
  rewrite parse_value_space, (Hv fuel tail Hfuel Htail).
  cbn [mbind option_bind]. rewrite string_of_list_ascii_of_string. reflexivity.
Qed.

Lemma parse_members_render (ms : list (string * json)) :
  Forall (fun kv => decodes (snd kv)) ms ->
  forall m fuel rest,
    decodes (snd m) ->
    S (Nat.max (weight (snd m))
         (fold_right (fun kv n => S (Nat.max (weight (snd kv)) n)) 0 ms)) <= fuel ->
    parse_members fuel
      (join (list_ascii_of_string ", ") (map render_member (m :: ms)) ++ "}"%char :: rest)
    = Some (m :: ms, rest).
Proof.
  induction 1 as [|m' ms Hm' _ IH]; intros [k v] [|fuel] rest Hv Hfuel; try lia;
    cbn [snd fold_right] in *.
  - cbn [map join]. unfold render_member. cbn [fst snd].
    rewrite <- !List.app_assoc.
    rewrite parse_members_step; [reflexivity | exact Hv | lia | reflexivity].
  - change (map render_member ((k, v) :: m' :: ms))
      with (render_member (k, v) :: render_member m' :: map render_member ms).
    rewrite join_cons2.
    change (render_member m' :: map render_member ms) with (map render_member (m' :: ms)).
    unfold render_member at 1. cbn [fst snd].
    rewrite <- !List.app_assoc.
    rewrite parse_members_step; [| exact Hv | lia | reflexivity].
    cbn [list_ascii_of_string app skip_ws].
    change (is_ws ","%char) with false. cbv iota.
    change (Ascii.eqb ","%char ","%char) with true. cbv iota.
    rewrite parse_members_space.
    pose proof (IH m' fuel rest Hm') as IH'. cbn [list_ascii_of_string] in IH'.
    rewrite IH'; [reflexivity | lia].
Qed.

Lemma render_JObj (l : list (string * json)) :
  render (JObj l) =
  "{"%char :: join (list_ascii_of_string ", ") (map render_member l) ++ ["}"%char].
Proof. reflexivity. Qed.

Lemma render_JArr (l : list json) :
  render (JArr l) =
  "["%char :: join (list_ascii_of_string ", ") (map render l) ++ ["]"%char].
Proof. reflexivity. Qed.

Lemma Forall_decodes {A} (f : A -> json) (l : list A) :
  Forall (fun x => finite_json (f x) = true -> decodes (f x)) l ->
  forallb (fun x => finite_json (f x)) l = true ->
  Forall (fun x => decodes (f x)) l.
Proof.
  induction 1 as [|x l Hx _ IH]; intros Hl; [constructor|].
  simpl in Hl. apply andb_prop in Hl as [Hfx Hl].
  constructor; [apply Hx, Hfx | apply IH, Hl].
Qed.

(** Every document without a float that is not finite is decoded from
    its text. *)
Lemma render_decodes (j : json) : finite_json j = true -> decodes j.
Proof.
  induction j as [|b|n|x|s|l IH|l IH] using json_nested_ind;
    intros Hj [|fuel] rest Hfuel Hrest; try (cbn [weight] in Hfuel; lia).
  - reflexivity.
  - destruct b; reflexivity.
  - apply parse_value_number, Hrest.
  - destruct x as [lit| | |]; try discriminate Hj.
    apply parse_value_float; [exact Hj | exact Hrest].
  - cbn [render]. rewrite render_string_app, parse_value_quote, parse_chars_render.
    cbn [mbind option_bind]. rewrite string_of_list_ascii_of_string. reflexivity.
  - rewrite render_JArr. cbn [finite_json] in Hj.
    pose proof (Forall_decodes (fun x => x) l IH Hj) as IH'. clear IH.
    destruct IH' as [|x xs Hx Hxs]; [reflexivity|].
    cbn [app]. rewrite <- List.app_assoc. cbn [app].
    cbn [forallb] in Hj. apply andb_prop in Hj as [Hjx Hjxs].
    destruct (render_head x Hjx) as (c & tl & Hc & Hstart).
    assert (Hjoin : exists tl', join (list_ascii_of_string ", ") (map render (x :: xs))
                                ++ "]"%char :: rest = c :: tl').
    { destruct xs as [|y ys].
      - cbn [map join]. rewrite Hc. eexists. reflexivity.
      - change (map render (x :: y :: ys)) with (render x :: render y :: map render ys).
        rewrite join_cons2, Hc. eexists. reflexivity. }
    destruct Hjoin as [tl' Hjoin].
    pose proof (parse_elements_render xs Hxs x fuel rest Hx) as Hel.
    rewrite Hjoin in *. rewrite (parse_value_array _ _ _ Hstart), Hel; [reflexivity|].
    cbn [weight fold_right] in Hfuel. lia.
  - rewrite render_JObj. cbn [finite_json] in Hj.
    pose proof (Forall_decodes (fun kv => snd kv) l IH Hj) as IH'. clear IH.
    destruct IH' as [|[k v] ms Hv Hms]; [reflexivity|].
    cbn [app]. rewrite <- List.app_assoc. cbn [app].
    assert (Hjoin : exists tl', join (list_ascii_of_string ", ")
                                  (map render_member ((k, v) :: ms))
                                ++ "}"%char :: rest = quote :: tl').
    { destruct ms as [|m' ms'].
      - cbn [map join]. unfold render_member. cbn [fst].
        rewrite <- List.app_assoc, render_string_app. eexists. reflexivity.
      - change (map render_member ((k, v) :: m' :: ms'))
          with (render_member (k, v) :: render_member m' :: map render_member ms').
        rewrite join_cons2. unfold render_member at 1. cbn [fst].
        rewrite <- !List.app_assoc, render_string_app. eexists. reflexivity. }
    destruct Hjoin as [tl' Hjoin].
    pose proof (parse_members_render ms Hms (k, v) fuel rest Hv) as Hel.
    rewrite Hjoin in *. rewrite parse_value_object, Hel; [reflexivity|].
    cbn [weight fold_right snd] in *. lia.
Qed.

Lemma join_weight {A} (w : A -> nat) (r : A -> list ascii) (sep : list ascii) (l : list A) :
  1 <= length sep ->
  Forall (fun x => w x <= length (r x)) l ->
  fold_right (fun x n => S (Nat.max (w x) n)) 0 l <= S (length (join sep (map r l))).
Proof.
  intros Hsep. induction 1 as [|x l Hx Hl IH]; [simpl; lia|].
  destruct l as [|y l].
  - simpl. lia.
  - change (map r (x :: y :: l)) with (r x :: r y :: map r l).
    rewrite join_cons2. rewrite !length_app.
    change (r y :: map r l) with (map r (y :: l)).
    cbn [fold_right] in *. lia.
Qed.

Lemma weight_le_length (j : json) :
  finite_json j = true -> weight j <= length (render j).
Proof.
  induction j as [|b|n|x|s|l IH|l IH] using json_nested_ind; intros Hj;
    try (match goal with
         | |- weight ?j <= _ =>
             destruct (render_head j Hj) as (c & tl & -> & _); simpl; lia
         end).
  - rewrite render_JArr. cbn [finite_json] in Hj. rewrite forallb_forall in Hj.
    assert (IH' : Forall (fun x => weight x <= length (render x)) l).
    { rewrite List.Forall_forall in IH |- *. intros y Hy. apply (IH y Hy), Hj, Hy. }
    clear IH. rename IH' into IH. cbn [weight length]. rewrite length_app. cbn [length].
    pose proof (join_weight weight render (list_ascii_of_string ", ") l) as H.
    specialize (H ltac:(simpl; lia) IH). lia.
  - rewrite render_JObj. cbn [weight length]. rewrite length_app. cbn [length].
    cbn [finite_json] in Hj. rewrite forallb_forall in Hj.
    pose proof (join_weight (fun kv => weight (snd kv)) render_member
                  (list_ascii_of_string ", ") l) as H.
    assert (Hl : Forall (fun kv => weight (snd kv) <= length (render_member kv)) l).
    { rewrite List.Forall_forall in IH |- *. intros [k v] Hkv.
      pose proof (IH _ Hkv (Hj _ Hkv)) as Hv. unfold render_member.
      rewrite !length_app. simpl in *. lia. }
    specialize (H ltac:(simpl; lia) Hl). lia.
Qed.

(** The text [json.dumps] writes for a document whose floats are finite
    is valid JSON, and it decodes to that document. *)
Lemma json_loads_text_of (j : json) :
  finite_json j = true -> json_loads (text_of j) = Some j.
Proof.
  intros Hj. unfold json_loads, text_of. rewrite list_ascii_of_string_of_list_ascii.
  pose proof (render_decodes j Hj (S (length (render j))) []) as H.
  rewrite List.app_nil_r in H. rewrite H; [reflexivity | | exact I].
  pose proof (weight_le_length j Hj). lia.
Qed.

(** ** The serializer: plain inputs *)

(** On a plain value the probed capabilities are the conversions of its
    ints. *)
Lemma plain_behaves (max_digits : N) (v : value) :
  plain v = true -> behaves max_digits v = ints_within max_digits v.
Proof.
  induction v as [| |b|n|x|s|u|xs IH|xs IH|items IH|q attrs IH] using value_nested_ind;
    intros Hp; try reflexivity; try discriminate Hp; simpl in *;
    rewrite forallb_forall in Hp; rewrite List.Forall_forall in IH;
    apply forallb_ext_in; intros y Hy; apply (IH y Hy), Hp, Hy.
Qed.

Lemma sanitized_plain (v : value) : sanitized v = true -> plain v = true.
Proof.
  induction v as [| |b|n|x|s|u|xs IH|xs IH|items IH|q attrs IH] using value_nested_ind;
    intros Hs; try reflexivity; try discriminate Hs; simpl in *;
    rewrite forallb_forall in *; rewrite List.Forall_forall in IH;
    intros y Hy; apply (IH y Hy), Hs, Hy.
Qed.

(** The document of a value whose floats are finite has finite floats
    only. *)
Lemma iterencode_finite (max_digits : N) (fuel : nat) :
  forall v j, iterencode max_digits default fuel v = Ok j ->
              floats_finite v = true -> finite_json j = true.
Proof.
  induction fuel as [|fuel IH]; intros v j Hj Hv; [discriminate Hj|].
  destruct v as [| |b|n|x|s|u|xs|xs|items|q attrs]; cbn [iterencode] in Hj;
    try (injection Hj as <-; reflexivity).
  - apply (IH _ _ Hj). reflexivity.
  - destruct (exceeds_digit_limit max_digits n); [discriminate Hj|].
    injection Hj as <-. reflexivity.
  - injection Hj as <-. exact Hv.
  - apply (IH _ _ Hj). reflexivity.
  - apply bind_Ok in Hj as (js & Hjs & [= <-]). cbn [finite_json floats_finite] in *.
    apply traverse_Ok_Forall2 in Hjs.
    induction Hjs as [|y j' ys js Hy _ IHl]; [reflexivity|].
    simpl in *. apply andb_prop in Hv as [Hvy Hv].
    rewrite (IH _ _ Hy Hvy), (IHl Hv). reflexivity.
  - apply bind_Ok in Hj as (js & Hjs & [= <-]). cbn [finite_json floats_finite] in *.
    apply traverse_Ok_Forall2 in Hjs.
    induction Hjs as [|y j' ys js Hy _ IHl]; [reflexivity|].
    simpl in *. apply andb_prop in Hv as [Hvy Hv].
    rewrite (IH _ _ Hy Hvy), (IHl Hv). reflexivity.
  - apply bind_Ok in Hj as (ms & Hms & [= <-]). cbn [finite_json floats_finite] in *.
    apply traverse_Ok_Forall2 in Hms.
    induction Hms as [|[k y] m items ms Hm _ IHl]; [reflexivity|].
    simpl in *. apply andb_prop in Hv as [Hvy Hv].
    apply bind_Ok in Hm as (j' & Hj' & [= <-]). simpl.
    rewrite (IH _ _ Hj' Hvy), (IHl Hv). reflexivity.
  - rewrite floats_finite_VObj in Hv.
    apply bind_Ok in Hj as (d & Hd & Hj). rewrite Hd in Hv.
    apply (IH _ _ Hj Hv).
Qed.

Lemma remove_unwanted_items_floats_finite (v : value) :
  floats_finite v = true -> floats_finite (remove_unwanted_items v) = true.
Proof.
  induction v as [| |b|n|x|s|u|xs IH|xs IH|items IH|q attrs IH] using value_nested_ind;
    intros Hb; try exact Hb.
  - simpl in *. rewrite forallb_forall in *. intros y Hy.
    apply List.in_map_iff in Hy as (x & <- & Hx).
    rewrite List.Forall_forall in IH. apply IH; [exact Hx | apply Hb, Hx].
  - rewrite remove_unwanted_items_VDict. simpl in *. rewrite forallb_forall in *.
    intros y Hy. apply List.in_map_iff in Hy as (kv & <- & Hkv).
    apply List.filter_In in Hkv as [Hkv _].
    rewrite List.Forall_forall in IH. apply (IH kv Hkv), Hb, Hkv.
Qed.

(** What [safe_serialize] returns is the text of the document the
    encoder has built, which is valid JSON when every float that is
    written is finite. *)
Lemma safe_serialize_valid (max_digits : N) (v : value) (text : string) :
  safe_serialize max_digits v = Ok text ->
  floats_finite (remove_unwanted_items v) = true ->
  exists j, text = text_of j /\ json_loads text = Some j.
Proof.
  unfold safe_serialize, json_dumps. intros H Hv.
  apply bind_Ok in H as (j & Hj & [= <-]).
  exists j. split; [reflexivity|].
  apply json_loads_text_of. eapply iterencode_finite; [exact Hj | exact Hv].
Qed.

(** An int beyond the digit limit makes [safe_serialize] raise. *)
Lemma safe_serialize_exceeds (max_digits : N) (n : Z) :
  exceeds_digit_limit max_digits n = true ->
  safe_serialize max_digits (VDict [("n", VInt n)]) = Raise ValueError.
Proof.
  intros Hn. unfold safe_serialize, json_dumps.
  change (remove_unwanted_items (VDict [("n", VInt n)])) with (VDict [("n", VInt n)]).
  cbn [height map snd list_max Nat.max iterencode traverse bind fst].
  rewrite Hn. reflexivity.
Qed.

(** C5, as the specification states it, fails twice.  A float is a
    primitive, and for the float not-a-number [safe_serialize] returns a
    text with the word [NaN], which is not JSON.  And on an int beyond
    the digit limit, here [10 ** 4300] under the default limit of 4300
    digits, it raises [ValueError]. *)
Lemma safe_serialize_plain_fails :
  plain (VDict [("x", VFloat FNan)]) = true /\
  safe_serialize default_max_str_digits (VDict [("x", VFloat FNan)])
  = Ok (text_of (JObj [("x", JFloat FNan)])) /\
  list_ascii_of_string (text_of (JObj [("x", JFloat FNan)]))
  = ["{"; quote; "x"; quote; ":"; " "; "N"; "a"; "N"; "}"]%char /\
  ~ valid_json (text_of (JObj [("x", JFloat FNan)])) /\
  plain (VDict [("n", VInt big_int_example)]) = true /\
  safe_serialize default_max_str_digits (VDict [("n", VInt big_int_example)])
  = Raise ValueError.
Proof.
  split; [reflexivity|]. split; [reflexivity|]. split; [reflexivity|]. split.
  - intros [j Hj]. discriminate Hj.
  - split; [reflexivity|]. apply safe_serialize_exceeds, big_int_example_exceeds.
Qed.

(** C5 (amended): for every input composed only of primitives, lists,
    tuples, dicts and UUIDs, whatever its depth, in which no int has more
    digits than the interpreter's limit on the conversion of ints to
    strings and every float is finite, [safe_serialize] does not raise
    and returns valid JSON text. *)
Theorem safe_serialize_plain (max_digits : N) (v : value)
    (Hv : plain v = true)
    (Hints : ints_within max_digits v = true)
    (Hfloats : floats_finite v = true) :
  exists text, safe_serialize max_digits v = Ok text /\ valid_json text.
Proof.
  assert (Hb : behaves max_digits v = true) by (rewrite plain_behaves; assumption).
  destruct (safe_serialize_returns max_digits v Hb) as (j & _ & Hj).
  exists (text_of j). split; [exact Hj|].
  destruct (safe_serialize_valid max_digits v _ Hj) as (j' & _ & Hj').
  - apply remove_unwanted_items_floats_finite, Hfloats.
  - exists j'. exact Hj'.
Qed.

Lemma safe_serialize_plain_witness :
  exists text,
    safe_serialize default_max_str_digits
      (VDict [("id", VUuid uuid_example);
              ("xs", VList [VInt (-12); VNone; VTuple [VBool true; VStr "a b"]]);
              ("t", VFloat (FFinite {| fl_negative := true;
                                       fl_integer := Decimal.D2 Decimal.Nil;
                                       fl_fraction := Some (Decimal.D5 Decimal.Nil);
                                       fl_exponent := Some (Decimal.Neg
                                                              (Decimal.D0 (Decimal.D7 Decimal.Nil)))
                                    |}))])
    = Ok text /\ valid_json text.
Proof.
  apply safe_serialize_plain; reflexivity.
Defined.

(** ** The instance registry *)

Section RegistryFacts.
Variable init : class -> list value -> list (string * value) -> result unit.

Lemma singleton_cached (class_ : class) (args : list value)
    (kwargs : list (string * value)) (st : state) (i : instance) :
  ao_instances st !! class_ = Some i ->
  singleton init class_ args kwargs st = (Ok i, st).
Proof.
  intros Hi. unfold singleton, mbind_M, contains, getitem, ret.
  rewrite Hi. rewrite bool_decide_eq_true_2 by eauto. cbn [negb]. rewrite Hi. reflexivity.
Qed.

Lemma singleton_first (class_ : class) (args : list value)
    (kwargs : list (string * value)) (st : state) :
  ao_instances st !! class_ = None ->
  singleton init class_ args kwargs st =
  match init class_ args kwargs with
  | Ok _ =>
      let i := {| inst_addr := next_addr st; inst_class := class_;
                  inst_args := args; inst_kwargs := kwargs |} in
      (Ok i, {| ao_instances := <[class_ := i]> (ao_instances st);
                next_addr := S (next_addr st) |})
  | Raise e => (Raise e, st)
  end.
Proof.
  intros Hi. unfold singleton, mbind_M, contains, getitem, construct, setitem, ret.
  rewrite Hi. rewrite bool_decide_eq_false_2 by (intros [? ?]; discriminate).
  cbn [negb]. destruct (init class_ args kwargs) as [[]|e]; [|reflexivity].
  cbn [ao_instances]. rewrite lookup_insert_eq. reflexivity.
Qed.

(** With a true [use_singleton], given or by default, the conditional
    form is [singleton] on the remaining keyword arguments. *)
Lemma conditional_singleton_true (class_ : class) (args : list value)
    (kwargs kwargs' : list (string * value)) (v : value) (st : state) :
  dict_pop "use_singleton" (VBool true) kwargs = (v, kwargs') ->
  truthy v = true ->
  conditional_singleton init class_ args kwargs st = singleton init class_ args kwargs' st.
Proof.
  intros Hpop Hv. unfold conditional_singleton. rewrite Hpop, Hv. reflexivity.
Qed.

Lemma conditional_singleton_false (class_ : class) (args : list value)
    (kwargs kwargs' : list (string * value)) (v : value) (st : state) :
  dict_pop "use_singleton" (VBool true) kwargs = (v, kwargs') ->
  truthy v = false ->
  conditional_singleton init class_ args kwargs st = construct init class_ args kwargs' st.
Proof.
  intros Hpop Hv. unfold conditional_singleton. rewrite Hpop, Hv. reflexivity.
Qed.

Lemma dict_pop_absent (key : string) (dflt : value) (kwargs : list (string * value)) :
  Forall (fun kv => String.eqb (fst kv) key = false) kwargs ->
  dict_pop key dflt kwargs = (dflt, kwargs).
Proof.
  induction 1 as [|[k v] kwargs Hk _ IH]; simpl in *; [reflexivity|].
  rewrite Hk, IH. reflexivity.
Qed.

(** What a call of [singleton] does to the state. *)
Lemma singleton_state (class_ : class) (args : list value)
    (kwargs : list (string * value)) (st : state) :
  snd (singleton init class_ args kwargs st) = st \/
  (ao_instances st !! class_ = None /\
   snd (singleton init class_ args kwargs st) =
   {| ao_instances :=
        <[class_ := {| inst_addr := next_addr st; inst_class := class_;
                       inst_args := args; inst_kwargs := kwargs |}]> (ao_instances st);
      next_addr := S (next_addr st) |}).
Proof.
  destruct (ao_instances st !! class_) as [i|] eqn:Hi.
  - left. rewrite (singleton_cached _ _ _ _ i Hi). reflexivity.
  - rewrite (singleton_first _ _ _ _ Hi).
    destruct (init class_ args kwargs); [right; split; reflexivity | left; reflexivity].
Qed.

(** What a call of [construct] does to the state: at most one more
    allocation, the registry as it was. *)
Lemma construct_state (class_ : class) (args : list value)
    (kwargs : list (string * value)) (st : state) :
  ao_instances (snd (construct init class_ args kwargs st)) = ao_instances st /\
  next_addr st <= next_addr (snd (construct init class_ args kwargs st)).
Proof.
  unfold construct. destruct (init class_ args kwargs); simpl; split; auto.
Qed.

(** A call other than [clear_singletons] keeps the entries of the
    registry. *)
Lemma exec_keeps_entry (c : call) (st : state) (class_ : class) (i : instance) :
  is_clear c = false ->
  ao_instances st !! class_ = Some i ->
  ao_instances (exec init c st) !! class_ = Some i.
Proof.
  intros Hc Hi.
  assert (Hsingle : forall c' a k,
             ao_instances (snd (singleton init c' a k st)) !! class_ = Some i).
  { intros c' a k. destruct (singleton_state c' a k st) as [-> | [Hnone ->]]; [exact Hi|].
    cbn [ao_instances]. rewrite lookup_insert_ne; [exact Hi|].
    intros ->. rewrite Hnone in Hi. discriminate Hi. }
  destruct c as [c' a k | c' a k |]; [| |discriminate Hc]; cbn [exec].
  - apply Hsingle.
  - unfold conditional_singleton.
    destruct (dict_pop "use_singleton" (VBool true) k) as [v k'].
    destruct (truthy v); [apply Hsingle|].
    destruct (construct_state c' a k' st) as [-> _]. exact Hi.
Qed.

Lemma exec_all_keeps_entry (calls : list call) (st : state) (class_ : class)
    (i : instance) :
  no_clear calls = true ->
  ao_instances st !! class_ = Some i ->
  ao_instances (exec_all init calls st) !! class_ = Some i.
Proof.
  revert st. induction calls as [|c calls IH]; intros st Hnc Hi; [exact Hi|].
  unfold no_clear in Hnc. simpl in Hnc. apply andb_prop in Hnc as [Hc Hnc].
  apply negb_true_iff in Hc.
  apply IH; [exact Hnc | apply exec_keeps_entry; assumption].
Qed.

(** Every call keeps the allocator ahead of the registry. *)
Lemma exec_fresh (c : call) (st : state) :
  registry_fresh st -> registry_fresh (exec init c st).
Proof.
  assert (Hsingle : forall c' a k, registry_fresh st ->
                                   registry_fresh (snd (singleton init c' a k st))).
  { intros c' a k Hst. destruct (singleton_state c' a k st) as [-> | [_ ->]]; [exact Hst|].
    intros c0 i0. cbn [ao_instances next_addr].
    destruct (decide (c' = c0)) as [->|Hne].
    - rewrite lookup_insert_eq. intros [= <-]. simpl. lia.
    - rewrite lookup_insert_ne by exact Hne. intros H. specialize (Hst _ _ H). lia. }
  intros Hst. destruct c as [c' a k | c' a k |]; cbn [exec].
  - apply Hsingle, Hst.
  - unfold conditional_singleton.
    destruct (dict_pop "use_singleton" (VBool true) k) as [v k'].
    destruct (truthy v); [apply Hsingle, Hst|].
    destruct (construct_state c' a k' st) as [Hreg Hnext].
    intros c0 i0 H. rewrite Hreg in H. specialize (Hst _ _ H). lia.
  - intros c0 i0 H. simpl in H. rewrite lookup_empty in H. discriminate H.
Qed.

Lemma reachable_fresh (st : state) : reachable init st -> registry_fresh st.
Proof.
  intros [calls ->].
  assert (H : forall st0, registry_fresh st0 -> registry_fresh (exec_all init calls st0)).
  { induction calls as [|c calls IH]; intros st0 Hst0; [exact Hst0|].
    apply IH, exec_fresh, Hst0. }
  apply H. intros c i Hi. simpl in Hi. rewrite lookup_empty in Hi. discriminate Hi.
Qed.
End RegistryFacts.

(** C7: the first call of [singleton(C)], for a class not yet in the
    registry and arguments its constructor accepts, constructs one
    instance from these arguments; every later call, whatever its
    arguments and whatever other calls short of [clear_singletons] come
    in between, returns that very instance and constructs nothing. *)
Theorem singleton_same_instance
    (init : class -> list value -> list (string * value) -> result unit)
    (class_ : class) (args1 : list value) (kwargs1 : list (string * value)) (st : state)
    (Hfirst : ao_instances st !! class_ = None)
    (Hinit : init class_ args1 kwargs1 = Ok tt) :
  exists i st1,
    singleton init class_ args1 kwargs1 st = (Ok i, st1) /\
    i = {| inst_addr := next_addr st; inst_class := class_;
           inst_args := args1; inst_kwargs := kwargs1 |} /\
    next_addr st1 = S (next_addr st) /\
    forall calls args2 kwargs2,
      no_clear calls = true ->
      singleton init class_ args2 kwargs2 (exec_all init calls st1)
      = (Ok i, exec_all init calls st1).
Proof.
  rewrite (singleton_first init _ _ _ _ Hfirst), Hinit.
  eexists _, _. split; [reflexivity|]. split; [reflexivity|]. split; [reflexivity|].
  intros calls args2 kwargs2 Hnc. apply singleton_cached.
  apply exec_all_keeps_entry; [exact Hnc|].
  cbn [ao_instances]. apply lookup_insert_eq.
Qed.

(** [singleton(C)(1)] followed by [singleton(C)(2)]: the same instance,
    constructed with the argument 1. *)
Lemma singleton_same_instance_witness :
  exists i st1,
    singleton init_any class_example [VInt 1] [] initial_state = (Ok i, st1) /\
    singleton init_any class_example [VInt 2] [] st1 = (Ok i, st1) /\
    inst_args i = [VInt 1].
Proof.
  destruct (singleton_same_instance init_any class_example [VInt 1] [] initial_state)
    as (i & st1 & H1 & Hi & _ & Hlater); [reflexivity | reflexivity |].
  exists i, st1. split; [exact H1|]. split.
  - apply (Hlater [] [VInt 2] []). reflexivity.
  - rewrite Hi. reflexivity.
Defined.

(** C8: with a false [use_singleton] the conditional form constructs an
    instance at each call: two calls return two distinct instances, none
    of them in the registry, and leave the registry as it was, so that
    what [singleton] returns afterwards is what it would have returned
    before, the cached instance of a class that has one and otherwise an
    instance constructed anew.  With a true [use_singleton], given or by
    default, it is [singleton]. *)
Theorem conditional_singleton_bypass
    (init : class -> list value -> list (string * value) -> result unit)
    (class_ : class) (args : list value) (kwargs kwargs' : list (string * value))
    (st : state)
    (Hst : reachable init st)
    (Hpop : dict_pop "use_singleton" (VBool true) kwargs = (VBool false, kwargs'))
    (Hinit : init class_ args kwargs' = Ok tt) :
  exists i1 st1 i2 st2,
    conditional_singleton init class_ args kwargs st = (Ok i1, st1) /\
    conditional_singleton init class_ args kwargs st1 = (Ok i2, st2) /\
    i1 <> i2 /\
    (forall c i, ao_instances st !! c = Some i -> i <> i1 /\ i <> i2) /\
    ao_instances st1 = ao_instances st /\
    ao_instances st2 = ao_instances st /\
    (forall c a k,
       same_up_to_address (fst (singleton init c a k st)) (fst (singleton init c a k st2)) /\
       (is_Some (ao_instances st !! c) ->
        fst (singleton init c a k st2) = fst (singleton init c a k st)) /\
       fst (singleton init c a k st2) <> Ok i1 /\
       fst (singleton init c a k st2) <> Ok i2) /\
    (forall v kwargs0 kwargs0',
       dict_pop "use_singleton" (VBool true) kwargs0 = (v, kwargs0') ->
       truthy v = true ->
       conditional_singleton init class_ args kwargs0 st
       = singleton init class_ args kwargs0' st) /\
    (forall kwargs0,
       Forall (fun kv => String.eqb (fst kv) "use_singleton" = false) kwargs0 ->
       conditional_singleton init class_ args kwargs0 st
       = singleton init class_ args kwargs0 st).
Proof.
  pose proof (reachable_fresh init st Hst) as Hfresh.
  rewrite !(conditional_singleton_false init _ _ _ _ _ _ Hpop eq_refl).
  unfold construct at 1. rewrite Hinit.
  eexists _, _. 
  rewrite (conditional_singleton_false init _ _ _ _ _ _ Hpop eq_refl).
  unfold construct at 1. rewrite Hinit. cbn [ao_instances next_addr].
  eexists _, _.
  split; [reflexivity|]. split; [reflexivity|].
  split; [intros [= H]; lia|].
  split.
  { intros c i Hi. specialize (Hfresh c i Hi).
    split; intros ->; simpl in Hfresh; lia. }
  split; [reflexivity|]. split; [reflexivity|].
  split.
  { intros c a k. destruct (ao_instances st !! c) as [i|] eqn:Hi.
    - rewrite (singleton_cached init c a k st i Hi).
      rewrite (singleton_cached init c a k _ i) by exact Hi.
      specialize (Hfresh c i Hi). cbn [fst same_up_to_address].
      repeat split; try reflexivity; intros [= ->]; simpl in Hfresh; lia.
    - rewrite (singleton_first init c a k st Hi).
      rewrite (singleton_first init c a k _) by exact Hi.
      destruct (init c a k) as [[]|e]; cbn [fst same_up_to_address next_addr].
      + repeat split; try reflexivity; try (intros [? ?]; discriminate);
          intros [= H]; lia.
      + repeat split; try (intros [? ?]; discriminate); discriminate. }
  split.
  - intros v kwargs0 kwargs0' Hpop0 Hv. apply (conditional_singleton_true init _ _ _ _ _ _ Hpop0 Hv).
  - intros kwargs0 Habsent.
    apply (conditional_singleton_true init _ _ _ kwargs0 (VBool true));
      [apply dict_pop_absent, Habsent | reflexivity].
Qed.

Lemma conditional_singleton_bypass_witness :
  exists i1 st1 i2 st2,
    conditional_singleton init_any class_example [VInt 1] [("use_singleton", VBool false)]
      (exec_all init_any [CallSingleton class_example [VInt 0] []] initial_state)
    = (Ok i1, st1) /\
    conditional_singleton init_any class_example [VInt 1] [("use_singleton", VBool false)] st1
    = (Ok i2, st2) /\
    i1 <> i2 /\
    fst (singleton init_any class_example [] [] st2)
    = fst (singleton init_any class_example [] []
             (exec_all init_any [CallSingleton class_example [VInt 0] []] initial_state)).
Proof.
  destruct (conditional_singleton_bypass init_any class_example [VInt 1]
              [("use_singleton", VBool false)] []
              (exec_all init_any [CallSingleton class_example [VInt 0] []] initial_state))
    as (i1 & st1 & i2 & st2 & H1 & H2 & Hne & _ & _ & _ & Hsame & _);
    [eexists; reflexivity | reflexivity | reflexivity |].
  exists i1, st1, i2, st2. split; [exact H1|]. split; [exact H2|]. split; [exact Hne|].
  apply (Hsame class_example [] []). eexists. reflexivity.
Defined.

(** C9: [clear_singletons] leaves the registry empty, in one step; a
    call of [singleton] after it, with arguments the constructor
    accepts, constructs an instance that is none of those the registry
    held before. *)
Theorem clear_singletons_discards_all
    (init : class -> list value -> list (string * value) -> result unit)
    (st : state) (Hst : reachable init st) :
  exists st',
    clear_singletons st = (Ok tt, st') /\
    ao_instances st' = ∅ /\
    (forall c, ao_instances st' !! c = None) /\
    forall class_ args kwargs,
      init class_ args kwargs = Ok tt ->
      exists i st'',
        singleton init class_ args kwargs st' = (Ok i, st'') /\
        inst_class i = class_ /\ inst_args i = args /\ inst_kwargs i = kwargs /\
        ao_instances st'' !! class_ = Some i /\
        forall c i0, ao_instances st !! c = Some i0 -> i <> i0.
Proof.
  pose proof (reachable_fresh init st Hst) as Hfresh.
  eexists. split; [reflexivity|]. split; [reflexivity|].
  split; [intros c; apply lookup_empty|].
  intros class_ args kwargs Hinit.
  rewrite singleton_first by apply lookup_empty. rewrite Hinit.
  eexists _, _. split; [reflexivity|].
  repeat (split; [reflexivity|]).
  split; [apply lookup_insert_eq|].
  intros c i0 Hi0 <-. specialize (Hfresh c _ Hi0). simpl in Hfresh. lia.
Qed.

Lemma clear_singletons_discards_all_witness :
  exists st' i0 i st'',
    clear_singletons
      (exec_all init_any [CallSingleton class_example [VInt 1] []] initial_state)
    = (Ok tt, st') /\
    ao_instances (exec_all init_any [CallSingleton class_example [VInt 1] []] initial_state)
      !! class_example = Some i0 /\
    singleton init_any class_example [] [] st' = (Ok i, st'') /\
    i <> i0.
Proof.
  destruct (clear_singletons_discards_all init_any
              (exec_all init_any [CallSingleton class_example [VInt 1] []] initial_state))
    as (st' & Hclear & _ & _ & Hnew); [eexists; reflexivity|].
  destruct (Hnew class_example [] [] eq_refl) as (i & st'' & Hi & _ & _ & _ & _ & Hdistinct).
  exists st', {| inst_addr := 0; inst_class := class_example;
                 inst_args := [VInt 1]; inst_kwargs := [] |}, i, st''.
  split; [exact Hclear|]. split; [reflexivity|]. split; [exact Hi|].
  apply (Hdistinct class_example). reflexivity.
Defined.

(** * Further properties *)

(** ** The sanitizer *)

(** X1: on values whose dicts are keyed by strings, the probe
    [is_jsonable] answers [True] exactly when [json.dumps] of its
    argument returns, which is exactly when the argument is made of
    [None], booleans, ints, floats, strings, lists, tuples and dicts only
    and none of its ints has more digits than the interpreter allows; it
    answers [False] only when the argument holds a value of another
    kind; the one exception it lets through is the [ValueError] of
    [json.dumps] for an int beyond the digit limit, so that it does not
    raise when there is no such int. *)
Theorem is_jsonable_decides (max_digits : N) (x : value) :
  (is_jsonable max_digits x = Ok true
   <-> sanitized x = true /\ ints_within max_digits x = true) /\
  (is_jsonable max_digits x = Ok true
   <-> returns (json_dumps max_digits JSONEncoder_default x)) /\
  (is_jsonable max_digits x = Ok false -> sanitized x = false) /\
  (forall e, is_jsonable max_digits x = Raise e ->
     e = ValueError /\ ints_within max_digits x = false) /\
  (ints_within max_digits x = true -> is_jsonable max_digits x = Ok (sanitized x)).
Proof.
  pose proof (is_jsonable_cases max_digits x) as Hcases.
  split; [|split; [|split; [|split]]].
  - split.
    + intros H. rewrite H in Hcases. unfold encodable in Hcases.
      apply andb_prop in Hcases. exact Hcases.
    + intros [Hs Hi]. apply is_jsonable_encodable. unfold encodable.
      rewrite Hs, Hi. reflexivity.
  - split.
    + intros H. rewrite H in Hcases. apply json_dumps_encodable, Hcases.
    + intros H. apply is_jsonable_encodable, json_dumps_returns_encodable, H.
  - intros H. rewrite H in Hcases. exact Hcases.
  - intros e H. rewrite H in Hcases. exact Hcases.
  - apply is_jsonable_sanitized.
Qed.

Lemma is_jsonable_decides_witness :
  is_jsonable default_max_str_digits (VTuple [VInt 1; VFloat FNan; VNone]) = Ok true /\
  is_jsonable default_max_str_digits (VList [VInt 1; VEllipsis]) = Ok false.
Proof.
  split.
  - apply (is_jsonable_decides default_max_str_digits (VTuple [VInt 1; VFloat FNan; VNone])).
    split; reflexivity.
  - apply (is_jsonable_decides default_max_str_digits (VList [VInt 1; VEllipsis])).
    reflexivity.
Defined.

Lemma filter_entries_keys (max_digits : N) (items items' : list (string * value)) :
  traverse (fun kv => v' <- filter_item max_digits (snd kv) ;; Ok (fst kv, v')) items
  = Ok items' ->
  keys items' = keys items.
Proof.
  intros H. apply traverse_Ok_Forall2 in H.
  induction H as [|[k v] kv' items items' Hkv _ IH]; [reflexivity|].
  simpl in Hkv. apply bind_Ok in Hkv as (v' & _ & [= <-]).
  unfold keys in *. simpl. rewrite IH. reflexivity.
Qed.

Lemma filter_dict_dict_shape (max_digits : N) (items : list (string * value)) (r : value) :
  filter_dict max_digits (VDict items) = Ok r ->
  exists items', r = VDict items' /\ keys items' = keys items.
Proof.
  rewrite filter_dict_VDict. intros H. apply bind_Ok in H as (items' & Hitems' & [= <-]).
  exists items'. split; [reflexivity | eapply filter_entries_keys, Hitems'].
Qed.

Lemma filter_dict_list_shape (max_digits : N) (xs : list value) (r : value) :
  filter_dict max_digits (VList xs) = Ok r ->
  exists xs', r = VList xs' /\ length xs' = length xs.
Proof.
  rewrite filter_dict_VList. intros H. apply bind_Ok in H as (xs' & Hxs' & [= <-]).
  exists xs'. split; [reflexivity | eapply traverse_length, Hxs'].
Qed.

(** X2: [filter_unjsonable] keeps the shape of a container: of a dict it
    returns a dict with the same keys in the same order, of a list a list
    of the same length; and it does return one when no int of the input
    is beyond the digit limit. *)
Theorem filter_unjsonable_shape (max_digits : N) :
  (forall items,
      (forall r, filter_unjsonable max_digits (VDict items) = Ok r ->
                 exists items', r = VDict items' /\ keys items' = keys items) /\
      (ints_within max_digits (VDict items) = true ->
       exists items',
         filter_unjsonable max_digits (VDict items) = Ok (VDict items')
         /\ keys items' = keys items)) /\
  (forall xs,
      (forall r, filter_unjsonable max_digits (VList xs) = Ok r ->
                 exists xs', r = VList xs' /\ length xs' = length xs) /\
      (ints_within max_digits (VList xs) = true ->
       exists xs',
         filter_unjsonable max_digits (VList xs) = Ok (VList xs')
         /\ length xs' = length xs)).
Proof.
  unfold filter_unjsonable. split.
  - intros items. split; [apply filter_dict_dict_shape|].
    intros Hi. destruct (filter_dict_returns _ _ Hi) as [r Hr].
    destruct (filter_dict_dict_shape _ _ _ Hr) as (items' & -> & Hk).
    exists items'. split; assumption.
  - intros xs. split; [apply filter_dict_list_shape|].
    intros Hi. destruct (filter_dict_returns _ _ Hi) as [r Hr].
    destruct (filter_dict_list_shape _ _ _ Hr) as (xs' & -> & Hl).
    exists xs'. split; assumption.
Qed.

Lemma filter_unjsonable_shape_witness :
  exists items',
    filter_unjsonable default_max_str_digits
      (VDict [("b", VEllipsis); ("a", VUuid uuid_example)]) = Ok (VDict items')
    /\ keys items' = ["b"; "a"].
Proof.
  destruct (filter_unjsonable_shape default_max_str_digits) as [Hdict _].
  apply (Hdict [("b", VEllipsis); ("a", VUuid uuid_example)]). reflexivity.
Defined.

(** X3: among values whose dicts are keyed by strings, the values
    [filter_unjsonable] returns as they are are exactly the UUIDs and the
    values [json.dumps] encodes, that is the Sanitized Values none of
    whose ints is beyond the digit limit: it changes nothing in data that
    is JSON-safe already, and does not return any other input
    unchanged. *)
Theorem filter_unjsonable_fixed_points (max_digits : N) (v : value) :
  filter_unjsonable max_digits v = Ok v
  <-> (sanitized v = true /\ ints_within max_digits v = true) \/ isinstance_UUID v = true.
Proof.
  unfold filter_unjsonable. split.
  - intros Hv. pose proof (filter_dict_outcome max_digits v) as H. rewrite Hv in H.
    cbn [filter_outcome] in H.
    destruct (isinstance_UUID v); [right; reflexivity | left].
    specialize (H eq_refl). unfold encodable in H. apply andb_prop in H. exact H.
  - intros [[Hs Hi] | Hu].
    + apply filter_dict_fixed. unfold encodable. rewrite Hs, Hi. reflexivity.
    + destruct v; try discriminate Hu. reflexivity.
Qed.

Lemma filter_unjsonable_fixed_points_witness :
  filter_unjsonable default_max_str_digits (VDict [("t", VTuple [VInt 1; VFloat FNan])])
  = Ok (VDict [("t", VTuple [VInt 1; VFloat FNan])]) /\
  ((sanitized (VList [VUuid uuid_example]) = true /\
    ints_within default_max_str_digits (VList [VUuid uuid_example]) = true)
   \/ isinstance_UUID (VList [VUuid uuid_example]) = true ->
   filter_unjsonable default_max_str_digits (VList [VUuid uuid_example])
   = Ok (VList [VUuid uuid_example])).
Proof.
  split.
  - apply (filter_unjsonable_fixed_points default_max_str_digits
             (VDict [("t", VTuple [VInt 1; VFloat FNan])])).
    left. split; reflexivity.
  - apply (filter_unjsonable_fixed_points default_max_str_digits
             (VList [VUuid uuid_example])).
Defined.

Lemma remove_unwanted_items_ints_within (max_digits : N) (v : value) :
  ints_within max_digits v = true -> ints_within max_digits (remove_unwanted_items v) = true.
Proof.
  induction v as [| |b|n|x|s|u|xs IH|xs IH|items IH|q attrs IH] using value_nested_ind;
    intros Hb; try exact Hb.
  - simpl in *. rewrite forallb_forall in *. intros y Hy.
    apply List.in_map_iff in Hy as (x & <- & Hx).
    rewrite List.Forall_forall in IH. apply IH; [exact Hx | apply Hb, Hx].
  - rewrite remove_unwanted_items_VDict. simpl in *. rewrite forallb_forall in *.
    intros y Hy. apply List.in_map_iff in Hy as (kv & <- & Hkv).
    apply List.filter_In in Hkv as [Hkv _].
    rewrite List.Forall_forall in IH. apply (IH kv Hkv), Hb, Hkv.
Qed.

(** What the sanitizer returns is serialized. *)
Lemma filter_dict_serialized (max_digits : N) (d r : value) :
  filter_dict max_digits d = Ok r ->
  behaves max_digits r = true.
Proof.
  intros Hr. pose proof (filter_dict_outcome max_digits d) as H. rewrite Hr in H.
  cbn [filter_outcome] in H.
  destruct (isinstance_UUID d) eqn:Hu.
  - destruct d; try discriminate Hu. rewrite filter_dict_UUID in Hr.
    injection Hr as <-. reflexivity.
  - specialize (H eq_refl). unfold encodable in H. apply andb_prop in H as [Hs Hi].
    rewrite plain_behaves; [exact Hi | apply sanitized_plain, Hs].
Qed.

(** X4: on values whose dicts are keyed by strings, and whatever the
    objects in the input do, what [filter_unjsonable] returns is
    serialized by [safe_serialize] without an exception, to a text that
    is valid JSON when every float in it is finite; [filter_unjsonable]
    itself returns when no int of the input is beyond the digit limit. *)
Theorem safe_serialize_after_filter (max_digits : N) (d : value) :
  (forall r, filter_unjsonable max_digits d = Ok r ->
     exists text, safe_serialize max_digits r = Ok text /\
                  (floats_finite r = true -> valid_json text)) /\
  (ints_within max_digits d = true ->
   exists r text,
     filter_unjsonable max_digits d = Ok r /\ safe_serialize max_digits r = Ok text).
Proof.
  unfold filter_unjsonable.
  assert (Hser : forall r, filter_dict max_digits d = Ok r ->
                   exists text, safe_serialize max_digits r = Ok text /\
                                (floats_finite r = true -> valid_json text)).
  { intros r Hr.
    destruct (safe_serialize_returns max_digits r (filter_dict_serialized _ _ _ Hr))
      as (j & _ & Hj).
    exists (text_of j). split; [exact Hj|]. intros Hf.
    destruct (safe_serialize_valid max_digits r _ Hj) as (j' & _ & Hj').
    - apply remove_unwanted_items_floats_finite, Hf.
    - exists j'. exact Hj'. }
  split; [exact Hser|].
  intros Hi. destruct (filter_dict_returns _ _ Hi) as [r Hr].
  destruct (Hser r Hr) as (text & Htext & _).
  exists r, text. split; assumption.
Qed.

Lemma safe_serialize_after_filter_witness :
  exists r text,
    filter_unjsonable default_max_str_digits
      (VDict [("lock", VObj "Lock" [("to_dict", Raise UserException)]);
              ("id", VUuid uuid_example)]) = Ok r /\
    safe_serialize default_max_str_digits r = Ok text.
Proof.
  apply (safe_serialize_after_filter default_max_str_digits
           (VDict [("lock", VObj "Lock" [("to_dict", Raise UserException)]);
                   ("id", VUuid uuid_example)])).
  reflexivity.
Defined.

(** X5: a tuple is all or nothing for [filter_unjsonable], whether it is
    the input or an element of a list: it is kept as it is when
    [is_jsonable] says yes and replaced by the empty string when it says
    no, so that a UUID in a tuple is not converted; when no int of the
    tuple is beyond the digit limit, it is kept exactly when all its
    elements are Sanitized Values. *)
Theorem filter_unjsonable_tuple (max_digits : N) (xs : list value) :
  filter_unjsonable max_digits (VTuple xs)
  = (jsonable <- is_jsonable max_digits (VTuple xs) ;;
     Ok (if (jsonable : bool) then VTuple xs else VStr EmptyString)) /\
  filter_unjsonable max_digits (VList [VTuple xs])
  = (jsonable <- is_jsonable max_digits (VTuple xs) ;;
     Ok (VList [if (jsonable : bool) then VTuple xs else VStr EmptyString])) /\
  (ints_within max_digits (VTuple xs) = true ->
   filter_unjsonable max_digits (VTuple xs)
   = Ok (if forallb sanitized xs then VTuple xs else VStr EmptyString) /\
   filter_unjsonable max_digits (VList [VTuple xs])
   = Ok (VList [if forallb sanitized xs then VTuple xs else VStr EmptyString])).
Proof.
  unfold filter_unjsonable.
  assert (H1 : filter_dict max_digits (VTuple xs)
               = (jsonable <- is_jsonable max_digits (VTuple xs) ;;
                  Ok (if (jsonable : bool) then VTuple xs else VStr EmptyString))).
  { rewrite filter_dict_leaf by reflexivity.
    destruct (is_jsonable max_digits (VTuple xs)) as [[|]|e]; reflexivity. }
  assert (H2 : filter_dict max_digits (VList [VTuple xs])
               = (jsonable <- is_jsonable max_digits (VTuple xs) ;;
                  Ok (VList [if (jsonable : bool) then VTuple xs else VStr EmptyString]))).
  { rewrite filter_dict_VList. cbn [traverse]. unfold filter_item.
    cbn [isinstance_dict isinstance_list orb]. rewrite H1.
    destruct (is_jsonable max_digits (VTuple xs)) as [[|]|e]; reflexivity. }
  split; [exact H1|]. split; [exact H2|].
  intros Hi. rewrite H1, H2, (is_jsonable_sanitized _ _ Hi). split; reflexivity.
Qed.

Lemma filter_unjsonable_tuple_witness :
  filter_unjsonable default_max_str_digits (VTuple [VInt 1; VUuid uuid_example])
  = Ok (VStr EmptyString) /\
  filter_unjsonable default_max_str_digits (VList [VTuple [VInt 1; VNone]])
  = Ok (VList [VTuple [VInt 1; VNone]]).
Proof.
  split.
  - apply (filter_unjsonable_tuple default_max_str_digits [VInt 1; VUuid uuid_example]).
    reflexivity.
  - apply (filter_unjsonable_tuple default_max_str_digits [VInt 1; VNone]).
    reflexivity.
Defined.

(** ** The serializer *)

(** X6: the strip phase is idempotent, and a value stripped beforehand
    is serialized as the value itself. *)
Theorem remove_unwanted_items_idempotent (max_digits : N) (v : value) :
  remove_unwanted_items (remove_unwanted_items v) = remove_unwanted_items v /\
  safe_serialize max_digits (remove_unwanted_items v) = safe_serialize max_digits v.
Proof.
  assert (H : remove_unwanted_items (remove_unwanted_items v) = remove_unwanted_items v).
  { apply remove_unwanted_items_fixed, remove_unwanted_items_strip_free. }
  split; [exact H|]. unfold safe_serialize. rewrite H. reflexivity.
Qed.

(** X7: on values whose dicts are keyed by strings, [safe_serialize]
    returns exactly when the capability methods that are probed behave:
    when, in the input as the strip phase leaves it, every capability the
    fallback comes to call returns, what it returns behaves likewise, and
    every int that is written is within the digit limit; what the
    attributes that are not called would do, and what stands in entries
    that are stripped, does not matter.  The text is valid JSON when
    every float that is written is finite. *)
Theorem safe_serialize_behaved (max_digits : N) (v : value) :
  (returns (safe_serialize max_digits v)
   <-> behaves max_digits (remove_unwanted_items v) = true) /\
  (behaves max_digits v = true -> returns (safe_serialize max_digits v)) /\
  (forall text, safe_serialize max_digits v = Ok text ->
                floats_finite (remove_unwanted_items v) = true -> valid_json text).
Proof.
  split; [apply safe_serialize_returns_iff|]. split.
  - intros Hv. apply safe_serialize_returns_iff, remove_unwanted_items_behaves, Hv.
  - intros text Htext Hf.
    destruct (safe_serialize_valid max_digits v text Htext Hf) as (j & _ & Hj).
    exists j. exact Hj.
Qed.

Lemma safe_serialize_behaved_witness :
  returns
    (safe_serialize default_max_str_digits
       (VDict [("client", VObj "Client" [("to_dict", Ok (VDict [("id", VUuid uuid_example)]));
                                         ("dict", Raise UserException)]);
               ("lock", VObj "threading.Lock" []);
               ("self", VObj "Broken" [("json", Raise UserException)]);
               ("skip", VEllipsis)])) /\
  (behaves default_max_str_digits
     (remove_unwanted_items (VList [VObj "Broken" [("json", Raise UserException)]])) = true
   -> returns (safe_serialize default_max_str_digits
                 (VList [VObj "Broken" [("json", Raise UserException)]]))).
Proof.
  split.
  - destruct (safe_serialize_behaved default_max_str_digits
                (VDict [("client",
                         VObj "Client" [("to_dict", Ok (VDict [("id", VUuid uuid_example)]));
                                        ("dict", Raise UserException)]);
                        ("lock", VObj "threading.Lock" []);
                        ("self", VObj "Broken" [("json", Raise UserException)]);
                        ("skip", VEllipsis)])) as [[_ H] _].
    apply H. reflexivity.
  - destruct (safe_serialize_behaved default_max_str_digits
                (VList [VObj "Broken" [("json", Raise UserException)]])) as [[_ H] _].
    exact H.
Defined.

Lemma traverse_ext_in {A B} (f g : A -> result B) (l : list A) :
  Forall (fun x => f x = g x) l -> traverse f l = traverse g l.
Proof.
  induction 1 as [|x l Hx _ IH]; simpl; [reflexivity|]. rewrite Hx, IH. reflexivity.
Qed.

(** On a Sanitized Value the encoder does not ask its hook. *)
Lemma iterencode_sanitized_hook (max_digits : N) (d1 d2 : value -> result value) (v : value) :
  sanitized v = true ->
  forall fuel, iterencode max_digits d1 fuel v = iterencode max_digits d2 fuel v.
Proof.
  induction v as [| |b|n|x|s|u|xs IH|xs IH|items IH|q attrs IH] using value_nested_ind;
    intros Hs [|fuel]; try reflexivity; try discriminate Hs; simpl in *;
    rewrite forallb_forall in Hs; rewrite List.Forall_forall in IH.
  - rewrite (traverse_ext_in (iterencode max_digits d1 fuel) (iterencode max_digits d2 fuel));
      [reflexivity|].
    apply List.Forall_forall. intros y Hy. apply (IH y Hy), Hs, Hy.
  - rewrite (traverse_ext_in (iterencode max_digits d1 fuel) (iterencode max_digits d2 fuel));
      [reflexivity|].
    apply List.Forall_forall. intros y Hy. apply (IH y Hy), Hs, Hy.
  - rewrite (traverse_ext_in
               (fun kv => j <- iterencode max_digits d1 fuel (snd kv) ;; Ok (fst kv, j))
               (fun kv => j <- iterencode max_digits d2 fuel (snd kv) ;; Ok (fst kv, j)));
      [reflexivity|].
    apply List.Forall_forall. intros kv Hkv. rewrite (IH kv Hkv (Hs kv Hkv)). reflexivity.
Qed.

Lemma remove_unwanted_items_sanitized (v : value) :
  sanitized v = true -> sanitized (remove_unwanted_items v) = true.
Proof.
  induction v as [| |b|n|x|s|u|xs IH|xs IH|items IH|q attrs IH] using value_nested_ind;
    intros Hs; try exact Hs.
  - simpl in *. rewrite forallb_forall in *. intros y Hy.
    apply List.in_map_iff in Hy as (x & <- & Hx).
    rewrite List.Forall_forall in IH. apply IH; [exact Hx | apply Hs, Hx].
  - rewrite remove_unwanted_items_VDict. simpl in *. rewrite forallb_forall in *.
    intros y Hy. apply List.in_map_iff in Hy as (kv & <- & Hkv).
    apply List.filter_In in Hkv as [Hkv _].
    rewrite List.Forall_forall in IH. apply (IH kv Hkv), Hs, Hkv.
Qed.

(** X8: on an input that is a Sanitized Value the fallback is never
    consulted: the outcome of [safe_serialize] is the outcome of
    [json.dumps], without a [default], on the stripped input, the
    [ValueError] of an int beyond the digit limit included; it returns
    when no int of the input is beyond the limit. *)
Theorem safe_serialize_sanitized (max_digits : N) (v : value) (Hv : sanitized v = true) :
  safe_serialize max_digits v
  = json_dumps max_digits JSONEncoder_default (remove_unwanted_items v) /\
  (ints_within max_digits v = true -> returns (safe_serialize max_digits v)).
Proof.
  assert (Heq : safe_serialize max_digits v
                = json_dumps max_digits JSONEncoder_default (remove_unwanted_items v)).
  { unfold safe_serialize, json_dumps.
    rewrite (iterencode_sanitized_hook max_digits default JSONEncoder_default);
      [reflexivity | apply remove_unwanted_items_sanitized, Hv]. }
  split; [exact Heq|]. intros Hi. rewrite Heq.
  apply json_dumps_encodable. unfold encodable.
  rewrite (remove_unwanted_items_sanitized v Hv).
  rewrite (remove_unwanted_items_ints_within _ v Hi). reflexivity.
Qed.

Lemma safe_serialize_sanitized_witness :
  safe_serialize default_max_str_digits (VDict [("a", VNone); ("b", VList [VInt 1; VStr "x"])])
  = json_dumps default_max_str_digits JSONEncoder_default
      (VDict [("b", VList [VInt 1; VStr "x"])]) /\
  safe_serialize default_max_str_digits (VList [VInt big_int_example])
  = json_dumps default_max_str_digits JSONEncoder_default (VList [VInt big_int_example]).
Proof.
  split.
  - apply (safe_serialize_sanitized default_max_str_digits
             (VDict [("a", VNone); ("b", VList [VInt 1; VStr "x"])])).
    reflexivity.
  - apply (safe_serialize_sanitized default_max_str_digits (VList [VInt big_int_example])).
    reflexivity.
Defined.

(** With the fallback of [safe_serialize], the outcome of the encoder
    does not depend on the fuel, once there is more of it than the value
    is deep. *)
Lemma iterencode_default_fuel (max_digits : N) (fuel1 : nat) :
  forall fuel2 v, height v < fuel1 -> height v < fuel2 ->
                  iterencode max_digits default fuel1 v = iterencode max_digits default fuel2 v.
Proof.
  induction fuel1 as [|fuel1 IH]; intros [|fuel2] v H1 H2; try lia.
  destruct v as [| |b|n|x|s|u|xs|xs|items|q attrs]; try reflexivity; cbn [iterencode].
  - simpl in *. destruct fuel1, fuel2; try lia. reflexivity.
  - simpl in *. destruct fuel1, fuel2; try lia. reflexivity.
  - rewrite (traverse_ext_in (iterencode max_digits default fuel1)
               (iterencode max_digits default fuel2));
      [reflexivity|].
    apply List.Forall_forall. intros y Hy.
    pose proof (list_max_map_ge height xs y Hy). simpl in *. apply IH; lia.
  - rewrite (traverse_ext_in (iterencode max_digits default fuel1)
               (iterencode max_digits default fuel2));
      [reflexivity|].
    apply List.Forall_forall. intros y Hy.
    pose proof (list_max_map_ge height xs y Hy). simpl in *. apply IH; lia.
  - rewrite (traverse_ext_in
               (fun kv => j <- iterencode max_digits default fuel1 (snd kv) ;; Ok (fst kv, j))
               (fun kv => j <- iterencode max_digits default fuel2 (snd kv) ;; Ok (fst kv, j)));
      [reflexivity|].
    apply List.Forall_forall. intros kv Hkv.
    pose proof (list_max_map_ge (fun kv => height (snd kv)) items kv Hkv).
    simpl in *. rewrite (IH fuel2 (snd kv)); [reflexivity | lia | lia].
  - destruct (default (VObj q attrs)) as [d|e] eqn:Hd; [|reflexivity].
    pose proof (default_height q attrs d Hd). cbn [bind]. apply IH; lia.
Qed.

(** X9: the strip phase comes before the encoding and is not applied to
    what a capability method returns: for an object whose capability
    returns a Sanitized Value the outcome of [safe_serialize] is the
    outcome of [json.dumps] on that value, entries with [None] or under
    ["self"] included; it returns when no int of that value is beyond
    the digit limit. *)
Theorem safe_serialize_capability_not_stripped (max_digits : N)
    (q : string) (attrs : list (string * result value)) (d : value)
    (Hd : default (VObj q attrs) = Ok d) (Hs : sanitized d = true) :
  safe_serialize max_digits (VObj q attrs) = json_dumps max_digits JSONEncoder_default d /\
  (ints_within max_digits d = true -> returns (safe_serialize max_digits (VObj q attrs))).
Proof.
  assert (Heq : safe_serialize max_digits (VObj q attrs)
                = json_dumps max_digits JSONEncoder_default d).
  { unfold safe_serialize, json_dumps. cbn [remove_unwanted_items].
    change (iterencode max_digits default (S (height (VObj q attrs))) (VObj q attrs))
      with (o' <- default (VObj q attrs) ;;
            iterencode max_digits default (height (VObj q attrs)) o').
    rewrite Hd. cbn [bind].
    rewrite <- (iterencode_sanitized_hook max_digits default JSONEncoder_default d Hs).
    rewrite (iterencode_default_fuel max_digits (height (VObj q attrs)) (S (height d)) d);
      [reflexivity | | lia].
    apply (default_height q attrs d Hd). }
  split; [exact Heq|]. intros Hi. rewrite Heq.
  apply json_dumps_encodable. unfold encodable. rewrite Hs, Hi. reflexivity.
Qed.

Lemma safe_serialize_capability_not_stripped_witness :
  safe_serialize default_max_str_digits
    (VObj "Event" [("to_dict", Ok (VDict [("self", VInt 1); ("end", VNone)]))])
  = json_dumps default_max_str_digits JSONEncoder_default
      (VDict [("self", VInt 1); ("end", VNone)]) /\
  safe_serialize default_max_str_digits (VDict [("self", VInt 1); ("end", VNone)])
  = json_dumps default_max_str_digits JSONEncoder_default (VDict []).
Proof.
  split.
  - apply (safe_serialize_capability_not_stripped default_max_str_digits "Event"
             [("to_dict", Ok (VDict [("self", VInt 1); ("end", VNone)]))]);
      reflexivity.
  - reflexivity.
Defined.

(** X10: an exception raised by the capability method the fallback
    chooses is not caught: [safe_serialize] raises it, for the object
    itself and for a list that holds the object after elements that
    behave. *)
Theorem safe_serialize_propagates (max_digits : N)
    (q : string) (attrs : list (string * result value)) (e : exn)
    (He : default (VObj q attrs) = Raise e) :
  safe_serialize max_digits (VObj q attrs) = Raise e /\
  forall pre post, forallb (behaves max_digits) pre = true ->
    safe_serialize max_digits (VList (pre ++ VObj q attrs :: post)) = Raise e.
Proof.
  split.
  - unfold safe_serialize, json_dumps. cbn [remove_unwanted_items iterencode].
    rewrite He. reflexivity.
  - intros pre post Hpre. unfold safe_serialize, json_dumps.
    cbn [remove_unwanted_items]. rewrite map_app. cbn [map remove_unwanted_items].
    set (l := map remove_unwanted_items pre ++ VObj q attrs :: map remove_unwanted_items post).
    assert (Hh : forall x, In x (map remove_unwanted_items pre) ->
                           behaves max_digits x = true /\ height x < height (VList l)).
    { intros y Hy. split.
      - apply List.in_map_iff in Hy as (x & <- & Hx).
        apply remove_unwanted_items_behaves. rewrite forallb_forall in Hpre. apply Hpre, Hx.
      - pose proof (list_max_map_ge height l y) as Hle. simpl.
        assert (In y l) by (unfold l; apply in_or_app; left; exact Hy).
        specialize (Hle H). lia. }
    cbn [iterencode]. unfold l at 2. rewrite traverse_app.
    destruct (traverse_returns (iterencode max_digits default (height (VList l)))
                (map remove_unwanted_items pre)) as [js Hjs].
    { apply List.Forall_forall. intros x Hx. destruct (Hh x Hx) as [Hb Hlt].
      apply iterencode_default_returns; assumption. }
    rewrite Hjs. cbn [bind traverse height iterencode]. rewrite He. reflexivity.
Qed.

Lemma safe_serialize_propagates_witness :
  safe_serialize default_max_str_digits
    (VList [VInt 1; VObj "Broken" [("dict", Ok VNone); ("json", Raise UserException)]])
  = Raise UserException.
Proof.
  destruct (safe_serialize_propagates default_max_str_digits "Broken"
              [("dict", Ok VNone); ("json", Raise UserException)] UserException eq_refl)
    as [_ H].
  apply (H [VInt 1] []). reflexivity.
Defined.

(** The document the encoder builds for a Sanitized Value without tuples
    is the value, read as JSON. *)
Lemma iterencode_value_of_json (max_digits : N) (hook : value -> result value) (fuel : nat) :
  forall v j, sanitized v = true -> tuple_free v = true ->
              iterencode max_digits hook fuel v = Ok j -> value_of_json j = v.
Proof.
  induction fuel as [|fuel IH]; intros v j Hs Ht Hj; [discriminate Hj|].
  destruct v as [| |b|n|x|s|u|xs|xs|items|q attrs];
    try discriminate Hs; try discriminate Ht; cbn [iterencode] in Hj;
    try (injection Hj as <-; reflexivity).
  - destruct (exceeds_digit_limit max_digits n); [discriminate Hj|].
    injection Hj as <-. reflexivity.
  - apply bind_Ok in Hj as (js & Hjs & [= <-]). simpl in *. f_equal.
    apply traverse_Ok_Forall2 in Hjs.
    induction Hjs as [|x y xs js Hxy _ IHl]; [reflexivity|].
    simpl in *. apply andb_prop in Hs as [Hsx Hs]. apply andb_prop in Ht as [Htx Ht].
    rewrite (IH x y Hsx Htx Hxy), (IHl Hs Ht). reflexivity.
  - apply bind_Ok in Hj as (ms & Hms & [= <-]). simpl in *. f_equal.
    apply traverse_Ok_Forall2 in Hms.
    induction Hms as [|[k x] m items ms Hm _ IHl]; [reflexivity|].
    simpl in *. apply andb_prop in Hs as [Hsx Hs]. apply andb_prop in Ht as [Htx Ht].
    apply bind_Ok in Hm as (y & Hy & [= <-]). simpl.
    rewrite (IH x y Hsx Htx Hy), (IHl Hs Ht). reflexivity.
Qed.

(** X11: round trip.  For a Sanitized Value without tuples, in which no
    int is beyond the digit limit and every float is finite, decoding the
    text [safe_serialize] returns gives back the input without the
    entries the strip phase removes: the whole input when it has none. *)
Theorem safe_serialize_round_trip (max_digits : N) (v : value)
    (Hs : sanitized v = true) (Ht : tuple_free v = true)
    (Hi : ints_within max_digits v = true) (Hf : floats_finite v = true) :
  exists text j,
    safe_serialize max_digits v = Ok text /\
    json_loads text = Some j /\
    value_of_json j = remove_unwanted_items v /\
    (strip_free_in_lists v = true -> value_of_json j = v).
Proof.
  assert (Hb : behaves max_digits v = true).
  { rewrite plain_behaves; [exact Hi | apply sanitized_plain, Hs]. }
  destruct (safe_serialize_returns max_digits v Hb) as (j & Hj & Htext).
  exists (text_of j), j. split; [exact Htext|]. split.
  { apply json_loads_text_of. eapply iterencode_finite; [exact Hj|].
    apply remove_unwanted_items_floats_finite, Hf. }
  assert (Hv : value_of_json j = remove_unwanted_items v).
  { eapply iterencode_value_of_json; [| | exact Hj].
    - apply remove_unwanted_items_sanitized, Hs.
    - apply remove_unwanted_items_tuple_free, Ht. }
  split; [exact Hv|]. intros Hfree. rewrite Hv. apply remove_unwanted_items_fixed, Hfree.
Qed.

Lemma safe_serialize_round_trip_witness :
  exists text j,
    safe_serialize default_max_str_digits
      (VDict [("n", VInt (-7)); ("l", VList [VStr "a b"; VBool false; VNone]);
              ("x", VFloat (FFinite {| fl_negative := false;
                                       fl_integer := Decimal.D1 Decimal.Nil;
                                       fl_fraction := None;
                                       fl_exponent := Some (Decimal.Pos
                                                              (Decimal.D1 (Decimal.D6 Decimal.Nil)))
                                    |}))])
    = Ok text /\
    json_loads text = Some j /\
    value_of_json j
    = VDict [("n", VInt (-7)); ("l", VList [VStr "a b"; VBool false; VNone]);
             ("x", VFloat (FFinite {| fl_negative := false;
                                      fl_integer := Decimal.D1 Decimal.Nil;
                                      fl_fraction := None;
                                      fl_exponent := Some (Decimal.Pos
                                                             (Decimal.D1 (Decimal.D6 Decimal.Nil)))
                                   |}))].
Proof.
  destruct (safe_serialize_round_trip default_max_str_digits
              (VDict [("n", VInt (-7)); ("l", VList [VStr "a b"; VBool false; VNone]);
                      ("x", VFloat (FFinite {| fl_negative := false;
                                               fl_integer := Decimal.D1 Decimal.Nil;
                                               fl_fraction := None;
                                               fl_exponent :=
                                                 Some (Decimal.Pos
                                                         (Decimal.D1 (Decimal.D6 Decimal.Nil)))
                                            |}))])
              eq_refl eq_refl eq_refl eq_refl) as (text & j & H1 & H2 & _ & H3).
  exists text, j. split; [exact H1|]. split; [exact H2|]. apply H3. reflexivity.
Defined.

Lemma lookup_attr_stringify (name : string) (attrs : list (string * result value)) :
  lookup_attr name
    (map (fun a => (fst a, match snd a with
                           | Ok x => Ok (stringify_uuids x)
                           | Raise e => Raise e
                           end)) attrs)
  = match lookup_attr name attrs with
    | Some (Ok x) => Some (Ok (stringify_uuids x))
    | Some (Raise e) => Some (Raise e)
    | None => None
    end.
Proof.
  induction attrs as [|[k r] attrs IH]; [reflexivity|].
  simpl. destruct (String.eqb k name); [destruct r; reflexivity | exact IH].
Qed.

Lemma default_stringify (q : string) (attrs : list (string * result value)) :
  default (stringify_uuids (VObj q attrs))
  = match default (VObj q attrs) with
    | Ok d => Ok (stringify_uuids d)
    | Raise e => Raise e
    end.
Proof.
  cbn [stringify_uuids]. unfold default, hasattr, call_method.
  rewrite !lookup_attr_stringify.
  destruct (lookup_attr "model_dump_json" attrs) as [[?|?]|]; try reflexivity.
  destruct (lookup_attr "to_json" attrs) as [[?|?]|]; try reflexivity.
  destruct (lookup_attr "json" attrs) as [[?|?]|]; try reflexivity.
  destruct (lookup_attr "to_dict" attrs) as [[?|?]|]; try reflexivity.
  destruct (lookup_attr "dict" attrs) as [[?|?]|]; reflexivity.
Qed.

Lemma traverse_map {A B C} (f : B -> result C) (g : A -> B) (l : list A) :
  traverse f (map g l) = traverse (fun x => f (g x)) l.
Proof.
  induction l as [|x l IH]; simpl; [reflexivity|]. rewrite IH. reflexivity.
Qed.

Lemma iterencode_stringify (max_digits : N) (fuel : nat) :
  forall v, height v < fuel ->
            iterencode max_digits default fuel (stringify_uuids v)
            = iterencode max_digits default fuel v.
Proof.
  induction fuel as [|fuel IH]; intros v Hh; [lia|].
  destruct v as [| |b|n|x|s|u|xs|xs|items|q attrs]; try reflexivity.
  - simpl in Hh. destruct fuel; [lia | reflexivity].
  - cbn [stringify_uuids iterencode]. rewrite traverse_map.
    rewrite (traverse_ext_in (fun x => iterencode max_digits default fuel (stringify_uuids x))
               (iterencode max_digits default fuel)); [reflexivity|].
    apply List.Forall_forall. intros y Hy.
    pose proof (list_max_map_ge height xs y Hy). simpl in *. apply IH. lia.
  - cbn [stringify_uuids iterencode]. rewrite traverse_map.
    rewrite (traverse_ext_in (fun x => iterencode max_digits default fuel (stringify_uuids x))
               (iterencode max_digits default fuel)); [reflexivity|].
    apply List.Forall_forall. intros y Hy.
    pose proof (list_max_map_ge height xs y Hy). simpl in *. apply IH. lia.
  - cbn [stringify_uuids iterencode]. rewrite traverse_map. cbn [fst snd].
    rewrite (traverse_ext_in
               (fun kv => j <- iterencode max_digits default fuel (stringify_uuids (snd kv)) ;;
                          Ok (fst kv, j))
               (fun kv => j <- iterencode max_digits default fuel (snd kv) ;; Ok (fst kv, j)));
      [reflexivity|].
    apply List.Forall_forall. intros kv Hkv.
    pose proof (list_max_map_ge (fun kv => height (snd kv)) items kv Hkv).
    simpl in *. rewrite (IH (snd kv)); [reflexivity | lia].
  - change (iterencode max_digits default (S fuel) (stringify_uuids (VObj q attrs)))
      with (o' <- default (stringify_uuids (VObj q attrs)) ;;
            iterencode max_digits default fuel o').
    rewrite default_stringify. cbn [iterencode].
    destruct (default (VObj q attrs)) as [d|e] eqn:Hd; [|reflexivity].
    pose proof (default_height q attrs d Hd). cbn [bind]. apply IH. lia.
Qed.

Lemma stringify_height (v : value) : height (stringify_uuids v) <= height v.
Proof.
  assert (Hmax : forall {A} (f g : A -> nat) (l : list A),
             Forall (fun x => f x <= g x) l -> list_max (map f l) <= list_max (map g l)).
  { intros A f g l H. induction H as [|x l Hx _ IHl]; simpl; lia. }
  induction v as [| |b|n|x|s|u|xs IH|xs IH|items IH|q attrs IH] using value_nested_ind;
    simpl; try lia.
  - rewrite map_map. apply le_n_S, Hmax, IH.
  - rewrite map_map. apply le_n_S, Hmax, IH.
  - rewrite map_map. apply le_n_S. cbn [snd]. apply Hmax, IH.
  - rewrite map_map. apply le_n_S. cbn [snd].
    clear q. induction attrs as [|[k [x|e]] attrs IHattrs]; simpl in *; [lia| |].
    + apply Forall_cons_1 in IH as [Hx IH]. specialize (IHattrs IH). lia.
    + specialize (IHattrs IH). lia.
Qed.

Lemma remove_unwanted_items_stringify (v : value) :
  remove_unwanted_items (stringify_uuids v) = stringify_uuids (remove_unwanted_items v).
Proof.
  induction v as [| |b|n|x|s|u|xs IH|xs IH|items IH|q attrs IH] using value_nested_ind;
    try reflexivity.
  - simpl. f_equal. rewrite !map_map. apply map_ext_in. intros x Hx.
    rewrite List.Forall_forall in IH. apply IH, Hx.
  - cbn [stringify_uuids]. rewrite !remove_unwanted_items_VDict. cbn [stringify_uuids].
    f_equal. induction items as [|[k x] items IHitems]; [reflexivity|].
    apply Forall_cons_1 in IH as [Hx IH]. specialize (IHitems IH).
    cbn [map List.filter fst snd] in *.
    assert (Hw : stripped_entry (k, stringify_uuids x) = stripped_entry (k, x)).
    { unfold stripped_entry. simpl. destruct x; reflexivity. }
    rewrite Hw. destruct (negb (stripped_entry (k, x))); cbn [map fst snd].
    + rewrite Hx, IHitems. reflexivity.
    + exact IHitems.
Qed.

(** X12: a UUID is serialized as its canonical string form wherever it
    stands, in a container or in what a capability method returns:
    [safe_serialize] gives the same outcome for a value and for the value
    with every UUID replaced by that string. *)
Theorem safe_serialize_uuid_as_string (max_digits : N) (v : value) :
  safe_serialize max_digits (stringify_uuids v) = safe_serialize max_digits v.
Proof.
  unfold safe_serialize, json_dumps. f_equal.
  rewrite remove_unwanted_items_stringify.
  set (w := remove_unwanted_items v).
  pose proof (stringify_height w) as Hh.
  rewrite (iterencode_default_fuel max_digits _ (S (height w)) (stringify_uuids w)) by lia.
  apply iterencode_stringify. lia.
Qed.
(** ** The instance registry *)

Lemma singleton_keeps_ok
    (init : class -> list value -> list (string * value) -> result unit)
    (c : class) (a : list value) (k : list (string * value)) (st : state) :
  registry_ok st -> registry_ok (snd (singleton init c a k st)).
Proof.
  intros [Hcls Hinj].
  destruct (singleton_state init c a k st) as [-> | [Hnone ->]]; [split; assumption|].
  split.
  - intros c0 i0. cbn [ao_instances next_addr].
    destruct (decide (c = c0)) as [->|Hne].
    + rewrite lookup_insert_eq. intros [= <-]. simpl. split; [reflexivity | lia].
    + rewrite lookup_insert_ne by exact Hne. intros H.
      destruct (Hcls _ _ H) as [Hc Hlt]. split; [exact Hc | lia].
  - intros c1 c2 i1 i2. cbn [ao_instances].
    destruct (decide (c = c1)) as [<-|Hne1]; destruct (decide (c = c2)) as [<-|Hne2];
      rewrite ?lookup_insert_eq, ?lookup_insert_ne by assumption;
      try (intros; reflexivity).
    + intros [= <-] H2 Haddr. destruct (Hcls _ _ H2) as [_ Hlt]. simpl in Haddr. lia.
    + intros H1 [= <-] Haddr. destruct (Hcls _ _ H1) as [_ Hlt]. simpl in Haddr. lia.
    + apply Hinj.
Qed.

Lemma exec_keeps_ok
    (init : class -> list value -> list (string * value) -> result unit)
    (c : call) (st : state) :
  registry_ok st -> registry_ok (exec init c st).
Proof.
  intros Hst. destruct c as [c' a k | c' a k |]; cbn [exec].
  - apply singleton_keeps_ok, Hst.
  - unfold conditional_singleton.
    destruct (dict_pop "use_singleton" (VBool true) k) as [v k'].
    destruct (truthy v); [apply singleton_keeps_ok, Hst|].
    destruct (construct_state init c' a k' st) as [Hreg Hnext].
    destruct Hst as [Hcls Hinj]. split.
    + intros c0 i0 H. rewrite Hreg in H. destruct (Hcls _ _ H) as [Hc Hlt].
      split; [exact Hc | lia].
    + intros c1 c2 i1 i2. rewrite Hreg. apply Hinj.
  - split.
    + intros c0 i0 H. simpl in H. rewrite lookup_empty in H. discriminate H.
    + intros c1 c2 i1 i2 H. simpl in H. rewrite lookup_empty in H. discriminate H.
Qed.

(** X13: in every state a program can reach, each instance in the
    registry is an instance of the class it is filed under, and no two
    classes hold the same object. *)
Theorem registry_invariant
    (init : class -> list value -> list (string * value) -> result unit)
    (st : state) (Hst : reachable init st) :
  registry_ok st.
Proof.
  destruct Hst as [calls ->].
  assert (H : forall st0, registry_ok st0 -> registry_ok (exec_all init calls st0)).
  { induction calls as [|c calls IH]; intros st0 Hst0; [exact Hst0|].
    apply IH, exec_keeps_ok, Hst0. }
  apply H. split.
  - intros c i Hi. simpl in Hi. rewrite lookup_empty in Hi. discriminate Hi.
  - intros c1 c2 i1 i2 Hi. simpl in Hi. rewrite lookup_empty in Hi. discriminate Hi.
Qed.

Lemma registry_invariant_witness :
  registry_ok
    (exec_all init_any
       [CallSingleton 1%positive [VInt 1] [];
        CallConditional 2%positive [] [("use_singleton", VBool false)];
        CallConditional 2%positive [] []]
       initial_state).
Proof.
  apply (registry_invariant init_any). eexists. reflexivity.
Defined.

(** X14: when the constructor raises, for a class without an instance in
    the registry, the exception reaches the caller of [singleton] and of
    [conditional_singleton] and the state is left as it was: nothing is
    cached, and the next call constructs from its own arguments. *)
Theorem constructor_failure_propagates
    (init : class -> list value -> list (string * value) -> result unit)
    (class_ : class) (args : list value) (kwargs : list (string * value))
    (e : exn) (st : state)
    (Hnew : ao_instances st !! class_ = None)
    (Hinit : init class_ args kwargs = Raise e) :
  singleton init class_ args kwargs st = (Raise e, st) /\
  (forall kwargs0 v,
      dict_pop "use_singleton" (VBool true) kwargs0 = (v, kwargs) ->
      conditional_singleton init class_ args kwargs0 st = (Raise e, st)) /\
  (forall args' kwargs',
      init class_ args' kwargs' = Ok tt ->
      exists i st',
        singleton init class_ args' kwargs' st = (Ok i, st') /\
        inst_args i = args' /\ inst_kwargs i = kwargs').
Proof.
  assert (Hs : singleton init class_ args kwargs st = (Raise e, st)).
  { rewrite (singleton_first init _ _ _ _ Hnew), Hinit. reflexivity. }
  split; [exact Hs|]. split.
  - intros kwargs0 v Hpop. unfold conditional_singleton. rewrite Hpop.
    destruct (truthy v); [exact Hs|]. unfold construct. rewrite Hinit. reflexivity.
  - intros args' kwargs' Hok. rewrite (singleton_first init _ _ _ _ Hnew), Hok.
    eexists _, _. repeat split.
Qed.

Lemma constructor_failure_propagates_witness :
  singleton init_no_args class_example [VInt 1] [] initial_state
  = (Raise TypeError, initial_state) /\
  conditional_singleton init_no_args class_example [VInt 1]
    [("use_singleton", VBool false)] initial_state
  = (Raise TypeError, initial_state).
Proof.
  destruct (constructor_failure_propagates init_no_args class_example [VInt 1] []
              TypeError initial_state eq_refl eq_refl) as (H1 & H2 & _).
  split; [exact H1|]. apply (H2 _ (VBool false)). reflexivity.
Defined.

(** X15: [singleton] and [conditional_singleton] work on one registry:
    the instance that [conditional_singleton], with a true or absent
    [use_singleton], constructs for a class is the one every later call
    of [singleton] and of [conditional_singleton] for that class
    returns. *)
Theorem decorators_share_registry
    (init : class -> list value -> list (string * value) -> result unit)
    (class_ : class) (args : list value) (kwargs kwargs' : list (string * value))
    (v : value) (st : state)
    (Hnew : ao_instances st !! class_ = None)
    (Hpop : dict_pop "use_singleton" (VBool true) kwargs = (v, kwargs'))
    (Hv : truthy v = true)
    (Hinit : init class_ args kwargs' = Ok tt) :
  exists i st1,
    conditional_singleton init class_ args kwargs st = (Ok i, st1) /\
    inst_args i = args /\ inst_kwargs i = kwargs' /\
    forall calls args2 kwargs2,
      no_clear calls = true ->
      let st2 := exec_all init calls st1 in
      singleton init class_ args2 kwargs2 st2 = (Ok i, st2) /\
      (forall v2 kwargs2',
          dict_pop "use_singleton" (VBool true) kwargs2 = (v2, kwargs2') ->
          truthy v2 = true ->
          conditional_singleton init class_ args2 kwargs2 st2 = (Ok i, st2)).
Proof.
  rewrite (conditional_singleton_true init _ _ _ _ _ _ Hpop Hv).
  rewrite (singleton_first init _ _ _ _ Hnew), Hinit.
  eexists _, _. split; [reflexivity|]. split; [reflexivity|]. split; [reflexivity|].
  intros calls args2 kwargs2 Hnc st2.
  assert (Hi : ao_instances st2 !! class_
               = Some {| inst_addr := next_addr st; inst_class := class_;
                         inst_args := args; inst_kwargs := kwargs' |}).
  { apply exec_all_keeps_entry; [exact Hnc|]. cbn [ao_instances]. apply lookup_insert_eq. }
  split; [apply singleton_cached, Hi|].
  intros v2 kwargs2' Hpop2 Hv2.
  rewrite (conditional_singleton_true init _ _ _ _ _ _ Hpop2 Hv2).
  apply singleton_cached, Hi.
Qed.

Lemma decorators_share_registry_witness :
  exists i st1,
    conditional_singleton init_any class_example [VInt 1] [("use_singleton", VInt 1)]
      initial_state = (Ok i, st1) /\
    inst_kwargs i = [] /\
    singleton init_any class_example [VInt 2] [] st1 = (Ok i, st1).
Proof.
  destruct (decorators_share_registry init_any class_example [VInt 1]
              [("use_singleton", VInt 1)] [] (VInt 1) initial_state
              eq_refl eq_refl eq_refl eq_refl) as (i & st1 & H1 & _ & Hk & Hlater).
  exists i, st1. split; [exact H1|]. split; [exact Hk|].
  apply (Hlater [] [VInt 2] []). reflexivity.
Defined.

Lemma dict_pop_rest (key : string) (dflt : value) (kwargs : list (string * value)) :
  NoDup (keys kwargs) ->
  snd (dict_pop key dflt kwargs)
  = List.filter (fun kv => negb (String.eqb (fst kv) key)) kwargs.
Proof.
  induction kwargs as [|[k v] kwargs IH]; intros Hnd; [reflexivity|].
  unfold keys in *. simpl in *. apply NoDup_cons in Hnd as [Hk Hnd].
  destruct (String.eqb k key) eqn:Hkey; simpl.
  - apply String.eqb_eq in Hkey as ->.
    symmetry. apply List.forallb_filter_id. apply forallb_forall. intros [k' v'] Hin.
    simpl. apply negb_true_iff, String.eqb_neq. intros ->.
    apply Hk. apply list_elem_of_In. apply List.in_map_iff. exists (key, v'). split; auto.
  - specialize (IH Hnd). destruct (dict_pop key dflt kwargs) as [r rest].
    simpl in *. rewrite IH. reflexivity.
Qed.

(** X16: [conditional_singleton] does not pass [use_singleton] on: the
    instance it constructs, in either mode, is constructed with the
    positional arguments as given and with the other keyword arguments,
    in their order. *)
Theorem use_singleton_not_forwarded
    (init : class -> list value -> list (string * value) -> result unit)
    (class_ : class) (args : list value) (kwargs : list (string * value))
    (st st' : state) (i : instance)
    (Hkeys : NoDup (keys kwargs))
    (Hnew : ao_instances st !! class_ = None)
    (Hcall : conditional_singleton init class_ args kwargs st = (Ok i, st')) :
  inst_args i = args /\
  inst_kwargs i = without_use_singleton kwargs /\
  ~ In "use_singleton" (keys (inst_kwargs i)).
Proof.
  assert (Hi : inst_args i = args /\ inst_kwargs i = without_use_singleton kwargs).
  { pose proof (dict_pop_rest "use_singleton" (VBool true) kwargs Hkeys) as Hrest.
    unfold conditional_singleton in Hcall.
    destruct (dict_pop "use_singleton" (VBool true) kwargs) as [v kwargs'].
    simpl in Hrest. subst kwargs'. fold (without_use_singleton kwargs) in Hcall.
    assert (Hc : construct init class_ args (without_use_singleton kwargs) st = (Ok i, st')
                 \/ singleton init class_ args (without_use_singleton kwargs) st = (Ok i, st')).
    { destruct (truthy v); [right | left]; exact Hcall. }
    destruct Hc as [Hc | Hc].
    - unfold construct in Hc. destruct (init class_ args _); [|discriminate Hc].
      injection Hc as <- _. split; reflexivity.
    - rewrite (singleton_first init _ _ _ _ Hnew) in Hc.
      destruct (init class_ args _); [|discriminate Hc].
      injection Hc as <- _. split; reflexivity. }
  destruct Hi as [Ha Hk]. split; [exact Ha|]. split; [exact Hk|].
  rewrite Hk. unfold keys, without_use_singleton. intros Hin.
  apply List.in_map_iff in Hin as ([k x] & Hkx & Hin). simpl in Hkx. subst k.
  apply List.filter_In in Hin as [_ Hneq]. simpl in Hneq. discriminate Hneq.
Qed.

Lemma use_singleton_not_forwarded_witness :
  exists i st',
    conditional_singleton init_any class_example [VInt 1]
      [("name", VStr "a"); ("use_singleton", VBool false); ("tags", VList [])]
      initial_state = (Ok i, st') /\
    inst_kwargs i = [("name", VStr "a"); ("tags", VList [])].
Proof.
  exists {| inst_addr := 0; inst_class := class_example; inst_args := [VInt 1];
            inst_kwargs := [("name", VStr "a"); ("tags", VList [])] |},
         {| ao_instances := ao_instances initial_state; next_addr := 1 |}.
  split; [reflexivity|].
  apply (use_singleton_not_forwarded init_any class_example [VInt 1]
           [("name", VStr "a"); ("use_singleton", VBool false); ("tags", VList [])]
           initial_state {| ao_instances := ao_instances initial_state; next_addr := 1 |}).
  - apply (bool_decide_unpack _). reflexivity.
  - reflexivity.
  - reflexivity.
Defined.

(** X17: a call of [singleton] repeated with the same arguments changes
    nothing more: the state after two such calls is the state after one,
    and the second call returns the instance, or raises the exception, of
    the first; likewise [clear_singletons] twice is [clear_singletons]
    once. *)
Theorem singleton_repeated
    (init : class -> list value -> list (string * value) -> result unit)
    (class_ : class) (args : list value) (kwargs : list (string * value)) (st : state) :
  let st1 := snd (singleton init class_ args kwargs st) in
  snd (singleton init class_ args kwargs st1) = st1 /\
  fst (singleton init class_ args kwargs st1) = fst (singleton init class_ args kwargs st) /\
  snd (clear_singletons (snd (clear_singletons st))) = snd (clear_singletons st).
Proof.
  cbv zeta. split; [|split; [|reflexivity]].
  - destruct (ao_instances st !! class_) as [i|] eqn:Hi.
    + rewrite !(singleton_cached init _ _ _ st i Hi). cbn [snd].
      rewrite ?(singleton_cached init _ _ _ st i Hi). reflexivity.
    + rewrite (singleton_first init _ _ _ _ Hi).
      destruct (init class_ args kwargs) as [[]|e] eqn:Hinit; cbn [snd].
      * rewrite (singleton_cached init _ _ _ _ _ (lookup_insert_eq _ _ _)). reflexivity.
      * rewrite (singleton_first init _ _ _ _ Hi), Hinit. reflexivity.
  - destruct (ao_instances st !! class_) as [i|] eqn:Hi.
    + rewrite !(singleton_cached init _ _ _ st i Hi). cbn [snd fst].
      rewrite ?(singleton_cached init _ _ _ st i Hi). reflexivity.
    + rewrite (singleton_first init _ _ _ _ Hi).
      destruct (init class_ args kwargs) as [[]|e] eqn:Hinit; cbn [snd fst].
      * rewrite (singleton_cached init _ _ _ _ _ (lookup_insert_eq _ _ _)). reflexivity.
      * rewrite (singleton_first init _ _ _ _ Hi), Hinit. reflexivity.
Qed.

(** ** The scan of the call stack *)

Lemma scan_locals_app (l1 l2 : list value) :
  scan_locals (l1 ++ l2) =
  (r <- scan_locals l1 ;;
   match r with
   | Some v => Ok (Some v)
   | None => scan_locals l2
   end).
Proof.
  induction l1 as [|var l1 IH]; cbn [app scan_locals].
  - cbn [bind]. destruct (scan_locals l2) as [[v|]|e]; reflexivity.
  - destruct (eq_str var "__main__"); [reflexivity|].
    destruct (hasattr_read var "agent_ops_agent_id") as [[|]|e]; cbn [bind];
      try reflexivity; try exact IH.
    destruct (getattr var "agent_ops_agent_id") as [id|e]; cbn [bind]; [|reflexivity].
    destruct (truthy id); [|exact IH].
    destruct (getattr var "agent_ops_agent_name"); reflexivity.
Qed.

(** The frames matter by their local variables only, taken in order. *)
Lemma scan_frames_concat (frames : list (list value)) :
  scan_frames frames = scan_locals (concat frames).
Proof.
  induction frames as [|local_vars frames IH]; [reflexivity|].
  cbn [scan_frames concat]. rewrite scan_locals_app, IH. reflexivity.
Qed.

Lemma scan_locals_passed_over (pre rest : list value) :
  forallb passed_over pre = true -> scan_locals (pre ++ rest) = scan_locals rest.
Proof.
  induction pre as [|var pre IH]; intros Hpre; [reflexivity|].
  simpl in Hpre. apply andb_prop in Hpre as [Hvar Hpre].
  unfold passed_over in Hvar. apply andb_prop in Hvar as [Hmain Hid].
  apply negb_true_iff in Hmain.
  cbn [app scan_locals]. rewrite Hmain.
  destruct (hasattr_read var "agent_ops_agent_id") as [[|]|e]; try discriminate Hid;
    cbn [bind]; [|apply IH, Hpre].
  destruct (getattr var "agent_ops_agent_id") as [id|e]; [|discriminate Hid].
  cbn [bind]. apply negb_true_iff in Hid. rewrite Hid. apply IH, Hpre.
Qed.

(** X18: on a stack without an agent, [check_call_stack_for_agent_id]
    returns [None]: when none of the local variables of its frames is the
    string ["__main__"] or has a true [agent_ops_agent_id], and so on the
    empty stack. *)
Theorem check_call_stack_no_agent (stack : list (list value))
    (Hstack : forallb passed_over (concat stack) = true) :
  check_call_stack_for_agent_id stack = Ok VNone.
Proof.
  unfold check_call_stack_for_agent_id. rewrite scan_frames_concat.
  rewrite <- (List.app_nil_r (concat stack)).
  rewrite (scan_locals_passed_over _ [] Hstack). reflexivity.
Qed.

Lemma check_call_stack_no_agent_witness :
  check_call_stack_for_agent_id [] = Ok VNone /\
  check_call_stack_for_agent_id
    [[VInt 1; VStr "main"]; [agent_example VNone; VObj "Client" []]] = Ok VNone.
Proof.
  split; apply check_call_stack_no_agent; reflexivity.
Defined.

(** X19: the scan stops at the first local variable equal to the string
    ["__main__"]: when no local variable before it, in the order of the
    frames, has a true agent id, the function returns [None], whatever
    the rest of the stack holds. *)
Theorem check_call_stack_stops_at_main (stack : list (list value))
    (pre post : list value)
    (Hstack : concat stack = pre ++ VStr "__main__" :: post)
    (Hpre : forallb passed_over pre = true) :
  check_call_stack_for_agent_id stack = Ok VNone.
Proof.
  unfold check_call_stack_for_agent_id. rewrite scan_frames_concat, Hstack.
  rewrite (scan_locals_passed_over _ _ Hpre). reflexivity.
Qed.

Lemma check_call_stack_stops_at_main_witness :
  check_call_stack_for_agent_id
    [[VInt 1]; [VStr "__main__"; agent_example (VUuid uuid_example)];
     [agent_example (VInt 7)]] = Ok VNone.
Proof.
  apply (check_call_stack_stops_at_main _ [VInt 1]
           [agent_example (VUuid uuid_example); agent_example (VInt 7)]);
    reflexivity.
Defined.

(** X20: the function returns the agent id of the first local variable,
    in the order of the frames and of their variables, that has a true
    [agent_ops_agent_id], provided no variable before it is the string
    ["__main__"] and the variable has an [agent_ops_agent_name] as well;
    agents further out in the stack are not looked at. *)
Theorem check_call_stack_first_agent (stack : list (list value))
    (pre post : list value) (var id name : value)
    (Hstack : concat stack = pre ++ var :: post)
    (Hpre : forallb passed_over pre = true)
    (Hid : getattr var "agent_ops_agent_id" = Ok id)
    (Htrue : truthy id = true)
    (Hname : getattr var "agent_ops_agent_name" = Ok name) :
  check_call_stack_for_agent_id stack = Ok id.
Proof.
  unfold check_call_stack_for_agent_id. rewrite scan_frames_concat, Hstack.
  rewrite (scan_locals_passed_over _ _ Hpre). cbn [scan_locals].
  assert (Hmain : eq_str var "__main__" = false).
  { destruct var; try reflexivity. discriminate Hid. }
  rewrite Hmain. unfold hasattr_read. rewrite Hid. cbn [bind].
  rewrite Htrue, Hname. reflexivity.
Qed.

Lemma check_call_stack_first_agent_witness :
  check_call_stack_for_agent_id
    [[VInt 1; agent_example VNone]; [agent_example (VUuid uuid_example)];
     [VStr "__main__"; agent_example (VInt 7)]]
  = Ok (VUuid uuid_example).
Proof.
  apply (check_call_stack_first_agent _ [VInt 1; agent_example VNone]
           [VStr "__main__"; agent_example (VInt 7)]
           (agent_example (VUuid uuid_example)) (VUuid uuid_example) (VStr "planner"));
    reflexivity.
Defined.

(** X21: the name of the agent is read for the debug message before the
    id is returned: when the first variable with a true agent id has no
    [agent_ops_agent_name], the function raises [AttributeError] and
    returns no id. *)
Theorem check_call_stack_nameless_agent (stack : list (list value))
    (pre post : list value) (q : string) (attrs : list (string * result value))
    (id : value)
    (Hstack : concat stack = pre ++ VObj q attrs :: post)
    (Hpre : forallb passed_over pre = true)
    (Hid : lookup_attr "agent_ops_agent_id" attrs = Some (Ok id))
    (Htrue : truthy id = true)
    (Hname : lookup_attr "agent_ops_agent_name" attrs = None) :
  check_call_stack_for_agent_id stack = Raise AttributeError.
Proof.
  unfold check_call_stack_for_agent_id. rewrite scan_frames_concat, Hstack.
  rewrite (scan_locals_passed_over _ _ Hpre). cbn [scan_locals eq_str].
  unfold hasattr_read, getattr. rewrite Hid. cbn [bind].
  rewrite Htrue, Hname. reflexivity.
Qed.

Lemma check_call_stack_nameless_agent_witness :
  check_call_stack_for_agent_id [[VInt 1]; [nameless_agent_example (VInt 7)]]
  = Raise AttributeError.
Proof.
  apply (check_call_stack_nameless_agent _ [VInt 1] [] "Agent"
           [("agent_ops_agent_id", Ok (VInt 7))] (VInt 7));
    reflexivity.
Defined.

(** ** The text [safe_serialize] returns *)

Lemma escape_char_printable (c : ascii) : forallb printable_ascii (escape_char c) = true.
Proof.
  destruct c as [[|] [|] [|] [|] [|] [|] [|] [|]]; reflexivity.
Qed.

Lemma render_string_printable (s : string) : forallb printable_ascii (render_string s) = true.
Proof.
  unfold render_string. cbn [forallb]. rewrite forallb_app. cbn [forallb].
  change (printable_ascii quote) with true. rewrite andb_true_r. cbn [andb].
  induction (list_ascii_of_string s) as [|c cs IH]; [reflexivity|].
  cbn [flat_map]. rewrite forallb_app, escape_char_printable, IH. reflexivity.
Qed.

Lemma uint_chars_printable (u : Decimal.uint) : forallb printable_ascii (uint_chars u) = true.
Proof.
  unfold uint_chars. induction u; [reflexivity | exact IHu ..].
Qed.

Lemma render_int_printable (n : Z) : forallb printable_ascii (render_int n) = true.
Proof.
  destruct (render_int_cases n) as (u & _ & _ & [[_ ->] | [_ ->]]).
  - apply uint_chars_printable.
  - cbn [forallb]. rewrite uint_chars_printable. reflexivity.
Qed.

Lemma render_float_printable (x : pyfloat) : forallb printable_ascii (render_float x) = true.
Proof.
  destruct x as [[negative u f e]| | |]; try reflexivity.
  cbn [render_float]. unfold render_literal.
  cbn [fl_negative fl_integer fl_fraction fl_exponent].
  rewrite !forallb_app, uint_chars_printable.
  assert (Hs : forallb printable_ascii (if negative then ["-"%char] else []) = true).
  { destruct negative; reflexivity. }
  assert (Hf : forallb printable_ascii (render_fraction f) = true).
  { destruct f as [d|]; [|reflexivity]. cbn [render_fraction forallb].
    rewrite uint_chars_printable. reflexivity. }
  assert (He : forallb printable_ascii (render_exponent e) = true).
  { destruct e as [[d|d]|]; try reflexivity; cbn [render_exponent forallb];
      rewrite uint_chars_printable; reflexivity. }
  rewrite Hs, Hf, He. reflexivity.
Qed.

Lemma join_printable (sep : list ascii) (parts : list (list ascii)) :
  forallb printable_ascii sep = true ->
  Forall (fun p => forallb printable_ascii p = true) parts ->
  forallb printable_ascii (join sep parts) = true.
Proof.
  intros Hsep. induction 1 as [|p ps Hp Hps IH]; [reflexivity|].
  destruct ps as [|p' ps]; [exact Hp|].
  rewrite join_cons2, !forallb_app, Hp, Hsep, IH. reflexivity.
Qed.

Lemma render_printable (j : json) : forallb printable_ascii (render j) = true.
Proof.
  induction j as [|b|n|x|s|l IH|l IH] using json_nested_ind.
  - reflexivity.
  - destruct b; reflexivity.
  - apply render_int_printable.
  - apply render_float_printable.
  - apply render_string_printable.
  - rewrite render_JArr. cbn [forallb]. rewrite forallb_app.
    rewrite join_printable; [reflexivity | reflexivity |].
    apply List.Forall_map. exact IH.
  - rewrite render_JObj. cbn [forallb]. rewrite forallb_app.
    rewrite join_printable; [reflexivity | reflexivity |].
    apply List.Forall_map. eapply Forall_impl; [exact IH|].
    intros [k v] Hv. unfold render_member. cbn [fst snd] in *.
    rewrite !forallb_app, render_string_printable, Hv. reflexivity.
Qed.

(** X22: the text [safe_serialize] returns is made of printable ASCII
    characters only: every other character of a string, a control
    character or a character beyond ASCII, is written as an escape. *)
Theorem safe_serialize_ascii (max_digits : N) (v : value) (text : string)
    (Htext : safe_serialize max_digits v = Ok text) :
  forallb printable_ascii (list_ascii_of_string text) = true.
Proof.
  unfold safe_serialize, json_dumps in Htext.
  apply bind_Ok in Htext as (j & _ & [= <-]).
  rewrite list_ascii_of_string_of_list_ascii. apply render_printable.
Qed.

Lemma safe_serialize_ascii_witness :
  forallb printable_ascii
    (list_ascii_of_string
       (text_of (JArr [JStr (String (ascii_of_N 10) (String (ascii_of_N 233) "x"))])))
  = true.
Proof.
  apply (safe_serialize_ascii default_max_str_digits
           (VList [VStr (String (ascii_of_N 10) (String (ascii_of_N 233) "x"))])).
  reflexivity.
Defined.
